(** * Type Explorer (umstek/type-explorer)

    A shallow embedding of [src/TypeExplorerProvider.ts] (the import scanner
    and the export resolver of the tree data provider) and of
    [src/extension.ts] (the documentation page), with the properties the
    specification states about them.

    Conventions of the model.
    - A JavaScript string is a [string]; a character is a UTF-16 code unit,
      and the model covers the code units below 256.
    - A regular expression literal of the source is written as a [Pattern]
      (its syntax tree) and run by a backtracking matcher that follows the
      ECMAScript matching rules for the constructs the source uses.
    - The host (the editor's command surface) is an oracle whose answers may
      depend on every request made before; a host call may throw.
    - An [async] method is run to completion: its [await]s are sequenced. *)

From Stdlib Require Import String Ascii List ZArith Lia Bool.
From stdpp Require Import gmap strings list.

Open Scope string_scope.
Open Scope nat_scope.
Open Scope list_scope.

(** [simpl] may compute an append whose first string is known. *)
Arguments String.append !_ _ : simpl nomatch.

(* ================================================================== *)
(** ** JavaScript strings *)
(* ================================================================== *)

Module JsString.

Definition quot : ascii := "034"%char.
Definition apos : ascii := "'"%char.
Definition lf : ascii := "010"%char.
Definition tab : ascii := "009"%char.
Definition backslash : ascii := "\"%char.

(** White space and line terminators below 256: what [\s] matches and
    what [trim] removes. *)
Definition isWhiteSpace (c : ascii) : bool :=
  let n := nat_of_ascii c in
  ((9 <=? n) && (n <=? 13)) || (n =? 32) || (n =? 160).

(** [\w] is [[A-Za-z0-9_]]. *)
Definition isWordChar (c : ascii) : bool :=
  let n := nat_of_ascii c in
  ((48 <=? n) && (n <=? 57)) || ((65 <=? n) && (n <=? 90))
  || ((97 <=? n) && (n <=? 122)) || (n =? 95).

Definition isLineTerminator (c : ascii) : bool :=
  let n := nat_of_ascii c in (n =? 10) || (n =? 13).

Fixpoint drop (n : nat) (s : string) : string :=
  match n, s with
  | 0, _ => s
  | S n', String _ t => drop n' t
  | S _, EmptyString => EmptyString
  end.

Fixpoint take (n : nat) (s : string) : string :=
  match n, s with
  | 0, _ => EmptyString
  | S n', String c t => String c (take n' t)
  | S _, EmptyString => EmptyString
  end.

(** [s.substring(i, j)] for [i <= j]. *)
Definition slice (i j : nat) (s : string) : string := take (j - i) (drop i s).

(** The character before index [i], if any. *)
Definition charBefore (s : string) (i : nat) : option ascii :=
  match i with
  | 0 => None
  | S j => String.get j s
  end.

Fixpoint startsWith (needle s : string) : bool :=
  match needle, s with
  | EmptyString, _ => true
  | String a n', String b s' => Ascii.eqb a b && startsWith n' s'
  | String _ _, EmptyString => false
  end.

(** [indexOfFrom needle s i]: the first index of [needle] in a text whose
    suffix from index [i] is [s]; [-1] when there is none. *)
Fixpoint indexOfFrom (needle s : string) (i : nat) : Z :=
  if startsWith needle s then Z.of_nat i
  else match s with
       | EmptyString => (-1)%Z
       | String _ t => indexOfFrom needle t (S i)
       end.

(** [s.indexOf(needle, from)]; the position is clamped to the length. *)
Definition indexOf (needle s : string) (from : nat) : Z :=
  let from' := Nat.min from (String.length s) in
  indexOfFrom needle (drop from' s) from'.

(** [s.split(sep)] for a separator of one character. *)
Fixpoint split (sep : ascii) (s : string) : list string :=
  match s with
  | EmptyString => [EmptyString]
  | String c t =>
      if Ascii.eqb c sep then EmptyString :: split sep t
      else match split sep t with
           | h :: r => String c h :: r
           | [] => [String c EmptyString]
           end
  end.

Fixpoint trimStart (s : string) : string :=
  match s with
  | EmptyString => EmptyString
  | String c t => if isWhiteSpace c then trimStart t else s
  end.

Fixpoint trimEnd (s : string) : string :=
  match s with
  | EmptyString => EmptyString
  | String c t =>
      match trimEnd t with
      | EmptyString => if isWhiteSpace c then EmptyString else String c EmptyString
      | t' => String c t'
      end
  end.

Definition trim (s : string) : string := trimEnd (trimStart s).

(** [a.join(sep)]. *)
Definition join (sep : string) (l : list string) : string := String.concat sep l.

(** [a.includes(x)] on an array of strings. *)
Definition includes (x : string) (l : list string) : bool :=
  existsb (String.eqb x) l.

(** A string is truthy when it is not empty. *)
Definition truthy (s : string) : bool :=
  match s with EmptyString => false | _ => true end.

(** [s.replace(/[...]/g, r)] where the pattern is one character class and
    the replacement is computed from the matched character. *)
Fixpoint replaceEach (f : ascii -> option string) (s : string) : string :=
  match s with
  | EmptyString => EmptyString
  | String c t =>
      match f c with
      | Some r => r +:+ replaceEach f t
      | None => String c (replaceEach f t)
      end
  end.

(** [s.replace(/c/g, r)] for a pattern of one literal character. *)
Definition replaceAll (c : ascii) (r : string) (s : string) : string :=
  replaceEach (fun a => if Ascii.eqb a c then Some r else None) s.

Fixpoint allChars (p : ascii -> bool) (s : string) : bool :=
  match s with
  | EmptyString => true
  | String c t => p c && allChars p t
  end.

End JsString.

(* ================================================================== *)
(** ** Regular expressions *)
(* ================================================================== *)

Module Regex.
Import JsString.

Inductive CharSet : Type :=
| Lit (c : ascii)           (* a pattern character, or an escaped one *)
| AnyChar                   (* [.] *)
| Space                     (* [\s] *)
| Word                      (* [\w] *)
| OneOf (cs : list ascii)   (* [[...]] *)
| NoneOf (cs : list ascii). (* [[^...]] *)

Definition memChar (c : ascii) (cs : list ascii) : bool :=
  existsb (Ascii.eqb c) cs.

Definition inSet (cs : CharSet) (c : ascii) : bool :=
  match cs with
  | Lit a => Ascii.eqb c a
  | AnyChar => negb (isLineTerminator c)
  | Space => isWhiteSpace c
  | Word => isWordChar c
  | OneOf l => memChar c l
  | NoneOf l => negb (memChar c l)
  end.

Inductive Pattern : Type :=
| Eps
| Chr (cs : CharSet)
| Cat (r1 r2 : Pattern)
| Star (r : Pattern)            (* [r*], greedy *)
| Plus (r : Pattern)            (* [r+], greedy *)
| Opt (r : Pattern)             (* [r?], greedy *)
| Group (n : nat) (r : Pattern) (* the capturing group number [n] *)
| WordBoundary                  (* [\b] *)
| InputStart                    (* [^] *)
| InputEnd.                     (* [$] *)

(** The pattern characters of [s] one after the other. *)
Fixpoint lit (s : string) : Pattern :=
  match s with
  | EmptyString => Eps
  | String c t => Cat (Chr (Lit c)) (lit t)
  end.

Fixpoint seq (rs : list Pattern) : Pattern :=
  match rs with
  | [] => Eps
  | [r] => r
  | r :: rs' => Cat r (seq rs')
  end.

Fixpoint groupsOf (r : Pattern) : list nat :=
  match r with
  | Cat r1 r2 => groupsOf r1 ++ groupsOf r2
  | Star r1 | Plus r1 | Opt r1 => groupsOf r1
  | Group n r1 => n :: groupsOf r1
  | _ => []
  end.

(** Where the matcher stands in the text: the index, the character before
    it and the text from it on. *)
Record Cursor : Type := { pos : nat; prev : option ascii; rest : string }.

Definition Captures : Type := list (nat * string).

Definition getGroup (n : nat) (c : Captures) : option string :=
  snd <$> List.find (fun e => fst e =? n) c.

Definition setGroup (n : nat) (s : string) (c : Captures) : Captures :=
  (n, s) :: List.filter (fun e => negb (fst e =? n)) c.

Definition clearGroups (ns : list nat) (c : Captures) : Captures :=
  List.filter (fun e => negb (existsb (Nat.eqb (fst e)) ns)) c.

Definition Cont : Type := Cursor -> Captures -> option (Cursor * Captures).

Definition advance (a : ascii) (t : string) (x : Cursor) : Cursor :=
  {| pos := S (pos x); prev := Some a; rest := t |}.

Definition prevIsWord (x : Cursor) : bool :=
  match prev x with Some a => isWordChar a | None => false end.

Definition nextIsWord (x : Cursor) : bool :=
  match rest x with String a _ => isWordChar a | EmptyString => false end.

Section Repeat.
(** One iteration of the repeated atom, and the reset of the captures
    of the groups inside it. *)
Variable step : Cont -> Cont.
Variable reset : Captures -> Captures.

(** The greedy [{0,}] loop: an iteration that consumes nothing is
    refused. [fuel] bounds the number of iterations; each consumes a
    character, so the number of characters left is enough. *)
Fixpoint repeatGreedy (fuel : nat) (k : Cont) (x : Cursor) (c : Captures)
  : option (Cursor * Captures) :=
  match fuel with
  | 0 => k x c
  | S fuel' =>
      match step (fun y c' => if pos y =? pos x then None
                              else repeatGreedy fuel' k y c') x (reset c) with
      | Some z => Some z
      | None => k x c
      end
  end.
End Repeat.

(** The backtracking matcher, in continuation-passing style: [k] is what
    has to match after [r]. *)
Fixpoint matchAt (r : Pattern) (k : Cont) (x : Cursor) (c : Captures)
  : option (Cursor * Captures) :=
  match r with
  | Eps => k x c
  | Chr cs =>
      match rest x with
      | String a t => if inSet cs a then k (advance a t x) c else None
      | EmptyString => None
      end
  | Cat r1 r2 => matchAt r1 (matchAt r2 k) x c
  | Star r1 =>
      repeatGreedy (matchAt r1) (clearGroups (groupsOf r1))
        (String.length (rest x)) k x c
  | Plus r1 =>
      matchAt r1
        (fun y c' => repeatGreedy (matchAt r1) (clearGroups (groupsOf r1))
                       (String.length (rest y)) k y c')
        x (clearGroups (groupsOf r1) c)
  | Opt r1 =>
      match matchAt r1 (fun y c' => if pos y =? pos x then None else k y c')
              x (clearGroups (groupsOf r1) c) with
      | Some z => Some z
      | None => k x c
      end
  | Group n r1 =>
      matchAt r1 (fun y c' => k y (setGroup n (take (pos y - pos x) (rest x)) c')) x c
  | WordBoundary => if xorb (prevIsWord x) (nextIsWord x) then k x c else None
  | InputStart => if pos x =? 0 then k x c else None
  | InputEnd => match rest x with EmptyString => k x c | String _ _ => None end
  end.

Definition accept : Cont := fun y c => Some (y, c).

(** What [exec] returns: [index], [match[0]] and the captures. *)
Record MatchResult : Type :=
  { index : nat; matched : string; groups : Captures }.

Definition endIndex (m : MatchResult) : nat := index m + String.length (matched m).
Definition group (n : nat) (m : MatchResult) : option string := getGroup n (groups m).

(** The leftmost match that starts at index [i] or later; [s] is the text
    from [i] on and [p] the character before. *)
Fixpoint searchFrom (r : Pattern) (i : nat) (p : option ascii) (s : string)
  : option MatchResult :=
  match matchAt r accept {| pos := i; prev := p; rest := s |} [] with
  | Some (y, c) => Some {| index := i; matched := take (pos y - i) s; groups := c |}
  | None =>
      match s with
      | EmptyString => None
      | String a t => searchFrom r (S i) (Some a) t
      end
  end.

(** A regular expression object: [re text lastIndex] is [re.exec(text)]
    when the search starts at [lastIndex]. *)
Definition RegExp : Type := string -> nat -> option MatchResult.

Definition compile (r : Pattern) : RegExp :=
  fun text lastIndex =>
    if String.length text <? lastIndex then None
    else searchFrom r lastIndex (charBefore text lastIndex) (drop lastIndex text).

(** [re.exec(text)] of an expression without the [g] flag. *)
Definition exec (re : RegExp) (text : string) : option MatchResult := re text 0.

(** The matches of [while ((match = re.exec(text)) !== null)] for an
    expression with the [g] flag: each search starts where the match
    before ended. *)
Fixpoint execLoop (re : RegExp) (text : string) (fuel lastIndex : nat)
  : list MatchResult :=
  match fuel with
  | 0 => []
  | S fuel' =>
      match re text lastIndex with
      | None => []
      | Some m => m :: execLoop re text fuel' (endIndex m)
      end
  end.

Definition execAll (re : RegExp) (text : string) : list MatchResult :=
  execLoop re text (S (String.length text)) 0.

(** [s.split(re)] for a pattern without groups. *)
Fixpoint findSplit (r : Pattern) (p q : nat) (pc : option ascii) (s : string)
  : option (nat * nat) :=
  match s with
  | EmptyString => None
  | String a t =>
      match matchAt r accept {| pos := q; prev := pc; rest := s |} [] with
      | Some (y, _) =>
          if pos y =? p then findSplit r p (S q) (Some a) t else Some (q, pos y)
      | None => findSplit r p (S q) (Some a) t
      end
  end.

Fixpoint splitLoop (r : Pattern) (text : string) (fuel p : nat) : list string :=
  match fuel with
  | 0 => [drop p text]
  | S fuel' =>
      match findSplit r p p (charBefore text p) (drop p text) with
      | None => [drop p text]
      | Some (q, e) => slice p q text :: splitLoop r text fuel' e
      end
  end.

Definition splitRe (r : Pattern) (text : string) : list string :=
  match text with
  | EmptyString =>
      match matchAt r accept {| pos := 0; prev := None; rest := text |} [] with
      | Some _ => []
      | None => [text]
      end
  | _ => splitLoop r text (String.length text) 0
  end.

End Regex.

(* ================================================================== *)
(** ** Patterns built at run time *)
(* ================================================================== *)

(** The source builds three kinds of expressions with [new RegExp], from a
    template and an interpolated string. The template parts are written as
    [Pattern]s. The interpolated part is read here when it is made of terms
    that stand for themselves wherever they are put: pattern characters,
    [.], [^], [$] and an escaped syntax character. Any other pattern is left
    to the runtime, which is a parameter of the provider. *)

Module Fragment.
Import JsString Regex.

(** SyntaxCharacter of the ECMAScript pattern grammar. *)
Definition syntaxChars : list ascii :=
  ["^"; "$"; "\"; "."; "*"; "+"; "?"; "("; ")"; "["; "]"; "{"; "}"; "|"]%char.

Definition isSyntaxChar (c : ascii) : bool := memChar c syntaxChars.

Fixpoint parse (p : string) : option Pattern :=
  match p with
  | EmptyString => Some Eps
  | String c t =>
      if Ascii.eqb c backslash then
        match t with
        | String e t' =>
            if isSyntaxChar e then Cat (Chr (Lit e)) <$> parse t' else None
        | EmptyString => None
        end
      else if Ascii.eqb c "." then Cat (Chr AnyChar) <$> parse t
      else if Ascii.eqb c "^" then Cat InputStart <$> parse t
      else if Ascii.eqb c "$" then Cat InputEnd <$> parse t
      else if isSyntaxChar c then None
      else Cat (Chr (Lit c)) <$> parse t
  end.

(** [new RegExp(source)] where [source] is a template around the
    interpolated string [s]: [before] and [after] are the template parts. *)
Definition newRegExp (other : string -> option RegExp)
    (before : Pattern) (s : string) (after : Pattern) (source : string)
  : option RegExp :=
  match parse s with
  | Some r => Some (compile (Cat before (Cat r after)))
  | None => other source
  end.

End Fragment.

(* ================================================================== *)
(** ** The host's data *)
(* ================================================================== *)

Module vscode.

(** A [Uri], by what [toString()] gives. *)
Module Uri.
Record t : Type := { toString : string }.
(** [vscode.Uri.parse(s)]: the empty text gives the uri of the root of
    the file system; any other text is taken as given in the form that
    [toString()] gives back. *)
Definition parse (s : string) : t :=
  {| toString := match s with EmptyString => "file:///" | _ => s end |}.
Definition eqb (a b : t) : bool := String.eqb (toString a) (toString b).
End Uri.

Module Position.
Record t : Type := { line : nat; character : nat }.
End Position.

Module Range.
Record t : Type := { start : Position.t; end_ : Position.t }.
(** [new vscode.Range(l1, c1, l2, c2)]. *)
Definition make (l1 c1 l2 c2 : nat) : t :=
  {| start := {| Position.line := l1; Position.character := c1 |};
     end_ := {| Position.line := l2; Position.character := c2 |} |}.
End Range.

Module Location.
Record t : Type := { uri : Uri.t; range : Range.t }.
(** [new vscode.Location(uri, position)]: the empty range at [position]. *)
Definition at_ (u : Uri.t) (p : Position.t) : t :=
  {| uri := u; range := {| Range.start := p; Range.end_ := p |} |}.
End Location.

Module SymbolKind.
Inductive t : Type :=
| File | Module | Namespace | Package | Class | Method | Property
| Field | Constructor | Enum | Interface | Function | Variable_
| Constant | String | Number | Boolean | Array | Object | Key | Null
| EnumMember | Struct | Event | Operator | TypeParameter.
End SymbolKind.

Module CompletionItemKind.
Inductive t : Type :=
| Text | Method | Function | Constructor | Field | Variable_ | Class
| Interface | Module | Property | Unit | Value | Enum | Keyword
| Snippet | Color | File | Reference | Folder | EnumMember | Constant
| Struct | Event | Operator | TypeParameter | User | Issue.
End CompletionItemKind.

Module CompletionItem.
(** [string | CompletionItemLabel]. *)
Inductive Label : Type :=
| LabelString (s : string)
| LabelObject (label : string) (detail : option string).

(** [string | MarkdownString]. *)
Inductive Documentation : Type :=
| DocString (s : string)
| DocMarkdown (value : string).

Record t : Type :=
  { label : Label;
    kind : option CompletionItemKind.t;
    detail : option string;
    documentation : option Documentation }.
End CompletionItem.

Module Hover.
(** An element of [contents]: a string, an object with a [value] (a
    [MarkdownString] or a marked code block), or another object. *)
Inductive Content : Type :=
| ContentString (s : string)
| ContentValue (value : string)
| ContentOther.

Record t : Type := { contents : list Content }.
End Hover.

(** [Location | LocationLink], by the fields the provider reads. *)
Module DefinitionLink.
Inductive t : Type :=
| OfLocation (uri : Uri.t)
| OfLink (targetUri : Uri.t).
End DefinitionLink.

Module DocumentSymbol.
Record t : Type :=
  { name : string;
    detail : string;
    kind : SymbolKind.t;
    selectionRange : Range.t }.
End DocumentSymbol.

Module TextDocument.
Record t : Type :=
  { uri : Uri.t;
    getText : string;
    positionAt : Z -> Position.t }.
End TextDocument.

(** What a call gives: a value, or an error thrown. *)
Inductive Outcome (A : Type) : Type :=
| Returned (a : A)
| Thrown (e : string).
Arguments Returned {A} a.
Arguments Thrown {A} e.

Definition isThrown {A : Type} (o : Outcome A) : bool :=
  match o with Returned _ => false | Thrown _ => true end.

Inductive Request : Type :=
| CompletionItemRequest (u : Uri.t) (p : Position.t) (triggerCharacter : option string)
| DefinitionRequest (u : Uri.t) (p : Position.t)
| DocumentSymbolRequest (u : Uri.t)
| HoverRequest (u : Uri.t) (p : Position.t).

(** A call made: the request, and whether it threw. *)
Record HostCall : Type := { request : Request; threw : bool }.

(** [vscode.commands.executeCommand] for the four commands the provider
    runs; the first argument is the list of the calls made before. *)
Record Host : Type :=
  { executeCompletionItemProvider :
      list HostCall -> Uri.t -> Position.t -> option string ->
      Outcome (option (list CompletionItem.t));
    executeDefinitionProvider :
      list HostCall -> Uri.t -> Position.t -> Outcome (option (list DefinitionLink.t));
    executeDocumentSymbolProvider :
      list HostCall -> Uri.t -> Outcome (option (list DocumentSymbol.t));
    executeHoverProvider :
      list HostCall -> Uri.t -> Position.t -> Outcome (option (list Hover.t)) }.

End vscode.

(* ================================================================== *)
(** ** The explorer's nodes *)
(* ================================================================== *)

Module ImportNode.
Record t : Type :=
  { name : string;
    modulePath : string;
    isNamespace : bool;
    location : vscode.Location.t;
    isManuallyAdded : option bool }.
End ImportNode.

Module MemberNode.
Record t : Type :=
  { name : string;
    detail : string;
    symbolKind : vscode.SymbolKind.t;
    modulePath : string;
    documentation : option string }.
End MemberNode.

Inductive ExplorerNode : Type :=
| Import (n : ImportNode.t)
| Member (m : MemberNode.t).

(* ================================================================== *)
(** ** The provider's state and its computations *)
(* ================================================================== *)

Module Run.
Import vscode.

(** The fields of [TypeExplorerProvider]; [fired] counts the calls of
    [_onDidChangeTreeData.fire()]. *)
Record Provider : Type :=
  { memberCache : gmap string (list MemberNode.t);
    manualPackages : list ImportNode.t;
    fired : nat }.

(** A computation of the provider: from the calls made before and the
    state, to what it gives, the state after and the calls it made. *)
Definition M (A : Type) : Type :=
  list HostCall -> Provider -> Outcome A * Provider * list HostCall.

Definition ret {A : Type} (a : A) : M A := fun _ st => (Returned a, st, []).

Definition throw {A : Type} (e : string) : M A := fun _ st => (Thrown e, st, []).

Definition bind {A B : Type} (m : M A) (f : A -> M B) : M B :=
  fun h st =>
    match m h st with
    | (Returned a, st1, c1) =>
        let '(o, st2, c2) := f a (h ++ c1) st1 in (o, st2, c1 ++ c2)
    | (Thrown e, st1, c1) => (Thrown e, st1, c1)
    end.

(** [try { m } catch (e) { handler e }]. *)
Definition tryCatch {A : Type} (m : M A) (handler : string -> M A) : M A :=
  fun h st =>
    match m h st with
    | (Returned a, st1, c1) => (Returned a, st1, c1)
    | (Thrown e, st1, c1) =>
        let '(o, st2, c2) := handler e (h ++ c1) st1 in (o, st2, c1 ++ c2)
    end.

Definition get : M Provider := fun _ st => (Returned st, st, []).

Definition modify (f : Provider -> Provider) : M unit :=
  fun _ st => (Returned tt, f st, []).

(** A call of the host: [answer] is the host's answer given the calls
    made before. *)
Definition call {A : Type} (req : Request) (answer : list HostCall -> Outcome A)
  : M A :=
  fun h st =>
    let o := answer h in (o, st, [{| request := req; threw := isThrown o |}]).

(** A value that may be missing because building it threw. *)
Definition orThrow {A : Type} (e : string) (o : option A) : M A :=
  match o with Some a => ret a | None => throw e end.

Definition result {A : Type} (x : Outcome A * Provider * list HostCall) : Outcome A :=
  fst (fst x).
Definition stateAfter {A : Type} (x : Outcome A * Provider * list HostCall) : Provider :=
  snd (fst x).
Definition calls {A : Type} (x : Outcome A * Provider * list HostCall) : list HostCall :=
  snd x.

End Run.

Notation "'do' x <- m ; k" := (Run.bind m (fun x => k))
  (at level 10, x name, m at level 100, k at level 200).
Notation "'do_' m ; k" := (Run.bind m (fun _ => k))
  (at level 10, m at level 100, k at level 200).

(* ================================================================== *)
(** ** [TypeExplorerProvider]: the import scanner *)
(* ================================================================== *)

Module Scanner.
Import JsString Regex vscode.

(** In the comments a pattern of the source is written with blanks between
    its parts (they are no part of it), and its double quote as [\x22]. *)
Definition ws : Pattern := Chr Space.
(** [['\x22]] *)
Definition quote : Pattern := Chr (OneOf [apos; quot]).
(** [([^'\x22]+)] as the group number [n] *)
Definition specifier (n : nat) : Pattern := Group n (Plus (Chr (NoneOf [apos; quot]))).
(** [[^}]] *)
Definition notBrace : Pattern := Chr (NoneOf ["}"%char]).

(** [/import \s+ (?: (\w+) \s* ,? \s* )? (?: \{ ([^}]* ) \} )? \s* from \s* ['\x22] ([^'\x22]+) ['\x22]/g] *)
Definition standardRegex : Pattern :=
  seq [lit "import"; Plus ws;
       Opt (seq [Group 1 (Plus (Chr Word)); Star ws; Opt (Chr (Lit ",")); Star ws]);
       Opt (seq [Chr (Lit "{"); Group 2 (Star notBrace); Chr (Lit "}")]);
       Star ws; lit "from"; Star ws; quote; specifier 3; quote].

(** [/import \s+ \* \s+ as \s+ (\w+) \s+ from \s+ ['\x22] ([^'\x22]+) ['\x22]/g] *)
Definition namespaceRegex : Pattern :=
  seq [lit "import"; Plus ws; Chr (Lit "*"); Plus ws; lit "as"; Plus ws;
       Group 1 (Plus (Chr Word)); Plus ws; lit "from"; Plus ws;
       quote; specifier 2; quote].

(** [/import \s+ type \s+ \{ ([^}]* ) \} \s+ from \s+ ['\x22] ([^'\x22]+) ['\x22]/g] *)
Definition typeRegex : Pattern :=
  seq [lit "import"; Plus ws; lit "type"; Plus ws;
       Chr (Lit "{"); Group 1 (Star notBrace); Chr (Lit "}"); Plus ws;
       lit "from"; Plus ws; quote; specifier 2; quote].

(** [/\s+as\s+/] *)
Definition asRegex : Pattern := seq [Plus ws; lit "as"; Plus ws].

(** [modules], a [Map<string, ImportNode>]: the entries in the order of
    their first insertion. *)
Definition ModuleMap : Type := list (string * ImportNode.t).

Definition has (k : string) (m : ModuleMap) : bool :=
  existsb (fun e => String.eqb (fst e) k) m.

Fixpoint set (k : string) (v : ImportNode.t) (m : ModuleMap) : ModuleMap :=
  match m with
  | [] => [(k, v)]
  | (k', v') :: m' =>
      if String.eqb k' k then (k, v) :: m' else (k', v') :: set k v m'
  end.

Definition values (m : ModuleMap) : list ImportNode.t := map snd m.

(** A group that is in no optional part takes part in every match. *)
Definition mandatory (o : option string) : string := default EmptyString o.

Definition truthyOpt (o : option string) : bool :=
  match o with Some s => truthy s | None => false end.

(** [a || b] on values that are a string or [undefined]. *)
Definition jsOr (a b : option string) : option string :=
  if truthyOpt a then a else b.

(** [namedImports.split(',')[0].trim().split(/\s+as\s+/).pop()?.trim()] *)
Definition firstLocalName (namedImports : string) : option string :=
  trim <$> last (splitRe asRegex (trim (hd EmptyString (split "," namedImports)))).

Section Document.
Variable document : TextDocument.t.

Definition lineOf (m : MatchResult) : nat :=
  Position.line (TextDocument.positionAt document (Z.of_nat (index m))).

Definition importLocation (m : MatchResult) : Location.t :=
  Location.at_ (TextDocument.uri document)
    {| Position.line := lineOf m; Position.character := 0 |}.

(** The body of the first loop. *)
Definition addStandard (modules : ModuleMap) (m : MatchResult) : ModuleMap :=
  let modulePath := mandatory (group 3 m) in
  let defaultImport := group 1 m in
  let namedImports := group 2 m in
  if has modulePath modules then modules
  else
    let importName :=
      jsOr defaultImport
        (if truthyOpt namedImports then firstLocalName (mandatory namedImports)
         else Some modulePath) in
    set modulePath
      {| ImportNode.name := mandatory (jsOr importName (Some modulePath));
         ImportNode.modulePath := modulePath;
         ImportNode.isNamespace := false;
         ImportNode.location := importLocation m;
         ImportNode.isManuallyAdded := None |} modules.

(** The body of the second loop. *)
Definition addNamespace (modules : ModuleMap) (m : MatchResult) : ModuleMap :=
  let name := mandatory (group 1 m) in
  let modulePath := mandatory (group 2 m) in
  set modulePath
    {| ImportNode.name := name;
       ImportNode.modulePath := modulePath;
       ImportNode.isNamespace := true;
       ImportNode.location := importLocation m;
       ImportNode.isManuallyAdded := None |} modules.

(** The body of the third loop. *)
Definition addType (modules : ModuleMap) (m : MatchResult) : ModuleMap :=
  let namedImports := mandatory (group 1 m) in
  let modulePath := mandatory (group 2 m) in
  if has modulePath modules then modules
  else
    let firstName := firstLocalName namedImports in
    set modulePath
      {| ImportNode.name := mandatory (jsOr firstName (Some modulePath));
         ImportNode.modulePath := modulePath;
         ImportNode.isNamespace := false;
         ImportNode.location := importLocation m;
         ImportNode.isManuallyAdded := None |} modules.

(** The body of the last loop, over the packages added by hand. *)
Definition addManual (modules : ModuleMap) (pkg : ImportNode.t) : ModuleMap :=
  if has (ImportNode.modulePath pkg) modules then modules
  else set (ImportNode.modulePath pkg) pkg modules.

(** The four loops of [findImportedModules] one after the other. *)
Definition scan (manualPackages : list ImportNode.t) : ModuleMap :=
  let text := TextDocument.getText document in
  let modules := fold_left addStandard (execAll (compile standardRegex) text) [] in
  let modules := fold_left addNamespace (execAll (compile namespaceRegex) text) modules in
  let modules := fold_left addType (execAll (compile typeRegex) text) modules in
  fold_left addManual manualPackages modules.
End Document.

(** [findImportedModules], given the document of the active editor, if
    there is one, and [this.manualPackages]. *)
Definition findImportedModules (editor : option TextDocument.t)
    (manualPackages : list ImportNode.t) : list ImportNode.t :=
  match editor with
  | None => []
  | Some document => values (scan document manualPackages)
  end.

End Scanner.

(* ================================================================== *)
(** ** [TypeExplorerProvider]: the export resolver *)
(* ================================================================== *)

Module Resolver.
Import JsString Regex vscode Run.

(** The character class of [escapeRegex]. *)
Definition escapedChars : list ascii :=
  ["."; "*"; "+"; "?"; "^"; "$"; "{"; "}"; "("; ")"; "|"; "["; "]"; "\"]%char.

(** [str.replace(/[.*+?^${}()|[\]\\]/g, '\\$&')] *)
Definition escapeRegex (str : string) : string :=
  replaceEach
    (fun c => if memChar c escapedChars
              then Some (String backslash (String c EmptyString)) else None)
    str.

(** The texts of the templates given to [new RegExp]. A backslash stands
    for itself in these strings. *)
Definition quoteSource : string :=
  "['" +:+ String quot EmptyString +:+ "]".

Definition importSource (plus : bool) (esc : string) : string :=
  "import\s*\{([^}]" +:+ (if plus then "+" else "*") +:+ ")\}\s*from\s*"
  +:+ quoteSource +:+ esc +:+ quoteSource.

Definition defaultSource (esc : string) : string :=
  "import\s+(\w+)\s*(?:,\s*\{[^}]*\})?\s*from\s*"
  +:+ quoteSource +:+ esc +:+ quoteSource.

(** [import \s* \{ ([^}]* ) \} \s* from \s* ['\x22]], the part before the
    module path in [getModuleExports] *)
Definition importBefore : Pattern :=
  seq [lit "import"; Star Scanner.ws; Chr (Lit "{");
       Group 1 (Star Scanner.notBrace); Chr (Lit "}"); Star Scanner.ws;
       lit "from"; Star Scanner.ws; Scanner.quote].

(** [import \s* \{ ([^}]+ ) \} \s* from \s* ['\x22]], the same part in
    [getAlreadyImportedNames] *)
Definition importedBefore : Pattern :=
  seq [lit "import"; Star Scanner.ws; Chr (Lit "{");
       Group 1 (Plus Scanner.notBrace); Chr (Lit "}"); Star Scanner.ws;
       lit "from"; Star Scanner.ws; Scanner.quote].

(** [import \s+ (\w+) \s* (?: , \s* \{ [^}]* \} )? \s* from \s* ['\x22]] *)
Definition defaultBefore : Pattern :=
  seq [lit "import"; Plus Scanner.ws; Group 1 (Plus (Chr Word)); Star Scanner.ws;
       Opt (seq [Chr (Lit ","); Star Scanner.ws; Chr (Lit "{");
                 Star Scanner.notBrace; Chr (Lit "}")]);
       Star Scanner.ws; lit "from"; Star Scanner.ws; Scanner.quote].

(** The separator of [join('\n\n')]. *)
Definition blankLine : string := String lf (String lf EmptyString).

Definition contentText (c : Hover.Content) : string :=
  match c with
  | Hover.ContentString s => s
  | Hover.ContentValue value => value
  | Hover.ContentOther => EmptyString
  end.

(** [hovers.flatMap(h => h.contents).map(c => ...)] *)
Definition hoverTexts (hovers : list Hover.t) : list string :=
  map contentText (flat_map Hover.contents hovers).

Definition completionKindToSymbolKind (kind : option CompletionItemKind.t)
  : SymbolKind.t :=
  match kind with
  | Some CompletionItemKind.Method => SymbolKind.Method
  | Some CompletionItemKind.Function => SymbolKind.Function
  | Some CompletionItemKind.Property => SymbolKind.Property
  | Some CompletionItemKind.Field => SymbolKind.Field
  | Some CompletionItemKind.Variable_ => SymbolKind.Variable_
  | Some CompletionItemKind.Class => SymbolKind.Class
  | Some CompletionItemKind.Interface => SymbolKind.Interface
  | Some CompletionItemKind.Module => SymbolKind.Module
  | Some CompletionItemKind.Enum => SymbolKind.Enum
  | Some CompletionItemKind.EnumMember => SymbolKind.EnumMember
  | Some CompletionItemKind.Constant => SymbolKind.Constant
  | Some CompletionItemKind.Constructor => SymbolKind.Constructor
  | Some CompletionItemKind.TypeParameter => SymbolKind.TypeParameter
  | Some CompletionItemKind.Event => SymbolKind.Event
  | _ => SymbolKind.Variable_
  end.

(** The items [processCompletionItems] skips. *)
Definition isNonExport (kind : option CompletionItemKind.t) : bool :=
  match kind with
  | Some CompletionItemKind.Keyword
  | Some CompletionItemKind.Snippet
  | Some CompletionItemKind.Text => true
  | _ => false
  end.

Definition labelOf (item : CompletionItem.t) : string :=
  match CompletionItem.label item with
  | CompletionItem.LabelString s => s
  | CompletionItem.LabelObject l _ => l
  end.

Definition detailOf (item : CompletionItem.t) : string :=
  match CompletionItem.label item with
  | CompletionItem.LabelObject _ (Some d) =>
      if truthy d then d else default EmptyString (CompletionItem.detail item)
  | _ => default EmptyString (CompletionItem.detail item)
  end.

(** The documentation the item carries, when it is not empty. *)
Definition ownDocumentation (item : CompletionItem.t) : option string :=
  match CompletionItem.documentation item with
  | Some (CompletionItem.DocString s) => if truthy s then Some s else None
  | Some (CompletionItem.DocMarkdown value) => if truthy value then Some value else None
  | None => None
  end.

Definition priority (kind : SymbolKind.t) : Z :=
  match kind with
  | SymbolKind.Class => 0
  | SymbolKind.Interface => 1
  | SymbolKind.Enum => 2
  | SymbolKind.Function => 3
  | SymbolKind.Constant => 4
  | _ => 5
  end.

Section Runtime.

(** [new RegExp(source)] for the sources [Fragment] does not read: the
    expression, or [None] when the constructor throws a [SyntaxError]. *)
Variable regExpOther : string -> option RegExp.

(** [a.localeCompare(b)]. *)
Variable localeCompare : string -> string -> Z.

Variable host : Host.

Definition newRegExp (before : Pattern) (s : string) (after : Pattern)
    (source : string) : M RegExp :=
  orThrow "SyntaxError" (Fragment.newRegExp regExpOther before s after source).

(** The loop over [namedPart.split(',')]. *)
Definition addNamedPart (names : list string) (namedPart : string) : list string :=
  fold_left
    (fun names item =>
       let trimmed := trim item in
       if truthy trimmed then
         let originalName := trim (hd EmptyString (splitRe Scanner.asRegex trimmed)) in
         if truthy originalName && negb (includes originalName names)
         then names ++ [originalName] else names
       else names)
    (split "," namedPart) names.

Definition getAlreadyImportedNames (text modulePath : string) : M (list string) :=
  let esc := escapeRegex modulePath in
  do importRegex <- newRegExp importedBefore esc Scanner.quote (importSource true esc);
  let names :=
    fold_left (fun names m => addNamedPart names (Scanner.mandatory (group 1 m)))
      (execAll importRegex text) [] in
  do defaultRegex <- newRegExp defaultBefore esc Scanner.quote (defaultSource esc);
  match exec defaultRegex text with
  | Some defaultMatch =>
      if Scanner.truthyOpt (group 1 defaultMatch)
         && negb (includes (Scanner.mandatory (group 1 defaultMatch)) names)
      then Run.ret (names ++ [Scanner.mandatory (group 1 defaultMatch)])
      else Run.ret names
  | None => Run.ret names
  end.

Definition hover (u : Uri.t) (p : Position.t) : M (option (list Hover.t)) :=
  call (HoverRequest u p) (fun h => executeHoverProvider host h u p).

Definition getDocumentationForImportedName (name : string)
    (document : TextDocument.t) : M (option string) :=
  let text := TextDocument.getText document in
  do nameRegex <- newRegExp WordBoundary name WordBoundary ("\b" +:+ name +:+ "\b");
  match exec nameRegex text with
  | None => Run.ret None
  | Some m =>
      let position := TextDocument.positionAt document (Z.of_nat (index m)) in
      tryCatch
        (do hovers <- hover (TextDocument.uri document) position;
         match hovers with
         | Some ((_ :: _) as hs) =>
             Run.ret (Some (join blankLine (List.filter truthy (hoverTexts hs))))
         | _ => Run.ret None
         end)
        (fun _ => Run.ret None)
  end.

(** The loop of [getExportsViaDefinition] over the symbols. *)
Fixpoint symbolMembers (defUri : Uri.t) (modulePath : string)
    (symbols : list DocumentSymbol.t) : M (list MemberNode.t) :=
  match symbols with
  | [] => Run.ret []
  | symbol :: symbols' =>
      do hovers <- hover defUri (Range.start (DocumentSymbol.selectionRange symbol));
      let documentation :=
        match hovers with
        | Some ((_ :: _) as hs) => Some (join blankLine (hoverTexts hs))
        | _ => None
        end in
      do members <- symbolMembers defUri modulePath symbols';
      Run.ret ({| MemberNode.name := DocumentSymbol.name symbol;
                  MemberNode.detail := DocumentSymbol.detail symbol;
                  MemberNode.symbolKind := DocumentSymbol.kind symbol;
                  MemberNode.modulePath := modulePath;
                  MemberNode.documentation := documentation |} :: members)
  end.

Definition cacheSet (modulePath : string) (members : list MemberNode.t) : M unit :=
  modify (fun st =>
            {| memberCache := <[modulePath := members]> (memberCache st);
               manualPackages := manualPackages st;
               fired := fired st |}).

Definition getExportsViaDefinition (importNode : ImportNode.t)
    (document : TextDocument.t) : M (list MemberNode.t) :=
  let docUri := TextDocument.uri document in
  let start := Range.start (Location.range (ImportNode.location importNode)) in
  tryCatch
    (do definitions <-
       call (DefinitionRequest docUri start)
         (fun h => executeDefinitionProvider host h docUri start);
     match definitions with
     | None | Some [] => Run.ret []
     | Some (def :: _) =>
         let defUri :=
           match def with
           | DefinitionLink.OfLink targetUri => targetUri
           | DefinitionLink.OfLocation uri => uri
           end in
         if Uri.eqb defUri docUri then Run.ret []
         else
           do symbols <-
             call (DocumentSymbolRequest defUri)
               (fun h => executeDocumentSymbolProvider host h defUri);
           match symbols with
           | None | Some [] => Run.ret []
           | Some symbols =>
               do members <- symbolMembers defUri (ImportNode.modulePath importNode) symbols;
               do_ cacheSet (ImportNode.modulePath importNode) members;
               Run.ret members
           end
     end)
    (fun _ => Run.ret []).

Fixpoint processCompletionItems (items : list CompletionItem.t)
    (modulePath : string) (document : TextDocument.t) : M (list MemberNode.t) :=
  match items with
  | [] => Run.ret []
  | item :: items' =>
      if isNonExport (CompletionItem.kind item)
      then processCompletionItems items' modulePath document
      else
        let label := labelOf item in
        let detail := detailOf item in
        do documentation <-
          match ownDocumentation item with
          | Some d => Run.ret (Some d)
          | None => getDocumentationForImportedName label document
          end;
        do members <- processCompletionItems items' modulePath document;
        Run.ret ({| MemberNode.name := label;
                    MemberNode.detail := detail;
                    MemberNode.symbolKind :=
                      completionKindToSymbolKind (CompletionItem.kind item);
                    MemberNode.modulePath := modulePath;
                    MemberNode.documentation := documentation |} :: members)
  end.

(** The loop that adds the names already imported. *)
Fixpoint addAlreadyImported (alreadyImported : list string) (modulePath : string)
    (document : TextDocument.t) (completionMembers : list MemberNode.t)
  : M (list MemberNode.t) :=
  match alreadyImported with
  | [] => Run.ret completionMembers
  | name :: names =>
      if existsb (fun m => String.eqb (MemberNode.name m) name) completionMembers
      then addAlreadyImported names modulePath document completionMembers
      else
        do doc <- getDocumentationForImportedName name document;
        addAlreadyImported names modulePath document
          (completionMembers ++
             [{| MemberNode.name := name;
                 MemberNode.detail := EmptyString;
                 MemberNode.symbolKind := SymbolKind.Variable_;
                 MemberNode.modulePath := modulePath;
                 MemberNode.documentation := doc |}])
  end.

(** The comparison function given to [sort]. *)
Definition compareMembers (a b : MemberNode.t) : Z :=
  let pa := priority (MemberNode.symbolKind a) in
  let pb := priority (MemberNode.symbolKind b) in
  if negb (pa =? pb)%Z then (pa - pb)%Z
  else localeCompare (MemberNode.name a) (MemberNode.name b).

Fixpoint insertSorted (x : MemberNode.t) (l : list MemberNode.t) : list MemberNode.t :=
  match l with
  | [] => [x]
  | y :: l' =>
      if (compareMembers x y <=? 0)%Z then x :: y :: l' else y :: insertSorted x l'
  end.

(** [completionMembers.sort(...)]: the sort is stable. *)
Definition sortMembers (l : list MemberNode.t) : list MemberNode.t :=
  fold_right insertSorted [] l.

(** Where [getModuleExports] asks for completions: the position and the
    trigger character, or [None] when the text has no place for it. *)
Definition completionTarget (importNode : ImportNode.t) (document : TextDocument.t)
  : M (option (Position.t * option string)) :=
  let text := TextDocument.getText document in
  if ImportNode.isNamespace importNode then
    let name := ImportNode.name importNode in
    do usageRegex <- newRegExp WordBoundary name (Chr (Lit ".")) ("\b" +:+ name +:+ "\.");
    match exec usageRegex text with
    | Some usageMatch =>
        let dotPos := index usageMatch + String.length (matched usageMatch) in
        Run.ret (Some (TextDocument.positionAt document (Z.of_nat dotPos), Some "."))
    | None => Run.ret None
    end
  else
    let esc := escapeRegex (ImportNode.modulePath importNode) in
    do importRegex <- newRegExp importBefore esc Scanner.quote (importSource false esc);
    match exec importRegex text with
    | Some importMatch =>
        let bracePos := indexOf "{" text (index importMatch) in
        Run.ret (Some (TextDocument.positionAt document (bracePos + 1)%Z, None))
    | None => Run.ret None
    end.

Definition getModuleExports (editor : option TextDocument.t)
    (importNode : ImportNode.t) : M (list MemberNode.t) :=
  let modulePath := ImportNode.modulePath importNode in
  do st <- get;
  match memberCache st !! modulePath with
  | Some members => Run.ret members
  | None =>
      match editor with
      | None => Run.ret []
      | Some document =>
          tryCatch
            (let text := TextDocument.getText document in
             let docUri := TextDocument.uri document in
             do alreadyImported <- getAlreadyImportedNames text modulePath;
             do target <- completionTarget importNode document;
             match target with
             | None => getExportsViaDefinition importNode document
             | Some (completionPosition, triggerChar) =>
                 do completions <-
                   call (CompletionItemRequest docUri completionPosition triggerChar)
                     (fun h => executeCompletionItemProvider host h docUri
                                 completionPosition triggerChar);
                 match completions with
                 | None | Some [] => getExportsViaDefinition importNode document
                 | Some items =>
                     do completionMembers <-
                       processCompletionItems items modulePath document;
                     do completionMembers <-
                       addAlreadyImported alreadyImported modulePath document
                         completionMembers;
                     let completionMembers := sortMembers completionMembers in
                     do_ cacheSet modulePath completionMembers;
                     Run.ret completionMembers
                 end
             end)
            (fun _ => Run.ret [])
      end
  end.

Definition refresh : M unit :=
  modify (fun st =>
            {| memberCache := ∅;
               manualPackages := manualPackages st;
               fired := S (fired st) |}).

Definition addPackage (packageName : string) : M unit :=
  do st <- get;
  if existsb (fun p => String.eqb (ImportNode.modulePath p) packageName)
       (manualPackages st)
  then Run.ret tt
  else
    modify (fun st =>
              {| memberCache := delete packageName (memberCache st);
                 manualPackages :=
                   manualPackages st ++
                     [{| ImportNode.name := packageName;
                         ImportNode.modulePath := packageName;
                         ImportNode.isNamespace := true;
                         ImportNode.location :=
                           {| Location.uri := Uri.parse EmptyString;
                              Location.range := Range.make 0 0 0 0 |};
                         ImportNode.isManuallyAdded := Some true |}];
                 fired := S (fired st) |}).

Definition findImportedModules (editor : option TextDocument.t)
  : M (list ImportNode.t) :=
  do st <- get;
  Run.ret (Scanner.findImportedModules editor (manualPackages st)).

Definition getChildren (editor : option TextDocument.t)
    (element : option ExplorerNode) : M (list ExplorerNode) :=
  match element with
  | None =>
      do modules <- findImportedModules editor;
      Run.ret (map Import modules)
  | Some (Import importNode) =>
      do members <- getModuleExports editor importNode;
      Run.ret (map Member members)
  | Some (Member _) => Run.ret []
  end.

End Runtime.
End Resolver.

(* ================================================================== *)
(** ** [extension.ts]: the documentation page *)
(* ================================================================== *)

Module Extension.
Import JsString.

(** [escapeHtml]: four replacements, one after the other. *)
Definition escapeHtml (str : string) : string :=
  replaceAll quot "&quot;"
    (replaceAll ">" "&gt;"
       (replaceAll "<" "&lt;"
          (replaceAll "&" "&amp;" str))).

Definition hexDigit (n : nat) : ascii :=
  match n with
  | 0 => "0" | 1 => "1" | 2 => "2" | 3 => "3" | 4 => "4" | 5 => "5"
  | 6 => "6" | 7 => "7" | 8 => "8" | 9 => "9" | 10 => "a" | 11 => "b"
  | 12 => "c" | 13 => "d" | 14 => "e" | _ => "f"
  end%char.

(** How [JSON.stringify] writes one character of a string: the short
    escapes, [\u00xx] for the other control characters, and the character
    itself otherwise. *)
Definition jsonChar (c : ascii) : string :=
  let n := nat_of_ascii c in
  if n =? 8 then "\b"
  else if n =? 9 then "\t"
  else if n =? 10 then "\n"
  else if n =? 12 then "\f"
  else if n =? 13 then "\r"
  else if n =? 34 then String backslash (String quot EmptyString)
  else if n =? 92 then "\\"
  else if n <? 32 then
    "\u00" +:+ String (hexDigit (n / 16)) (String (hexDigit (n mod 16)) EmptyString)
  else String c EmptyString.

Fixpoint jsonChars (s : string) : string :=
  match s with
  | EmptyString => EmptyString
  | String c t => jsonChar c +:+ jsonChars t
  end.

(** [JSON.stringify(s)] for a string [s]. *)
Definition JSON_stringify (s : string) : string :=
  String quot (jsonChars s +:+ String quot EmptyString).

(** A text of the template, given by its pieces between double quotes. *)
Definition cutAtQuotes (pieces : list string) : string :=
  String.concat (String quot EmptyString) pieces.

(** The constant texts of the template of [getDocumentationHtml], in the
    order of the page. *)
Definition pageToTitle : string :=
  cutAtQuotes
  ["<!DOCTYPE html>
<html lang=";
   "en";
   ">
<head>
	<meta charset=";
   "UTF-8";
   ">
	<meta name=";
   "viewport";
   " content=";
   "width=device-width, initial-scale=1.0";
   ">
	<title>"].

Definition pageToHeading : string :=
  cutAtQuotes
  ["</title>
	<script src=";
   "https://cdn.jsdelivr.net/npm/marked/marked.min.js";
   "></script>
	<link rel=";
   "stylesheet";
   " href=";
   "https://cdn.jsdelivr.net/npm/highlight.js@11/styles/vs2015.min.css";
   ">
	<script src=";
   "https://cdn.jsdelivr.net/npm/highlight.js@11";
   "></script>
	<style>
		body {
			font-family: var(--vscode-font-family);
			padding: 20px;
			color: var(--vscode-foreground);
			background: var(--vscode-editor-background);
			line-height: 1.6;
		}
		h1 {
			color: var(--vscode-textLink-foreground);
			margin-bottom: 5px;
			font-size: 1.5em;
		}
		h2 {
			color: var(--vscode-textLink-foreground);
			margin-top: 1.5em;
			font-size: 1.3em;
			border-bottom: 1px solid var(--vscode-widget-border);
			padding-bottom: 5px;
		}
		h3 {
			color: var(--vscode-textLink-foreground);
			margin-top: 1.2em;
			font-size: 1.1em;
		}
		h4 {
			color: var(--vscode-textLink-foreground);
			margin-top: 1em;
		}
		.module {
			color: var(--vscode-descriptionForeground);
			font-size: 0.9em;
			margin-bottom: 20px;
		}
		.signature {
			background: var(--vscode-textBlockQuote-background);
			padding: 12px;
			border-radius: 4px;
			font-family: var(--vscode-editor-font-family);
			font-size: var(--vscode-editor-font-size);
			overflow-x: auto;
			margin-bottom: 20px;
			white-space: pre-wrap;
		}
		code {
			background: var(--vscode-textBlockQuote-background);
			padding: 2px 6px;
			border-radius: 3px;
			font-family: var(--vscode-editor-font-family);
		}
		pre {
			background: var(--vscode-textBlockQuote-background);
			padding: 12px;
			border-radius: 4px;
			overflow-x: auto;
		}
		pre code {
			padding: 0;
			background: transparent;
		}
		hr {
			border: none;
			border-top: 1px solid var(--vscode-widget-border);
			margin: 20px 0;
		}
		ul, ol {
			padding-left: 20px;
		}
		li {
			margin: 5px 0;
		}
		strong {
			color: var(--vscode-textLink-activeForeground);
		}
		a {
			color: var(--vscode-textLink-foreground);
		}
		blockquote {
			border-left: 3px solid var(--vscode-textBlockQuote-border);
			margin: 10px 0;
			padding-left: 15px;
			color: var(--vscode-descriptionForeground);
		}
		table {
			border-collapse: collapse;
			width: 100%;
			margin: 15px 0;
		}
		th, td {
			border: 1px solid var(--vscode-widget-border);
			padding: 8px;
			text-align: left;
		}
		th {
			background: var(--vscode-textBlockQuote-background);
		}
	</style>
</head>
<body>
	<h1>"].

Definition pageToModule : string :=
  cutAtQuotes
  ["</h1>
	<div class=";
   "module";
   ">from <code>"].

Definition pageToSignature : string :=
  cutAtQuotes
  ["</code></div>
	"].

Definition pageToScript : string :=
  cutAtQuotes
  ["
	<hr>
	<div id=";
   "documentation";
   "></div>
	<script>
		const docContent = "].

Definition pageEnd : string :=
  cutAtQuotes
  [";
		marked.setOptions({
			highlight: function(code, lang) {
				if (lang && hljs.getLanguage(lang)) {
					return hljs.highlight(code, { language: lang }).value;
				}
				return hljs.highlightAuto(code).value;
			},
			breaks: true,
			gfm: true
		});
		document.getElementById('documentation').innerHTML = marked.parse(docContent);
	</script>
</body>
</html>"].

(** [<div class="signature">${detail}</div>], cut at its double quotes. *)
Definition signatureBlock (detail : string) : string :=
  cutAtQuotes ["<div class="; "signature"; ">"] +:+ detail +:+ "</div>".

Definition getDocumentationHtml (member : MemberNode.t) : string :=
  let name := escapeHtml (MemberNode.name member) in
  let detail :=
    if truthy (MemberNode.detail member)
    then escapeHtml (MemberNode.detail member) else EmptyString in
  let doc :=
    match MemberNode.documentation member with
    | Some d => if truthy d then d else "No documentation available."
    | None => "No documentation available."
    end in
  let modulePath := escapeHtml (MemberNode.modulePath member) in
  pageToTitle +:+ name +:+ pageToHeading +:+ name +:+ pageToModule
  +:+ modulePath +:+ pageToSignature
  +:+ (if truthy detail then signatureBlock detail else EmptyString)
  +:+ pageToScript +:+ JSON_stringify doc +:+ pageEnd.

End Extension.


From Stdlib Require Import Sorting.Sorted DecimalString.
From Stdlib Require OrderedTypeEx.

(* ================================================================== *)
(** ** [TypeExplorerProvider]: the rows of the tree *)
(* ================================================================== *)

Module Tree.
Import JsString vscode.

Inductive TreeItemCollapsibleState : Type := None_ | Collapsed | Expanded.

(** What was appended to a [MarkdownString], in order. *)
Inductive MarkdownPart : Type :=
| Markdown (value : string)
| Codeblock (code : string) (language : string).

Record MarkdownString : Type :=
  { parts : list MarkdownPart; isTrusted : bool }.

Record Command : Type :=
  { command : string; title : string; arguments : list ExplorerNode }.

Record TreeItem : Type :=
  { label : string;
    collapsibleState : TreeItemCollapsibleState;
    description : string;
    iconPath : string;              (* the id of the [ThemeIcon] *)
    contextValue : string;
    tooltip : option MarkdownString;
    itemCommand : option Command }.

Definition getIconForSymbolKind (kind : SymbolKind.t) : string :=
  match kind with
  | SymbolKind.Class => "symbol-class"
  | SymbolKind.Interface => "symbol-interface"
  | SymbolKind.Function => "symbol-function"
  | SymbolKind.Method => "symbol-method"
  | SymbolKind.Property => "symbol-property"
  | SymbolKind.Field => "symbol-field"
  | SymbolKind.Variable_ => "symbol-variable"
  | SymbolKind.Constant => "symbol-constant"
  | SymbolKind.Enum => "symbol-enum"
  | SymbolKind.EnumMember => "symbol-enum-member"
  | SymbolKind.TypeParameter => "symbol-type-parameter"
  | SymbolKind.Struct => "symbol-struct"
  | SymbolKind.Namespace => "symbol-namespace"
  | SymbolKind.Module => "symbol-module"
  | SymbolKind.Constructor => "symbol-method"
  | _ => "symbol-misc"
  end.

Definition getTreeItem (element : ExplorerNode) : TreeItem :=
  match element with
  | Import node =>
      {| label := ImportNode.modulePath node;
         collapsibleState := Collapsed;
         description :=
           match ImportNode.isManuallyAdded node with
           | Some true => "(browsing)"
           | _ =>
               if ImportNode.isNamespace node
               then "* as " +:+ ImportNode.name node
               else ImportNode.name node
           end;
         iconPath := "package";
         contextValue := "import";
         tooltip :=
           Some {| parts :=
                     [Markdown ("**" +:+ ImportNode.modulePath node +:+ "**"
                                +:+ String lf (String lf "Imported as `")
                                +:+ ImportNode.name node +:+ "`")];
                   isTrusted := false |};
         itemCommand := None |}
  | Member member =>
      {| label := MemberNode.name member;
         collapsibleState := None_;
         description := MemberNode.detail member;
         iconPath := getIconForSymbolKind (MemberNode.symbolKind member);
         contextValue := "member";
         tooltip :=
           if match MemberNode.documentation member with
              | Some d => truthy d
              | None => false
              end
           then
             Some {| parts :=
                       [Codeblock (if truthy (MemberNode.detail member)
                                   then MemberNode.detail member
                                   else MemberNode.name member) "typescript";
                        Markdown (String lf (String lf "---" +:+ String lf (String lf EmptyString)));
                        Markdown (default EmptyString (MemberNode.documentation member))];
                     isTrusted := true |}
           else if truthy (MemberNode.detail member)
           then Some {| parts := [Codeblock (MemberNode.detail member) "typescript"];
                        isTrusted := false |}
           else None;
         itemCommand :=
           Some {| command := "type-explorer.showDocumentation";
                   title := "Show Documentation";
                   arguments := [element] |} |}
  end.

End Tree.

(* ================================================================== *)
(** ** [TypeExplorerProvider.getInstalledPackages] *)
(* ================================================================== *)

Module Packages.
Import JsString vscode.

(** A value [JSON.parse] gives. The properties of an object are listed in
    the order [Object.keys] gives them, each key once; a number is an
    integer here (the code only tests whether it is zero). *)
#[local] Unset Elimination Schemes.
Inductive Json : Type :=
| JNull
| JBool (b : bool)
| JNumber (z : Z)
| JString (s : string)
| JArray (items : list Json)
| JObject (properties : list (string * Json)).
#[local] Set Elimination Schemes.

(** [value.name] on a value that is not [null]: [undefined] is [None]. *)
Definition property (name : string) (value : Json) : option Json :=
  match value with
  | JObject properties =>
      snd <$> List.find (fun p => String.eqb (fst p) name) properties
  | _ => None
  end.

Definition isTruthy (value : option Json) : bool :=
  match value with
  | None | Some JNull => false
  | Some (JBool b) => b
  | Some (JNumber z) => negb (z =? 0)%Z
  | Some (JString s) => truthy s
  | Some (JArray _) | Some (JObject _) => true
  end.

(** The keys ["0"], ["1"], ... of an array or a string of length [n]. *)
Definition indexKeys (n : nat) : list string :=
  map (fun i => NilZero.string_of_uint (Nat.to_uint i)) (List.seq 0 n).

(** [Object.keys(value)]. *)
Definition objectKeys (value : Json) : list string :=
  match value with
  | JObject properties => map fst properties
  | JArray items => indexKeys (List.length items)
  | JString s => indexKeys (String.length s)
  | _ => []
  end.

(** [if (v) packages.push(...Object.keys(v))]: what is pushed. *)
Definition keysIfTruthy (value : option Json) : list string :=
  if isTruthy value then objectKeys (default JNull value) else [].

(** The body of the loop for one folder, given what reading and parsing
    its [package.json] gives; an error, and the [TypeError] of reading a
    property of [null], is caught and nothing is pushed. *)
Definition folderPackages (packageJson : Outcome Json) : list string :=
  match packageJson with
  | Thrown _ | Returned JNull => []
  | Returned value =>
      keysIfTruthy (property "dependencies" value)
      ++ keysIfTruthy (property "devDependencies" value)
  end.

(** [[...new Set(packages)]]: each name once, at its first place. *)
Definition unique (packages : list string) : list string :=
  fold_left (fun seen p => if includes p seen then seen else seen ++ [p]) packages [].

Fixpoint insertName (x : string) (l : list string) : list string :=
  match l with
  | [] => [x]
  | y :: l' => if String.leb x y then x :: y :: l' else y :: insertName x l'
  end.

(** [names.sort()]: by code units; the sort is stable. *)
Definition sortNames (l : list string) : list string := fold_right insertName [] l.

(** [getInstalledPackages], given [vscode.workspace.workspaceFolders] as
    what [JSON.parse(content.toString())] gives for each folder's
    [package.json], in order. *)
Definition getInstalledPackages (workspaceFolders : option (list (Outcome Json)))
  : list string :=
  match workspaceFolders with
  | None => []
  | Some folders => sortNames (unique (flat_map folderPackages folders))
  end.

End Packages.

(* ================================================================== *)
(** ** [extension.ts]: the commands and the documentation panel *)
(* ================================================================== *)

Module Activation.
Import JsString vscode Run.

Record WebviewPanel : Type :=
  { viewType : string;
    panelTitle : string;
    enableScripts : bool;
    html : string }.

(** The extension once activated: the provider, the variable [docPanel]
    (a panel is known by the number of its creation), the panels that are
    open in the editor, and the numbers of panels created and of calls of
    [reveal] so far. *)
Record App : Type :=
  { provider : Provider;
    docPanel : option nat;
    panels : list (nat * WebviewPanel);
    created : nat;
    reveals : nat }.

(** The state [activate] leaves. *)
Definition activate : App :=
  {| provider := {| memberCache := ∅; manualPackages := []; fired := 0 |};
     docPanel := None;
     panels := [];
     created := 0;
     reveals := 0 |}.

(** A handler: it returns or throws, and leaves an [App]. *)
Definition Act (A : Type) : Type := App -> Outcome A * App.

Definition ret {A : Type} (a : A) : Act A := fun app => (Returned a, app).

Definition bind {A B : Type} (m : Act A) (f : A -> Act B) : Act B :=
  fun app =>
    match m app with
    | (Returned a, app1) => f a app1
    | (Thrown e, app1) => (Thrown e, app1)
    end.

Definition isOpen (id : nat) (app : App) : bool :=
  existsb (fun p => fst p =? id) (panels app).

(** A method or a setter of a panel: it throws on a disposed panel. *)
Definition onPanel (id : nat) (f : WebviewPanel -> WebviewPanel)
    (count : nat -> nat) : Act unit :=
  fun app =>
    if isOpen id app then
      (Returned tt,
       {| provider := provider app;
          docPanel := docPanel app;
          panels := map (fun p => if fst p =? id then (fst p, f (snd p)) else p)
                      (panels app);
          created := created app;
          reveals := count (reveals app) |})
    else (Thrown "Webview is disposed", app).

Definition reveal (id : nat) : Act unit := onPanel id (fun p => p) S.

Definition setTitle (id : nat) (t : string) : Act unit :=
  onPanel id
    (fun p => {| viewType := viewType p; panelTitle := t;
                 enableScripts := enableScripts p; html := html p |})
    (fun n => n).

Definition setHtml (id : nat) (content : string) : Act unit :=
  onPanel id
    (fun p => {| viewType := viewType p; panelTitle := panelTitle p;
                 enableScripts := enableScripts p; html := content |})
    (fun n => n).

(** [docPanel = vscode.window.createWebviewPanel(...)], with the listener
    of [onDidDispose] that every panel made here gets. *)
Definition createDocPanel : Act nat :=
  fun app =>
    let id := created app in
    (Returned id,
     {| provider := provider app;
        docPanel := Some id;
        panels := panels app ++
                    [(id, {| viewType := "typeExplorerDoc";
                             panelTitle := "Documentation";
                             enableScripts := true;
                             html := EmptyString |})];
        created := S id;
        reveals := reveals app |}).

(** The panel [id] is disposed, by the user who closes it or by
    [dispose()]: it is open no more, and its listener runs
    [docPanel = undefined]. Nothing happens for a panel that is not open. *)
Definition disposePanel (id : nat) (app : App) : App :=
  if isOpen id app then
    {| provider := provider app;
       docPanel := None;
       panels := List.filter (fun p => negb (fst p =? id)) (panels app);
       created := created app;
       reveals := reveals app |}
  else app.

(** The handler of [type-explorer.showDocumentation]; the argument is
    [None] for [undefined]. *)
Definition showDocumentation (member : option ExplorerNode) : Act unit :=
  match member with
  | Some (Member m) =>
      bind (fun app =>
              match docPanel app with
              | Some id => bind (reveal id) (fun _ => ret id) app
              | None => createDocPanel app
              end)
        (fun id =>
           bind (setTitle id (MemberNode.name m))
             (fun _ => setHtml id (Extension.getDocumentationHtml m)))
  | _ => ret tt
  end.

Definition deactivate (app : App) : App :=
  match docPanel app with
  | Some id => disposePanel id app
  | None => app
  end.

(** A method of the provider that calls no host, run on the provider of
    the extension. *)
Definition onProvider (m : Run.M unit) : Act unit :=
  fun app =>
    let r := m [] (provider app) in
    (Run.result r,
     {| provider := Run.stateAfter r;
        docPanel := docPanel app;
        panels := panels app;
        created := created app;
        reveals := reveals app |}).

(** The handler of [type-explorer.refresh]. *)
Definition refreshCommand : Act unit := onProvider Resolver.refresh.

Record QuickPickItem : Type :=
  { label : string; description : string; isCustom : bool }.

(** What the user and the workspace answer while [browsePackage] runs: the
    workspace folders, the place in the list of the item picked ([None]
    when the pick is dismissed) and the text of the input box ([None] when
    it is dismissed). *)
Record Answers : Type :=
  { workspaceFolders : option (list (Outcome Packages.Json));
    picked : option nat;
    typed : option string }.

Definition quickPickItems (packages : list string) : list QuickPickItem :=
  {| label := "$(edit) Enter package name...";
     description := "Type any package name";
     isCustom := true |}
  :: map (fun p => {| label := p; description := EmptyString; isCustom := false |})
       packages.

(** [const packageName = await showInputBox(...); if (packageName) addPackage(packageName)] *)
Definition addTyped (answers : Answers) : Act unit :=
  match typed answers with
  | Some packageName =>
      if truthy packageName then onProvider (Resolver.addPackage packageName)
      else ret tt
  | None => ret tt
  end.

(** The handler of [type-explorer.browsePackage]. *)
Definition browsePackageCommand (answers : Answers) : Act unit :=
  let packages := Packages.getInstalledPackages (workspaceFolders answers) in
  match packages with
  | [] => addTyped answers
  | _ =>
      match picked answers ≫= nth_error (quickPickItems packages) with
      | None => ret tt
      | Some selected =>
          if isCustom selected then addTyped answers
          else onProvider (Resolver.addPackage (label selected))
      end
  end.

(** [vscode.commands.executeCommand(command, ...arguments)] for the three
    commands [activate] registers; another command is not of this
    extension and does nothing here. *)
Definition executeCommand (answers : Answers) (command : string)
    (arguments : list ExplorerNode) : Act unit :=
  if String.eqb command "type-explorer.refresh" then refreshCommand
  else if String.eqb command "type-explorer.browsePackage" then browsePackageCommand answers
  else if String.eqb command "type-explorer.showDocumentation"
  then showDocumentation (head arguments)
  else ret tt.

End Activation.
(* ================================================================== *)
(** ** Words of the specification *)
(* ================================================================== *)

Module Spec.
Import JsString.

(** The HTML entity the specification gives for a character: [&amp;],
    [&lt;], [&gt;] and [&quot;] for the four characters, the character
    itself for any other. *)
Definition entity (c : ascii) : string :=
  if Ascii.eqb c "&" then "&amp;"
  else if Ascii.eqb c "<" then "&lt;"
  else if Ascii.eqb c ">" then "&gt;"
  else if Ascii.eqb c quot then "&quot;"
  else String c EmptyString.

(** A text with each of its characters replaced by its entity. *)
Fixpoint withEntities (s : string) : string :=
  match s with
  | EmptyString => EmptyString
  | String c t => entity c +:+ withEntities t
  end.

(** The characters [JSON.stringify] writes as they are. *)
Definition isPlainJson (c : ascii) : bool :=
  negb (nat_of_ascii c <? 32) && negb (Ascii.eqb c quot) && negb (Ascii.eqb c backslash).

(** The value of a hexadecimal digit. *)
Definition hexValue (c : ascii) : option nat :=
  let n := nat_of_ascii c in
  if (48 <=? n) && (n <=? 57) then Some (n - 48)
  else if (65 <=? n) && (n <=? 70) then Some (n - 55)
  else if (97 <=? n) && (n <=? 102) then Some (n - 87)
  else None.

(** The character an escape [\uXXXX] stands for, below 256. *)
Definition codeUnit (a b c d : ascii) : option ascii :=
  match hexValue a, hexValue b, hexValue c, hexValue d with
  | Some 0, Some 0, Some x, Some y => Some (ascii_of_nat (16 * x + y))
  | _, _, _, _ => None
  end.

(** The character a two-character escape stands for. *)
Definition shortEscape (e : ascii) : option ascii :=
  if Ascii.eqb e quot then Some quot
  else if Ascii.eqb e backslash then Some backslash
  else if Ascii.eqb e "/" then Some "/"%char
  else if Ascii.eqb e "b" then Some "008"%char
  else if Ascii.eqb e "f" then Some "012"%char
  else if Ascii.eqb e "n" then Some "010"%char
  else if Ascii.eqb e "r" then Some "013"%char
  else if Ascii.eqb e "t" then Some "009"%char
  else None.

(** The text after the opening quote of a JSON string literal, read up to
    the closing quote, which has to be its last character: the string the
    literal stands for. A control character, a backslash that starts no
    escape and a text after the closing quote make it no literal. *)
Fixpoint readJsonChars (s : string) : option string :=
  match s with
  | EmptyString => None
  | String c t =>
      if Ascii.eqb c quot then
        match t with EmptyString => Some EmptyString | String _ _ => None end
      else if Ascii.eqb c backslash then
        match t with
        | String "u" (String h1 (String h2 (String h3 (String h4 t')))) =>
            match codeUnit h1 h2 h3 h4, readJsonChars t' with
            | Some a, Some r => Some (String a r)
            | _, _ => None
            end
        | String e t' =>
            match shortEscape e, readJsonChars t' with
            | Some a, Some r => Some (String a r)
            | _, _ => None
            end
        | EmptyString => None
        end
      else if nat_of_ascii c <? 32 then None
      else match readJsonChars t with
           | Some r => Some (String c r)
           | None => None
           end
  end.

(** The string a JSON string literal stands for, by the grammar of JSON
    (a quote, characters and escapes, a quote), or [None] when the text is
    no string literal. *)
Definition readJsonString (literal : string) : option string :=
  match literal with
  | String c t => if Ascii.eqb c quot then readJsonChars t else None
  | EmptyString => None
  end.

(** The documentation body of a member: its documentation, or the
    placeholder when there is none. *)
Definition body (member : MemberNode.t) : string :=
  match MemberNode.documentation member with
  | Some d => if truthy d then d else "No documentation available."
  | None => "No documentation available."
  end.

End Spec.

(* ================================================================== *)
(** ** Notions used to state what the resolver does *)
(* ================================================================== *)

Module Notions.
Import JsString Regex vscode Run Resolver.

(** A computation that changes no state and calls no host. *)
Definition silent {A : Type} (m : M A) : Prop :=
  forall h st, exists o, m h st = (o, st, []).

(** A computation in which every call that threw made it throw. *)
Definition strict {A : Type} (m : M A) : Prop :=
  forall h st a st' cs, m h st = (Returned a, st', cs) ->
    Forall (fun c => threw c = false) cs.

Definition isHoverRequest (r : Request) : bool :=
  match r with HoverRequest _ _ => true | _ => false end.

Definition isDefinitionRequest (r : Request) : bool :=
  match r with DefinitionRequest _ _ => true | _ => false end.

Definition isCompletionRequest (r : Request) : bool :=
  match r with CompletionItemRequest _ _ _ => true | _ => false end.

(** A run with one more call before its own. *)
Definition after_ {A : Type} (c : HostCall)
    (x : Outcome A * Provider * list HostCall) : Outcome A * Provider * list HostCall :=
  (result x, stateAfter x, c :: calls x).

(** The state after [this.memberCache.set(modulePath, members)]. *)
Definition withCache (modulePath : string) (members : list MemberNode.t)
    (st : Provider) : Provider :=
  {| memberCache := <[modulePath := members]> (memberCache st);
     manualPackages := manualPackages st;
     fired := fired st |}.

Section Runtime.
Variable regExpOther : string -> option RegExp.
Variable host : Host.

(** What [getDocumentationForImportedName] gives and the call it makes,
    given the calls made before. *)
Definition documentationLookup (name : string) (document : TextDocument.t)
    (h : list HostCall) : Outcome (option string) * list HostCall :=
  match Fragment.newRegExp regExpOther WordBoundary name WordBoundary
          ("\b" +:+ name +:+ "\b") with
  | None => (Thrown "SyntaxError", [])
  | Some nameRegex =>
      match exec nameRegex (TextDocument.getText document) with
      | None => (Returned None, [])
      | Some m =>
          let u := TextDocument.uri document in
          let p := TextDocument.positionAt document (Z.of_nat (index m)) in
          let o := executeHoverProvider host h u p in
          (Returned
             match o with
             | Returned (Some ((_ :: _) as hs)) =>
                 Some (join blankLine (List.filter truthy (hoverTexts hs)))
             | _ => None
             end,
           [{| request := HoverRequest u p; threw := isThrown o |}])
      end
  end.

(** The part of [getModuleExports] that follows a non-empty answer of the
    completion provider, up to the sort. *)
Definition fromCompletions (alreadyImported : list string)
    (items : list CompletionItem.t) (modulePath : string)
    (document : TextDocument.t) : M (list MemberNode.t) :=
  do completionMembers <-
    processCompletionItems regExpOther host items modulePath document;
  addAlreadyImported regExpOther host alreadyImported modulePath document
    completionMembers.

End Runtime.
End Notions.


(* ================================================================== *)
(** ** Notions used to state what the matcher and the scanner do *)
(* ================================================================== *)

Module MatchNotions.
Import JsString Regex.

(** The character before the cursor once [w] is consumed. *)
Fixpoint lastOr (p : option ascii) (w : string) : option ascii :=
  match w with
  | EmptyString => p
  | String a t => lastOr (Some a) t
  end.

(** The cursor after [w] is consumed from [x], with [r] left. *)
Definition after (w : string) (x : Cursor) (r : string) : Cursor :=
  {| pos := pos x + String.length w; prev := lastOr (prev x) w; rest := r |}.

(** [r] does not go on with a character of the set. *)
Definition stops (cs : CharSet) (r : string) : bool :=
  match r with
  | EmptyString => true
  | String a _ => negb (inSet cs a)
  end.

(** The continuation of an iteration that has to consume something. *)
Definition progress (x : Cursor) (k : Cont) : Cont :=
  fun y c => if pos y =? pos x then None else k y c.

(** A character a module specifier may hold: any but the two quotes. *)
Definition isSpecifierChar (a : ascii) : bool := inSet (NoneOf [apos; quot]) a.

(** Whether [needle] occurs in [s]. *)
Definition occursIn (needle s : string) : bool := (0 <=? indexOf needle s 0)%Z.

(** The pieces of a repetition one after the other. *)
Definition concatAll (ws : list string) : string := fold_right String.append EmptyString ws.

(** The texts a pattern can consume, whatever stands around them (an
    assertion consumes nothing). *)
Fixpoint lang (r : Pattern) (w : string) : Prop :=
  match r with
  | Eps | WordBoundary | InputStart | InputEnd => w = EmptyString
  | Chr cs => exists a, w = String a EmptyString /\ inSet cs a = true
  | Cat r1 r2 => exists w1 w2, w = w1 +:+ w2 /\ lang r1 w1 /\ lang r2 w2
  | Star r1 => exists ws, w = concatAll ws /\ Forall (lang r1) ws
  | Plus r1 => exists w1 ws, w = w1 +:+ concatAll ws /\ lang r1 w1 /\ Forall (lang r1) ws
  | Opt r1 => w = EmptyString \/ lang r1 w
  | Group _ r1 => lang r1 w
  end.

(** [y] is reached from [x] by consuming [w]. *)
Definition reaches (x : Cursor) (w : string) (y : Cursor) : Prop :=
  rest x = w +:+ rest y /\ pos y = pos x + String.length w
  /\ prev y = lastOr (prev x) w.

(** The keys of [modules] are distinct and each node is under its module
    path. *)
Definition wellKeyed (m : Scanner.ModuleMap) : Prop :=
  NoDup (map fst m) /\ Forall (fun e => ImportNode.modulePath (snd e) = fst e) m.

(** [y] stands at [x] or later in the same text. *)
Definition within (x y : Cursor) : Prop :=
  pos x <= pos y
  /\ pos y + String.length (rest y) = pos x + String.length (rest x).

End MatchNotions.


(* ================================================================== *)
(** ** Notions used to state where the documentation of a name comes from *)
(* ================================================================== *)

Module WordNotions.
Import JsString Regex vscode Resolver.

Definition isWordOpt (p : option ascii) : bool :=
  match p with Some a => isWordChar a | None => false end.

Definition startsWithWordChar (s : string) : bool :=
  match s with String a _ => isWordChar a | EmptyString => false end.

(** [name] stands at the start of [s], after the character [p], as a whole
    word: no word character stands before it nor after it. *)
Definition wholeWordHere (name : string) (p : option ascii) (s : string) : bool :=
  startsWith name s && negb (isWordOpt p)
  && negb (startsWithWordChar (drop (String.length name) s)).

(** The first index, from [i] on, at which [name] stands as a whole word. *)
Fixpoint findWholeWord (name : string) (i : nat) (p : option ascii) (s : string)
  : option nat :=
  if wholeWordHere name p s then Some i
  else match s with
       | EmptyString => None
       | String a t => findWholeWord name (S i) (Some a) t
       end.

Definition firstWholeWord (name text : string) : option nat :=
  findWholeWord name 0 None text.

(** A name of one word character or more. *)
Definition isWordName (s : string) : bool := truthy s && allChars isWordChar s.

Section Runtime.
Variable host : Host.

(** The documentation the hover at the first whole-word occurrence of
    [name] gives, after the calls [h]: the texts of the hover contents that
    are not empty, joined by blank lines. *)
Definition hoverDocumentation (name : string) (document : TextDocument.t)
    (h : list HostCall) : option string :=
  match firstWholeWord name (TextDocument.getText document) with
  | None => None
  | Some i =>
      match executeHoverProvider host h (TextDocument.uri document)
              (TextDocument.positionAt document (Z.of_nat i)) with
      | Returned (Some ((_ :: _) as hs)) =>
          Some (join blankLine (List.filter truthy (hoverTexts hs)))
      | _ => None
      end
  end.

End Runtime.
End WordNotions.


(* ================================================================== *)
(** ** Notions used to state where the completion items are asked for *)
(* ================================================================== *)

Module PlaceNotions.
Import JsString Regex vscode Run Resolver Notions MatchNotions WordNotions.

(** A named import of [modulePath] stands at index [i] of [text], with its
    opening brace at index [brace]: [import], blanks, a brace list, blanks,
    [from], blanks and the module path between two quotes. *)
Definition namedImportAt (text modulePath : string) (i brace : nat) : Prop :=
  exists s1 l s2 s3 q q' tail,
    drop i text
    = "import" +:+ s1 +:+
      String "{" (l +:+ String "}" (s2 +:+ "from" +:+ s3 +:+
                                     String q (modulePath +:+ String q' tail)))
    /\ brace = i + 6 + String.length s1
    /\ allChars isWhiteSpace s1 = true
    /\ allChars (inSet (NoneOf ["}"%char])) l = true
    /\ allChars isWhiteSpace s2 = true
    /\ allChars isWhiteSpace s3 = true
    /\ memChar q [apos; quot] = true
    /\ memChar q' [apos; quot] = true.

(** A usage [name.] stands at index [i] of [text], and no word character
    stands before it. *)
Definition usageAt (text name : string) (i : nat) : Prop :=
  (exists tail, drop i text = name +:+ String "." tail)
  /\ isWordOpt (charBefore text i) = false.

(** The same, as a test on the character before and the text from [i]. *)
Definition usageHere (name : string) (p : option ascii) (s : string) : bool :=
  startsWith (name +:+ ".") s && negb (isWordOpt p).

(** [i] is the first index with the property. *)
Definition first (P : nat -> Prop) (i : nat) : Prop :=
  P i /\ forall j, P j -> i <= j.

(** The place in the text where completions are asked for a node: for a
    namespace node, just after the dot of the first usage of its name,
    with the trigger character [.]; for another node, just after the
    opening brace of the first named import of its module path. [None]
    stands for a text without such a place. *)
Definition isPlace (importNode : ImportNode.t) (document : TextDocument.t)
    (place : option (Position.t * option string)) : Prop :=
  let text := TextDocument.getText document in
  if ImportNode.isNamespace importNode then
    let name := ImportNode.name importNode in
    match place with
    | Some (position, trigger) =>
        trigger = Some "."
        /\ exists i,
             first (usageAt text name) i
             /\ position
                = TextDocument.positionAt document
                    (Z.of_nat (i + String.length name + 1))
    | None => forall i, ~ usageAt text name i
    end
  else
    let modulePath := ImportNode.modulePath importNode in
    match place with
    | Some (position, trigger) =>
        trigger = None
        /\ exists i brace,
             first (fun j => exists b, namedImportAt text modulePath j b) i
             /\ namedImportAt text modulePath i brace
             /\ position = TextDocument.positionAt document (Z.of_nat brace + 1)%Z
    | None => forall i brace, ~ namedImportAt text modulePath i brace
    end.

(** The expression [getModuleExports] builds for the named import of a
    module path. *)
Definition importPattern (modulePath : string) : Pattern :=
  Cat importBefore (Cat (lit modulePath) Scanner.quote).

(** The place just after the first match of an expression, with the
    trigger character [.]. *)
Definition placeAfter (re : RegExp) (document : TextDocument.t)
  : option (Position.t * option string) :=
  match exec re (TextDocument.getText document) with
  | Some m =>
      Some (TextDocument.positionAt document
              (Z.of_nat (index m + String.length (matched m))), Some ".")
  | None => None
  end.

Section Runtime.
Variable regExpOther : string -> option RegExp.
Variable host : Host.

(** The expression [\bname\.] that [getModuleExports] builds for a
    namespace node, or [None] when the [RegExp] constructor refuses it. *)
Definition usageRegExp (name : string) : option RegExp :=
  Fragment.newRegExp regExpOther WordBoundary name (Chr (Lit "."))
    ("\b" +:+ name +:+ "\.").

(** The run [r] of the resolver asks for the completion items at [place]
    first, and goes on with [getExportsViaDefinition] exactly when the
    answer is no list or an empty list; without a place it is the run of
    [getExportsViaDefinition]. *)
Definition completionFirst (place : option (Position.t * option string))
    (importNode : ImportNode.t) (document : TextDocument.t)
    (h : list HostCall) (st : Provider)
    (r : Outcome (list MemberNode.t) * Provider * list HostCall) : Prop :=
  let docUri := TextDocument.uri document in
  let fallback := getExportsViaDefinition host importNode document in
  match place with
  | None => r = fallback h st
  | Some (position, trigger) =>
      let o := executeCompletionItemProvider host h docUri position trigger in
      let c := {| request := CompletionItemRequest docUri position trigger;
                  threw := isThrown o |} in
      (exists cs, calls r = c :: cs)
      /\ match o with
         | Returned None | Returned (Some []) => r = after_ c (fallback (h ++ [c]) st)
         | _ => existsb (fun d => isDefinitionRequest (request d)) (calls r) = false
         end
  end.

End Runtime.
End PlaceNotions.


(* ================================================================== *)
(** ** Notions used to state which declarations the scanner finds *)
(* ================================================================== *)

Module ImportNotions.
Import JsString Regex Scanner MatchNotions WordNotions.

(** The four forms of import declaration: [import X from 'm'],
    [import {names} from 'm'], [import * as X from 'm'] and
    [import type {names} from 'm']. *)
Inductive ImportForm : Type :=
| DefaultImport (name : string)
| NamedImport (names : string)
| NamespaceImport (name : string)
| TypeImport (names : string).

(** The module specifier [m] between two quotes [q]. *)
Definition quoted (q : ascii) (m : string) : string :=
  String q (m +:+ String q EmptyString).

(** The text of a declaration, written with single blanks. *)
Definition declaration (form : ImportForm) (q : ascii) (m : string) : string :=
  match form with
  | DefaultImport name => "import " +:+ name +:+ " from " +:+ quoted q m
  | NamedImport names => "import {" +:+ names +:+ "} from " +:+ quoted q m
  | NamespaceImport name => "import * as " +:+ name +:+ " from " +:+ quoted q m
  | TypeImport names => "import type {" +:+ names +:+ "} from " +:+ quoted q m
  end.

(** The names are made of word characters; a brace list holds no closing
    brace. *)
Definition wellFormed (form : ImportForm) : bool :=
  match form with
  | DefaultImport name | NamespaceImport name => isWordName name
  | NamedImport names | TypeImport names => allChars (inSet (NoneOf ["}"%char])) names
  end.

(** A module specifier: one character or more, none of them a quote. *)
Definition isSpecifier (m : string) : bool := truthy m && allChars isSpecifierChar m.

(** The expression of the scanner that is written for a form. *)
Definition patternOf (form : ImportForm) : Pattern :=
  match form with
  | DefaultImport _ | NamedImport _ => standardRegex
  | NamespaceImport _ => namespaceRegex
  | TypeImport _ => typeRegex
  end.

(** The three expressions of the scanner. *)
Inductive Expression : Type := Standard | Namespace | TypeOnly.

Definition expressionOf (e : Expression) : Pattern :=
  match e with
  | Standard => standardRegex
  | Namespace => namespaceRegex
  | TypeOnly => typeRegex
  end.

(** The group of an expression that holds the module specifier. *)
Definition specifierGroup (e : Expression) : nat :=
  match e with Standard => 3 | _ => 2 end.

(** The blank number [i] of a declaration; a list that is too short
    stands for empty blanks. *)
Definition blank (i : nat) (blanks : list string) : string := nth i blanks EmptyString.

(** The text of a declaration with [blanks] between its parts, in the
    order of the text: [import _ X _ from _ 'm'],
    [import _ {names} _ from _ 'm'], [import _ * _ as _ X _ from _ 'm'] and
    [import _ type _ {names} _ from _ 'm']. *)
Definition written (form : ImportForm) (blanks : list string) (q : ascii) (m : string)
  : string :=
  match form with
  | DefaultImport name =>
      "import" +:+ blank 0 blanks +:+ name +:+ blank 1 blanks +:+ "from"
      +:+ blank 2 blanks +:+ quoted q m
  | NamedImport names =>
      "import" +:+ blank 0 blanks +:+ "{" +:+ names +:+ "}" +:+ blank 1 blanks
      +:+ "from" +:+ blank 2 blanks +:+ quoted q m
  | NamespaceImport name =>
      "import" +:+ blank 0 blanks +:+ "*" +:+ blank 1 blanks +:+ "as"
      +:+ blank 2 blanks +:+ name +:+ blank 3 blanks +:+ "from"
      +:+ blank 4 blanks +:+ quoted q m
  | TypeImport names =>
      "import" +:+ blank 0 blanks +:+ "type" +:+ blank 1 blanks +:+ "{" +:+ names
      +:+ "}" +:+ blank 2 blanks +:+ "from" +:+ blank 3 blanks +:+ quoted q m
  end.

(** The blanks that have to hold a character for an expression to match a
    declaration of a form, or [None] when the expression matches no
    declaration of the form. The standard expression takes [type] of a
    type-only import for a default import. *)
Definition needed (e : Expression) (form : ImportForm) : option (list nat) :=
  match e, form with
  | Standard, DefaultImport _ => Some [0; 1]
  | Standard, NamedImport _ => Some [0]
  | Standard, TypeImport _ => Some [0]
  | Namespace, NamespaceImport _ => Some [0; 1; 2; 3; 4]
  | TypeOnly, TypeImport _ => Some [0; 1; 2; 3]
  | _, _ => None
  end.

(** The blanks are made of white space (blanks, tabs, line breaks), and
    those the expression needs are not empty. *)
Definition reads (e : Expression) (form : ImportForm) (blanks : list string) : bool :=
  forallb (allChars isWhiteSpace) blanks
  && match needed e form with
     | Some l => forallb (fun i => truthy (blank i blanks)) l
     | None => false
     end.

(** One blank everywhere. *)
Definition singleBlanks : list string := [" "; " "; " "; " "; " "].

(** No match of [r] in the loop over [text] starts before index [n] and
    ends after it. *)
Definition clearBefore (r : Pattern) (text : string) (n : nat) : bool :=
  forallb (fun m => (n <=? index m) || (endIndex m <=? n)) (execAll (compile r) text).

(** The attempt to match [r] at index [n] of [text]. *)
Definition matchesAt (r : Pattern) (text : string) (n : nat)
  : option (Cursor * Captures) :=
  matchAt r accept {| pos := n; prev := charBefore text n; rest := drop n text |} [].

End ImportNotions.

(* ================================================================== *)
(** ** Notions used to state more of what the resolver does *)
(* ================================================================== *)

Module ItemNotions.
Import JsString Regex vscode Run Resolver.

(** A list of names as [getAlreadyImportedNames] keeps it: no name twice,
    no empty name. *)
Definition distinctNames (names : list string) : Prop :=
  NoDup names /\ Forall (fun n => truthy n = true) names.

(** The items [processCompletionItems] keeps. *)
Definition keptItems (items : list CompletionItem.t) : list CompletionItem.t :=
  List.filter (fun item => negb (isNonExport (CompletionItem.kind item))) items.

(** The member node built for an item, given its documentation. *)
Definition memberOf (modulePath : string) (item : CompletionItem.t)
    (documentation : option string) : MemberNode.t :=
  {| MemberNode.name := labelOf item;
     MemberNode.detail := detailOf item;
     MemberNode.symbolKind := completionKindToSymbolKind (CompletionItem.kind item);
     MemberNode.modulePath := modulePath;
     MemberNode.documentation := documentation |}.

Definition hasOwnDocumentation (item : CompletionItem.t) : bool :=
  match ownDocumentation item with Some _ => true | None => false end.

(** The member node built for a document symbol, given its documentation. *)
Definition symbolMember (modulePath : string) (symbol : DocumentSymbol.t)
    (documentation : option string) : MemberNode.t :=
  {| MemberNode.name := DocumentSymbol.name symbol;
     MemberNode.detail := DocumentSymbol.detail symbol;
     MemberNode.symbolKind := DocumentSymbol.kind symbol;
     MemberNode.modulePath := modulePath;
     MemberNode.documentation := documentation |}.

(** The hover request made for a document symbol. *)
Definition symbolHover (defUri : Uri.t) (symbol : DocumentSymbol.t) : Request :=
  HoverRequest defUri (Range.start (DocumentSymbol.selectionRange symbol)).

(** The documentation [getExportsViaDefinition] takes from the answer to
    a hover request: the texts of the hover contents joined by blank
    lines, or none when the answer has no hover. *)
Definition symbolDocumentation (answer : Outcome (option (list Hover.t)))
  : option string :=
  match answer with
  | Returned (Some ((_ :: _) as hs)) => Some (join blankLine (hoverTexts hs))
  | _ => None
  end.

(** The uri of a definition: [targetUri] of a link, [uri] of a location. *)
Definition definitionUri (def : DefinitionLink.t) : Uri.t :=
  match def with
  | DefinitionLink.OfLink targetUri => targetUri
  | DefinitionLink.OfLocation uri => uri
  end.

(** A call that did not throw. *)
Definition answered (q : Request) : HostCall := {| request := q; threw := false |}.

(** [a] does not come after [b] in the order of the kinds: classes,
    interfaces, enums, functions, constants, then the rest. *)
Definition byPriority (a b : MemberNode.t) : Prop :=
  (priority (MemberNode.symbolKind a) <= priority (MemberNode.symbolKind b))%Z.

Section Runtime.
Variable regExpOther : string -> option RegExp.
Variable localeCompare : string -> string -> Z.

(** [a] does not come after [b] for the comparison function of the sort. *)
Definition inOrder (a b : MemberNode.t) : Prop :=
  (compareMembers localeCompare a b <= 0)%Z.

(** The expression [getDocumentationForImportedName] builds for a name is
    refused by the [RegExp] constructor. *)
Definition refusedName (name : string) : Prop :=
  Fragment.newRegExp regExpOther WordBoundary name WordBoundary
    ("\b" +:+ name +:+ "\b") = None.

End Runtime.
End ItemNotions.

(* ================================================================== *)
(** ** Notions used to state what a provider keeps over its life *)
(* ================================================================== *)

Module StateNotions.
Import JsString Regex vscode Run Resolver.

(** The state [new TypeExplorerProvider()] starts with. *)
Definition newProvider : Provider :=
  {| memberCache := ∅; manualPackages := []; fired := 0 |}.

(** The node [addPackage] makes for a package name. *)
Definition manualNode (packageName : string) : ImportNode.t :=
  {| ImportNode.name := packageName;
     ImportNode.modulePath := packageName;
     ImportNode.isNamespace := true;
     ImportNode.location :=
       {| Location.uri := Uri.parse EmptyString;
          Location.range := Range.make 0 0 0 0 |};
     ImportNode.isManuallyAdded := Some true |}.

(** What the host can ask of a provider. *)
Inductive Operation : Type :=
| Refresh
| AddPackage (packageName : string)
| GetChildren (editor : option TextDocument.t) (element : option ExplorerNode).

(** An operation that leaves the members of [modulePath] in the cache:
    any but [refresh] and [addPackage] of that module path. *)
Definition keepsMembersOf (modulePath : string) (op : Operation) : bool :=
  match op with
  | Refresh => false
  | AddPackage packageName => negb (String.eqb packageName modulePath)
  | GetChildren _ _ => true
  end.

(** An operation that resolves the exports of [modulePath]: the children
    of a module node with that module path. *)
Definition resolves (modulePath : string) (op : Operation) : bool :=
  match op with
  | GetChildren _ (Some (Import importNode)) =>
      String.eqb (ImportNode.modulePath importNode) modulePath
  | _ => false
  end.

(** The packages added by hand have distinct module paths and are the
    nodes [addPackage] makes; every list in the cache holds members of
    the module path it is stored under. *)
Definition consistent (st : Provider) : Prop :=
  NoDup (map ImportNode.modulePath (manualPackages st))
  /\ Forall (fun p => p = manualNode (ImportNode.modulePath p)) (manualPackages st)
  /\ (forall k ms, memberCache st !! k = Some ms ->
        Forall (fun m => MemberNode.modulePath m = k) ms).

Section Runtime.
Variable regExpOther : string -> option RegExp.
Variable localeCompare : string -> string -> Z.
Variable host : Host.

Definition perform (op : Operation) : M unit :=
  match op with
  | Refresh => refresh
  | AddPackage packageName => addPackage packageName
  | GetChildren editor element => do_ Resolver.getChildren regExpOther localeCompare host editor element; Run.ret tt
  end.

(** The state after a sequence of operations, each run after the host
    calls of the ones before. *)
Fixpoint performAll (ops : list Operation) (h : list HostCall) (st : Provider)
  : Provider :=
  match ops with
  | [] => st
  | op :: ops' =>
      let r := perform op h st in
      performAll ops' (h ++ calls r) (stateAfter r)
  end.

End Runtime.
End StateNotions.

(* ================================================================== *)
(** ** Notions used to state what the scanner takes from the text *)
(* ================================================================== *)

Module ScanNotions.
Import JsString Regex vscode Scanner ImportNotions.

(** The captures [c'] are those of [c] outside the groups [ns]. *)
Definition sameOutside (ns : list nat) (c c' : Captures) : Prop :=
  forall n, ~ In n ns -> getGroup n c' = getGroup n c.

(** A node the scanner made from an import declaration of [document]. *)
Definition scannedNode (document : TextDocument.t) (node : ImportNode.t) : Prop :=
  ImportNode.isManuallyAdded node = None
  /\ Location.uri (ImportNode.location node) = TextDocument.uri document
  /\ Position.character (Range.start (Location.range (ImportNode.location node))) = 0
  /\ isSpecifier (ImportNode.modulePath node) = true
  /\ truthy (ImportNode.name node) = true.

(** The map has a namespace node under [k]. *)
Definition namespaceEntry (k : string) (m : ModuleMap) : Prop :=
  exists v, In (k, v) m /\ ImportNode.isNamespace v = true
            /\ ImportNode.isManuallyAdded v = None.

End ScanNotions.

(* ================================================================== *)
(** ** Notions used to state which packages are installed *)
(* ================================================================== *)

Module PackageNotions.
Import JsString vscode Packages.

(** [value] is the value of the property [name] in [properties], the
    first one when the list names it twice. *)
Definition named (name : string) (properties : list (string * Json)) (value : Json)
  : Prop :=
  exists before after,
    properties = before ++ (name, value) :: after
    /\ ~ In name (map fst before).

(** A value that [if (value)] takes: any but [null], [false], [0] and the
    empty string. *)
Definition taken (value : Json) : Prop :=
  value <> JNull /\ value <> JBool false /\ value <> JNumber 0
  /\ value <> JString EmptyString.

(** The decimal numeral of [i]. *)
Definition numeral (i : nat) : string := NilZero.string_of_uint (Nat.to_uint i).

(** [key] is one of [Object.keys(value)]: the name of a property of an
    object, or the numeral of the place of an item of an array or of a
    character of a string. *)
Definition hasKey (value : Json) (key : string) : Prop :=
  match value with
  | JObject properties => exists v, In (key, v) properties
  | JArray items => exists i, i < List.length items /\ key = numeral i
  | JString s => exists i, i < String.length s /\ key = numeral i
  | _ => False
  end.

(** [p] is a key of [dependencies] or of [devDependencies] in a
    [package.json] that was read and parsed to an object. *)
Definition dependencyOf (packageJson : Outcome Json) (p : string) : Prop :=
  exists properties section value,
    packageJson = Returned (JObject properties)
    /\ (section = "dependencies" \/ section = "devDependencies")
    /\ named section properties value
    /\ taken value
    /\ hasKey value p.

End PackageNotions.

(* ================================================================== *)
(** ** Notions used to state what the page and the panel show *)
(* ================================================================== *)

Module PageNotions.
Import JsString vscode Run Activation.

(** Reading the four entities back. *)
Fixpoint readEntities (s : string) : string :=
  match s with
  | String "&" (String "a" (String "m" (String "p" (String ";" t)))) =>
      String "&" (readEntities t)
  | String "&" (String "l" (String "t" (String ";" t))) => String "<" (readEntities t)
  | String "&" (String "g" (String "t" (String ";" t))) => String ">" (readEntities t)
  | String "&" (String "q" (String "u" (String "o" (String "t" (String ";" t))))) =>
      String quot (readEntities t)
  | String c t => String c (readEntities t)
  | EmptyString => EmptyString
  end.

(** A character that cannot open or close a tag or an attribute value. *)
Definition isInert (c : ascii) : bool :=
  negb (Ascii.eqb c "<") && negb (Ascii.eqb c ">") && negb (Ascii.eqb c quot).

(** What happens to the extension once it is activated: a command is
    run, the user closes a panel, or the extension is deactivated. *)
Inductive Event : Type :=
| RunCommand (answers : Answers) (command : string) (arguments : list ExplorerNode)
| ClosePanel (id : nat)
| Deactivate.

Definition handle (ev : Event) : Act unit :=
  match ev with
  | RunCommand answers command arguments => executeCommand answers command arguments
  | ClosePanel id => fun app => (Returned tt, disposePanel id app)
  | Deactivate => fun app => (Returned tt, deactivate app)
  end.

(** The events one after the other: whether a handler threw, and the
    state at the end. *)
Fixpoint handleAll (evs : list Event) (app : App) : bool * App :=
  match evs with
  | [] => (false, app)
  | ev :: evs' =>
      let '(o, app1) := handle ev app in
      let '(threw, app2) := handleAll evs' app1 in
      (isThrown o || threw, app2)
  end.

(** The open panels are the one [docPanel] names, a documentation panel
    with scripts enabled, or none. *)
Definition tracked (app : App) : Prop :=
  match docPanel app with
  | Some id =>
      exists p, panels app = [(id, p)]
                /\ viewType p = "typeExplorerDoc" /\ enableScripts p = true
  | None => panels app = []
  end.

End PageNotions.
(* ================================================================== *)
(** ** Concrete documents, nodes and hosts *)
(* ================================================================== *)

Module Examples.
Import JsString Regex vscode Run.

(** [positionAt] for a text whose lines end with a line feed. *)
Fixpoint positionFrom (text : string) (n line col : nat) : Position.t :=
  match n, text with
  | S n', String a t =>
      if Ascii.eqb a lf then positionFrom t n' (S line) 0
      else positionFrom t n' line (S col)
  | _, _ => {| Position.line := line; Position.character := col |}
  end.

Definition documentOf (text : string) : TextDocument.t :=
  {| TextDocument.uri := Uri.parse "file:///example.ts";
     TextDocument.getText := text;
     TextDocument.positionAt := fun offset => positionFrom text (Z.to_nat offset) 0 0 |}.

(** A comparison of names for the examples: by code units. *)
Definition compareCodeUnits (a b : string) : Z :=
  match String.compare a b with Lt => (-1)%Z | Eq => 0%Z | Gt => 1%Z end.

(** A runtime whose [RegExp] constructor throws on every source that
    [Fragment] does not read. *)
Definition noOtherRegExp : string -> option RegExp := fun _ => None.

Definition emptyProvider : Provider :=
  {| memberCache := ∅; manualPackages := []; fired := 0 |}.

(** The node of [import ... from 'm'] on the first line. *)
Definition nodeM : ImportNode.t :=
  {| ImportNode.name := "X";
     ImportNode.modulePath := "m";
     ImportNode.isNamespace := false;
     ImportNode.location :=
       Location.at_ (Uri.parse "file:///example.ts")
         {| Position.line := 0; Position.character := 0 |};
     ImportNode.isManuallyAdded := None |}.

Definition defaultImportOfM : TextDocument.t := documentOf "import X from 'm'".
Definition namedImportOfM : TextDocument.t := documentOf "import { foo } from 'm'".

Definition functionItem (name : string) : CompletionItem.t :=
  {| CompletionItem.label := CompletionItem.LabelString name;
     CompletionItem.kind := Some CompletionItemKind.Function;
     CompletionItem.detail := None;
     CompletionItem.documentation := None |}.

Definition functionMember (name : string) (documentation : option string)
  : MemberNode.t :=
  {| MemberNode.name := name;
     MemberNode.detail := EmptyString;
     MemberNode.symbolKind := SymbolKind.Function;
     MemberNode.modulePath := "m";
     MemberNode.documentation := documentation |}.

(** A host that knows nothing. *)
Definition silentHost : Host :=
  {| executeCompletionItemProvider := fun _ _ _ _ => Returned None;
     executeDefinitionProvider := fun _ _ _ => Returned None;
     executeDocumentSymbolProvider := fun _ _ => Returned None;
     executeHoverProvider := fun _ _ _ => Returned None |}.

(** A host whose definition provider knows nothing at the first call, and
    then finds the module in a declaration file with one function. *)
Definition warmingHost : Host :=
  {| executeCompletionItemProvider := fun _ _ _ _ => Returned None;
     executeDefinitionProvider := fun h _ _ =>
       match h with
       | [] => Returned None
       | _ => Returned (Some [DefinitionLink.OfLocation (Uri.parse "file:///m.d.ts")])
       end;
     executeDocumentSymbolProvider := fun _ _ =>
       Returned (Some [{| DocumentSymbol.name := "f";
                          DocumentSymbol.detail := EmptyString;
                          DocumentSymbol.kind := SymbolKind.Function;
                          DocumentSymbol.selectionRange := Range.make 0 0 0 1 |}]);
     executeHoverProvider := fun _ _ _ => Returned None |}.

(** A host that completes with the function [foo] and whose hover
    provider throws. *)
Definition hoverFailsHost : Host :=
  {| executeCompletionItemProvider := fun _ _ _ _ => Returned (Some [functionItem "foo"]);
     executeDefinitionProvider := fun _ _ _ => Returned None;
     executeDocumentSymbolProvider := fun _ _ => Returned None;
     executeHoverProvider := fun _ _ _ => Thrown "hover failed" |}.

(** A host whose completion provider throws. *)
Definition completionFailsHost : Host :=
  {| executeCompletionItemProvider := fun _ _ _ _ => Thrown "completion failed";
     executeDefinitionProvider := fun _ _ _ => Returned None;
     executeDocumentSymbolProvider := fun _ _ => Returned None;
     executeHoverProvider := fun _ _ _ => Returned None |}.

(** The hover of the next host: an empty text, then the text [x]. *)
Definition twoPartHover : Hover.t :=
  {| Hover.contents := [Hover.ContentString EmptyString; Hover.ContentValue "x"] |}.

(** A host that completes with the function [foo] and hovers with
    [twoPartHover]. *)
Definition hoveringHost : Host :=
  {| executeCompletionItemProvider := fun _ _ _ _ => Returned (Some [functionItem "foo"]);
     executeDefinitionProvider := fun _ _ _ => Returned None;
     executeDocumentSymbolProvider := fun _ _ => Returned None;
     executeHoverProvider := fun _ _ _ => Returned (Some [twoPartHover]) |}.

(** A document where [foo] first occurs inside a longer word. *)
Definition longerWordFirst : TextDocument.t := documentOf "const foobar = 1; foo()".

(** A document with a string that looks like the start of an import
    declaration, before a default import of [m]. *)
Definition importInString : TextDocument.t :=
  documentOf ("const s = " +:+ String quot
                ("import z from " +:+ String quot "; import X from 'm'")).

(** A default import of [x], then a named import of [m] on the next line. *)
Definition twoImports : TextDocument.t :=
  documentOf ("import a from 'x'" +:+ String lf "import { b } from 'm'").

(** A provider that has the members of [m] in its cache. *)
Definition cachedProvider : Provider :=
  {| memberCache := {["m" := [functionMember "foo" None]]};
     manualPackages := [];
     fired := 0 |}.

End Examples.

(* ================================================================== *)
(** ** More concrete items, nodes and hosts *)
(* ================================================================== *)

Module MoreExamples.
Import JsString Regex vscode Run Examples.

(** An item that carries its documentation. *)
Definition documentedItem (kind : CompletionItemKind.t) (name documentation : string)
  : CompletionItem.t :=
  {| CompletionItem.label := CompletionItem.LabelString name;
     CompletionItem.kind := Some kind;
     CompletionItem.detail := None;
     CompletionItem.documentation := Some (CompletionItem.DocString documentation) |}.

Definition keywordItem (name : string) : CompletionItem.t :=
  {| CompletionItem.label := CompletionItem.LabelString name;
     CompletionItem.kind := Some CompletionItemKind.Keyword;
     CompletionItem.detail := None;
     CompletionItem.documentation := None |}.

(** A function, a keyword and a class, the function and the class with
    their documentation. *)
Definition documentedItems : list CompletionItem.t :=
  [documentedItem CompletionItemKind.Function "b" "the function b";
   keywordItem "if";
   documentedItem CompletionItemKind.Class "A" "the class A"].

(** The same, and the function [foo] without documentation. *)
Definition mixedItems : list CompletionItem.t :=
  documentedItems ++ [functionItem "foo"].

(** A host that completes with [documentedItems]. *)
Definition documentingHost : Host :=
  {| executeCompletionItemProvider := fun _ _ _ _ => Returned (Some documentedItems);
     executeDefinitionProvider := fun _ _ _ => Returned None;
     executeDocumentSymbolProvider := fun _ _ => Returned None;
     executeHoverProvider := fun _ _ _ => Returned None |}.

(** A host that completes with a class and then a function whose label
    holds an open parenthesis. *)
Definition oddLabelHost : Host :=
  {| executeCompletionItemProvider := fun _ _ _ _ =>
       Returned (Some [documentedItem CompletionItemKind.Class "A" "the class A";
                       functionItem "a("]);
     executeDefinitionProvider := fun _ _ _ => Returned None;
     executeDocumentSymbolProvider := fun _ _ => Returned None;
     executeHoverProvider := fun _ _ _ => Returned (Some [twoPartHover]) |}.

(** A namespace node whose name holds an open parenthesis, as
    [addPackage] makes it for such a package name. *)
Definition oddNamespaceNode : ImportNode.t :=
  {| ImportNode.name := "a(";
     ImportNode.modulePath := "a(";
     ImportNode.isNamespace := true;
     ImportNode.location :=
       {| Location.uri := Uri.parse EmptyString;
          Location.range := Range.make 0 0 0 0 |};
     ImportNode.isManuallyAdded := Some true |}.

(** A default import of [m], then a namespace import of [m] on the next
    line. *)
Definition defaultThenNamespace : TextDocument.t :=
  documentOf ("import a from 'm'" +:+ String lf "import * as b from 'm'").

(** The call of the definition provider that found nothing. *)
Definition definitionCall : HostCall :=
  {| request := DefinitionRequest (Uri.parse "file:///example.ts")
                  {| Position.line := 0; Position.character := 0 |};
     threw := false |}.

(** A host whose definition provider always finds the module in a
    declaration file with one function. *)
Definition definingHost : Host :=
  {| executeCompletionItemProvider := fun _ _ _ _ => Returned None;
     executeDefinitionProvider := fun _ _ _ =>
       Returned (Some [DefinitionLink.OfLocation (Uri.parse "file:///m.d.ts")]);
     executeDocumentSymbolProvider := fun _ _ =>
       Returned (Some [{| DocumentSymbol.name := "f";
                          DocumentSymbol.detail := EmptyString;
                          DocumentSymbol.kind := SymbolKind.Function;
                          DocumentSymbol.selectionRange := Range.make 0 0 0 1 |}]);
     executeHoverProvider := fun _ _ _ => Returned None |}.

(** The node of a default import of [x] on the first line. *)
Definition nodeX : ImportNode.t :=
  {| ImportNode.name := "a";
     ImportNode.modulePath := "x";
     ImportNode.isNamespace := false;
     ImportNode.location :=
       Location.at_ (Uri.parse "file:///example.ts")
         {| Position.line := 0; Position.character := 0 |};
     ImportNode.isManuallyAdded := None |}.

(** A default import of [x], then a named import of [m] written over
    five lines, with two blanks after [import] and after the brace list. *)
Definition importOverLines : TextDocument.t :=
  documentOf ("import a from 'x'"
              +:+ String lf ("import  {" +:+ String lf ("  b" +:+ String lf
                    ("}  from" +:+ String lf "'m'")))).

(** A named import without a blank after [import]. *)
Definition importWithoutBlank : TextDocument.t := documentOf "import{X} from 'm'".

(** A default import whose name is no word for [\w]. *)
Definition importOfDollar : TextDocument.t := documentOf "import $ from 'jquery'".

End MoreExamples.

(* ================================================================== *)
(** ** Computations: general facts *)
(* ================================================================== *)

Module RunFacts.
Import vscode Run Notions.

Lemma silent_ret {A : Type} (a : A) : silent (ret a).
Proof. intros h st. exists (Returned a). reflexivity. Qed.

Lemma silent_throw {A : Type} (e : string) : silent (@throw A e).
Proof. intros h st. exists (Thrown e). reflexivity. Qed.

Lemma silent_orThrow {A : Type} (e : string) (o : option A) : silent (orThrow e o).
Proof. destruct o; [apply silent_ret | apply silent_throw]. Qed.

Lemma silent_bind {A B : Type} (m : M A) (f : A -> M B) :
  silent m -> (forall a, silent (f a)) -> silent (bind m f).
Proof.
  intros Hm Hf h st. unfold bind.
  destruct (Hm h st) as [o ->]. destruct o as [a | e].
  - destruct (Hf a (h ++ []) st) as [o' ->]. exists o'. reflexivity.
  - exists (Thrown e). reflexivity.
Qed.

Lemma silent_run {A : Type} (m : M A) (h : list HostCall) (st : Provider) :
  silent m -> m h st = (result (m h st), st, []).
Proof. intros Hm. destruct (Hm h st) as [o ->]. reflexivity. Qed.

(** Running [bind] when the first part is silent. *)
Lemma bind_silent_run {A B : Type} (m : M A) (f : A -> M B) h st :
  silent m ->
  bind m f h st =
    match result (m h st) with
    | Returned a => f a h st
    | Thrown e => (Thrown e, st, [])
    end.
Proof.
  intros Hm. unfold bind, result. destruct (Hm h st) as [o E]. rewrite E. simpl.
  destruct o as [a | e]; [| reflexivity].
  rewrite app_nil_r. destruct (f a h st) as [[o st2] c2]. reflexivity.
Qed.

Lemma bind_get {A : Type} (f : Provider -> M A) h st :
  bind get f h st = f st h st.
Proof.
  unfold bind, get. rewrite app_nil_r.
  destruct (f st h st) as [[o st2] c2]. reflexivity.
Qed.

Lemma bind_assoc {A B C : Type} (m : M A) (f : A -> M B) (g : B -> M C) h st :
  bind (bind m f) g h st = bind m (fun a => bind (f a) g) h st.
Proof.
  unfold bind. destruct (m h st) as [[[a | e] st1] c1]; [| reflexivity].
  destruct (f a (h ++ c1) st1) as [[[b | e] st2] c2]; [| reflexivity].
  rewrite <- app_assoc.
  destruct (g b (h ++ c1 ++ c2) st2) as [[o st3] c3].
  rewrite app_assoc. reflexivity.
Qed.

End RunFacts.

(* ================================================================== *)
(** ** The matcher: how it runs on a text of a known shape *)
(* ================================================================== *)

Module RegexFacts.
Import JsString Regex MatchNotions.

Lemma clearGroups_nil c : clearGroups [] c = c.
Proof.
  unfold clearGroups. induction c as [| e c IH]; simpl; [reflexivity |].
  f_equal. exact IH.
Qed.

Lemma after_empty x : after EmptyString x (rest x) = x.
Proof. destruct x. unfold after. simpl. f_equal. lia. Qed.

Lemma after_step a w x r t :
  after w (advance a t x) r = after (String a w) x r.
Proof. unfold after, advance. simpl. f_equal. lia. Qed.

Lemma matchAt_lit s r k x c :
  rest x = s +:+ r -> matchAt (lit s) k x c = k (after s x r) c.
Proof.
  revert x. induction s as [| a s IH]; intros x Hx; simpl in *.
  - subst r. rewrite after_empty. reflexivity.
  - rewrite Hx. simpl. rewrite Ascii.eqb_refl.
    rewrite (IH (advance a (s +:+ r) x)); [| reflexivity].
    rewrite after_step. reflexivity.
Qed.

Lemma matchAt_lit_fail s k x c :
  startsWith s (rest x) = false -> matchAt (lit s) k x c = None.
Proof.
  revert x. induction s as [| a s IH]; intros x Hx; simpl in *; [discriminate |].
  destruct (rest x) as [| b t] eqn:Hr; [reflexivity |].
  rewrite (Ascii.eqb_sym b a).
  destruct (Ascii.eqb a b) eqn:Hab; simpl in *; [| reflexivity].
  apply IH. exact Hx.
Qed.

Lemma repeatGreedy_S step reset fuel k x c :
  repeatGreedy step reset (S fuel) k x c
  = match step (progress x (repeatGreedy step reset fuel k)) x (reset c) with
    | Some z => Some z
    | None => k x c
    end.
Proof. reflexivity. Qed.

Lemma matchAt_chr_in cs a t k x c :
  rest x = String a t -> inSet cs a = true ->
  matchAt (Chr cs) k x c = k (advance a t x) c.
Proof. intros Hx Ha. simpl. rewrite Hx, Ha. reflexivity. Qed.

Lemma matchAt_chr_out cs k x c :
  stops cs (rest x) = true -> matchAt (Chr cs) k x c = None.
Proof.
  intros H. simpl. destruct (rest x) as [| a t]; [reflexivity |].
  simpl in H. apply negb_true_iff in H. rewrite H. reflexivity.
Qed.

Lemma progress_advance a t x k c :
  progress x k (advance a t x) c = k (advance a t x) c.
Proof.
  unfold progress. replace (pos (advance a t x) =? pos x) with false; [reflexivity |].
  symmetry. apply Nat.eqb_neq. unfold advance. simpl. lia.
Qed.

Lemma length_append (w r : string) :
  String.length (w +:+ r) = String.length w + String.length r.
Proof. induction w as [| a w IH]; simpl; [reflexivity | rewrite IH; reflexivity]. Qed.

Lemma repeat_run cs w : forall fuel r k x c res,
  rest x = w +:+ r ->
  allChars (inSet cs) w = true ->
  stops cs r = true ->
  String.length w <= fuel ->
  k (after w x r) c = Some res ->
  repeatGreedy (matchAt (Chr cs)) (clearGroups []) fuel k x c = Some res.
Proof.
  induction w as [| a w IH]; intros fuel r k x c res Hx Hw Hr Hf Hk.
  - simpl in Hx. subst r. rewrite after_empty in Hk.
    destruct fuel as [| fuel]; [exact Hk |].
    rewrite repeatGreedy_S, matchAt_chr_out; [exact Hk | exact Hr].
  - destruct fuel as [| fuel]; [simpl in Hf; lia |].
    simpl in Hx, Hw, Hf. apply andb_true_iff in Hw as [Ha Hw].
    rewrite repeatGreedy_S, clearGroups_nil.
    rewrite (matchAt_chr_in cs a (w +:+ r)); [| exact Hx | exact Ha].
    rewrite progress_advance.
    rewrite (IH fuel r k (advance a (w +:+ r) x) c res);
      [reflexivity | reflexivity | exact Hw | exact Hr | lia |].
    rewrite after_step. exact Hk.
Qed.

Lemma matchAt_star_run cs w r k x c res :
  rest x = w +:+ r ->
  allChars (inSet cs) w = true ->
  stops cs r = true ->
  k (after w x r) c = Some res ->
  matchAt (Star (Chr cs)) k x c = Some res.
Proof.
  intros Hx Hw Hr Hk.
  change (matchAt (Star (Chr cs)) k x c)
    with (repeatGreedy (matchAt (Chr cs)) (clearGroups []) (String.length (rest x)) k x c).
  eapply repeat_run; eauto. rewrite Hx, length_append. lia.
Qed.

Lemma matchAt_plus_run cs a w r k x c res :
  rest x = String a w +:+ r ->
  allChars (inSet cs) (String a w) = true ->
  stops cs r = true ->
  k (after (String a w) x r) c = Some res ->
  matchAt (Plus (Chr cs)) k x c = Some res.
Proof.
  intros Hx Hw Hr Hk. simpl in Hx, Hw. apply andb_true_iff in Hw as [Ha Hw].
  change (matchAt (Plus (Chr cs)) k x c)
    with (matchAt (Chr cs)
            (fun y c' => repeatGreedy (matchAt (Chr cs)) (clearGroups [])
                           (String.length (rest y)) k y c')
            x (clearGroups [] c)).
  rewrite clearGroups_nil.
  rewrite (matchAt_chr_in cs a (w +:+ r)); [| exact Hx | exact Ha].
  eapply repeat_run; [reflexivity | exact Hw | exact Hr | |].
  - simpl. rewrite length_append. lia.
  - rewrite after_step. exact Hk.
Qed.

Lemma matchAt_opt_take r k x c res :
  matchAt r (progress x k) x (clearGroups (groupsOf r) c) = Some res ->
  matchAt (Opt r) k x c = Some res.
Proof. intros H. simpl. unfold progress in H. rewrite H. reflexivity. Qed.

Lemma matchAt_opt_skip r k x c :
  matchAt r (progress x k) x (clearGroups (groupsOf r) c) = None ->
  matchAt (Opt r) k x c = k x c.
Proof. intros H. simpl. unfold progress in H. rewrite H. reflexivity. Qed.

Lemma matchAt_cat r1 r2 k x c :
  matchAt (Cat r1 r2) k x c = matchAt r1 (matchAt r2 k) x c.
Proof. reflexivity. Qed.

Lemma matchAt_group n r k x c :
  matchAt (Group n r) k x c
  = matchAt r (fun y c' => k y (setGroup n (take (pos y - pos x) (rest x)) c')) x c.
Proof. reflexivity. Qed.

Lemma take_app (w r : string) : take (String.length w) (w +:+ r) = w.
Proof. induction w as [| a w IH]; simpl; [destruct r; reflexivity | rewrite IH; reflexivity]. Qed.

Lemma word_not_space a : isWordChar a = true -> isWhiteSpace a = false.
Proof.
  destruct a as [[] [] [] [] [] [] [] []]; vm_compute; intros H;
    first [reflexivity | discriminate H].
Qed.

Lemma progress_moved x k y c : pos y <> pos x -> progress x k y c = k y c.
Proof.
  intros H. unfold progress. apply Nat.eqb_neq in H. rewrite H. reflexivity.
Qed.

Ltac norm := cbv [after pos prev rest].

Lemma append_assoc (a b c : string) : (a +:+ b) +:+ c = a +:+ b +:+ c.
Proof. induction a as [| x a IH]; simpl; [reflexivity | rewrite IH; reflexivity]. Qed.

Lemma append_empty_r (a : string) : a +:+ EmptyString = a.
Proof. induction a as [| x a IH]; simpl; [reflexivity | rewrite IH; reflexivity]. Qed.

Lemma lastOr_append p w1 w2 : lastOr p (w1 +:+ w2) = lastOr (lastOr p w1) w2.
Proof. revert p. induction w1 as [| a w1 IH]; intros p; simpl; [reflexivity | apply IH]. Qed.

Lemma reaches_refl x : reaches x EmptyString x.
Proof. unfold reaches. simpl. repeat split. lia. Qed.

Lemma reaches_trans x w1 y w2 z :
  reaches x w1 y -> reaches y w2 z -> reaches x (w1 +:+ w2) z.
Proof.
  intros (H1 & H2 & H3) (H4 & H5 & H6). unfold reaches.
  rewrite append_assoc, <- H4, <- H1, length_append, lastOr_append, <- H3.
  repeat split; [lia | exact H6].
Qed.

Lemma reaches_advance x a t : rest x = String a t -> reaches x (String a EmptyString) (advance a t x).
Proof. intros H. unfold reaches, advance. simpl. rewrite H. repeat split. lia. Qed.

Section Sound.
Variable r1 : Pattern.
Hypothesis IH : forall k x c res, matchAt r1 k x c = Some res ->
  exists w y c', reaches x w y /\ lang r1 w /\ k y c' = Some res.

Lemma repeatGreedy_sound reset fuel : forall k x c res,
  repeatGreedy (matchAt r1) reset fuel k x c = Some res ->
  exists ws y c', reaches x (concatAll ws) y /\ Forall (lang r1) ws /\ k y c' = Some res.
Proof.
  induction fuel as [| fuel IHf]; intros k x c res H.
  - exists [], x, c. split; [apply reaches_refl | split; [constructor | exact H]].
  - rewrite repeatGreedy_S in H.
    destruct (matchAt r1 (progress x (repeatGreedy (matchAt r1) reset fuel k)) x (reset c))
      as [z |] eqn:E.
    + inversion H; subst z. apply IH in E as (w & y & c' & Hr & Hl & Hk).
      unfold progress in Hk. destruct (pos y =? pos x); [discriminate |].
      apply IHf in Hk as (ws & y' & c'' & Hr' & Hl' & Hk').
      exists (w :: ws), y', c''. split; [| split; [constructor; assumption | exact Hk']].
      simpl. eapply reaches_trans; eauto.
    + exists [], x, c. split; [apply reaches_refl | split; [constructor | exact H]].
Qed.
End Sound.

Theorem matchAt_sound r : forall k x c res,
  matchAt r k x c = Some res ->
  exists w y c', reaches x w y /\ lang r w /\ k y c' = Some res.
Proof.
  induction r as [| cs | r1 IH1 r2 IH2 | r1 IH1 | r1 IH1 | r1 IH1 | n r1 IH1 | | |];
    intros k x c res H.
  - exists EmptyString, x, c. split; [apply reaches_refl | split; [reflexivity | exact H]].
  - simpl in H. destruct (rest x) as [| a t] eqn:Hx; [discriminate |].
    destruct (inSet cs a) eqn:Ha; [| discriminate].
    exists (String a EmptyString), (advance a t x), c.
    split; [apply reaches_advance, Hx | split; [exists a; auto | exact H]].
  - rewrite matchAt_cat in H. apply IH1 in H as (w1 & y1 & c1 & Hr1 & Hl1 & H).
    apply IH2 in H as (w2 & y2 & c2 & Hr2 & Hl2 & H).
    exists (w1 +:+ w2), y2, c2.
    split; [eapply reaches_trans; eauto | split; [exists w1, w2; auto | exact H]].
  - apply (repeatGreedy_sound r1 IH1) in H as (ws & y & c' & Hr & Hl & Hk).
    exists (concatAll ws), y, c'. split; [exact Hr | split; [exists ws; auto | exact Hk]].
  - change (matchAt (Plus r1) k x c)
      with (matchAt r1
              (fun y c' => repeatGreedy (matchAt r1) (clearGroups (groupsOf r1))
                             (String.length (rest y)) k y c')
              x (clearGroups (groupsOf r1) c)) in H.
    apply IH1 in H as (w1 & y1 & c1 & Hr1 & Hl1 & H).
    apply (repeatGreedy_sound r1 IH1) in H as (ws & y & c' & Hr & Hl & Hk).
    exists (w1 +:+ concatAll ws), y, c'.
    split; [eapply reaches_trans; eauto | split; [exists w1, ws; auto | exact Hk]].
  - simpl in H.
    destruct (matchAt r1 (fun y c' => if pos y =? pos x then None else k y c') x
                (clearGroups (groupsOf r1) c)) as [z |] eqn:E.
    + inversion H; subst z. apply IH1 in E as (w & y & c' & Hr & Hl & Hk).
      destruct (pos y =? pos x); [discriminate |].
      exists w, y, c'. split; [exact Hr | split; [right; exact Hl | exact Hk]].
    + exists EmptyString, x, c.
      split; [apply reaches_refl | split; [left; reflexivity | exact H]].
  - rewrite matchAt_group in H. apply IH1 in H as (w & y & c' & Hr & Hl & Hk).
    eexists w, y, _. split; [exact Hr | split; [exact Hl | exact Hk]].
  - simpl in H. destruct (xorb _ _); [| discriminate].
    exists EmptyString, x, c. split; [apply reaches_refl | split; [reflexivity | exact H]].
  - simpl in H. destruct (pos x =? 0); [| discriminate].
    exists EmptyString, x, c. split; [apply reaches_refl | split; [reflexivity | exact H]].
  - simpl in H. destruct (rest x) eqn:Hx; [| discriminate].
    exists EmptyString, x, c. split; [apply reaches_refl | split; [reflexivity | exact H]].
Qed.

Lemma take_append (w r : string) : take (String.length w) (w +:+ r) = w.
Proof. induction w as [| a w IH]; simpl; [destruct r; reflexivity | rewrite IH; reflexivity]. Qed.

Lemma drop_drop (s : string) : forall i j, drop j (drop i s) = drop (i + j) s.
Proof.
  induction s as [| a s IH]; intros i j.
  - destruct i, j; reflexivity.
  - destruct i; simpl; [reflexivity | apply IH].
Qed.

Lemma drop_length_le (s : string) : forall i, String.length (drop i s) <= String.length s.
Proof.
  induction s as [| a s IH]; intros i; destruct i; simpl; try lia.
  specialize (IH i). lia.
Qed.

Lemma length_drop (s : string) : forall i,
  String.length (drop i s) = String.length s - i.
Proof.
  induction s as [| a s IH]; intros i; destruct i; simpl; try reflexivity. apply IH.
Qed.

Lemma drop_append_length (w r : string) : drop (String.length w) (w +:+ r) = r.
Proof. induction w as [| a w IH]; simpl; [reflexivity | exact IH]. Qed.

Lemma drop_nonempty (s : string) : forall i a t,
  drop i s = String a t -> i < String.length s /\ drop (S i) s = t.
Proof.
  induction s as [| b s IH]; intros i a t H.
  - destruct i; discriminate.
  - destruct i; simpl in *.
    + inversion H. split; [lia | reflexivity].
    + apply IH in H as [H1 H2]. split; [lia | exact H2].
Qed.

(** What a successful search says: where the match starts the pattern
    consumes [matched m]. *)
Lemma searchFrom_lang r : forall s i p m,
  searchFrom r i p s = Some m ->
  exists j tail,
    index m = i + j /\ j <= String.length s
    /\ drop j s = matched m +:+ tail /\ lang r (matched m).
Proof.
  induction s as [| a s IH]; intros i p m H; simpl in H.
  - destruct (matchAt r accept _ []) as [[y c] |] eqn:E; [| discriminate].
    inversion H; subst m; clear H. simpl.
    apply matchAt_sound in E as (w & y' & c' & (Hr & Hp & _) & Hl & Hk).
    inversion Hk; subst y' c'. simpl in *.
    exists 0, (rest y). replace (pos y - i) with (String.length w) by lia.
    rewrite Hr, take_append. repeat split; auto; lia.
  - destruct (matchAt r accept _ []) as [[y c] |] eqn:E.
    + inversion H; subst m; clear H. simpl.
      apply matchAt_sound in E as (w & y' & c' & (Hr & Hp & _) & Hl & Hk).
      inversion Hk; subst y' c'. simpl in *.
      exists 0, (rest y). replace (pos y - i) with (String.length w) by lia.
      rewrite Hr, take_append. repeat split; auto; lia.
    + apply IH in H as (j & tail & Hi & Hj & Hd & Hl).
      exists (S j), tail. simpl. repeat split; auto; lia.
Qed.

Lemma compile_lang r text lastIndex m :
  compile r text lastIndex = Some m ->
  lastIndex <= index m /\ index m <= String.length text
  /\ exists tail, drop (index m) text = matched m +:+ tail /\ lang r (matched m).
Proof.
  unfold compile. destruct (String.length text <? lastIndex) eqn:E; [discriminate |].
  apply Nat.ltb_ge in E. intros H.
  apply searchFrom_lang in H as (j & tail & Hi & Hj & Hd & Hl).
  rewrite drop_drop in Hd. rewrite <- Hi in Hd.
  rewrite length_drop in Hj.
  split; [lia |]. split; [lia | exists tail; auto].
Qed.

Lemma lang_lit s w : lang (lit s) w -> w = s.
Proof.
  revert w. induction s as [| a s IH]; intros w H; simpl in H; [exact H |].
  destruct H as (w1 & w2 & -> & (b & -> & Hb) & H2).
  apply Ascii.eqb_eq in Hb. subst b. rewrite (IH _ H2). reflexivity.
Qed.

Lemma allChars_append p (u v : string) :
  allChars p (u +:+ v) = allChars p u && allChars p v.
Proof.
  induction u as [| a u IH]; simpl; [reflexivity |].
  rewrite IH. apply andb_assoc.
Qed.

Lemma lang_chars cs ws :
  Forall (lang (Chr cs)) ws -> allChars (inSet cs) (concatAll ws) = true.
Proof.
  induction 1 as [| w ws (a & -> & Ha) _ IH]; simpl; [reflexivity |].
  rewrite Ha, IH. reflexivity.
Qed.

Lemma lang_star_chr cs w : lang (Star (Chr cs)) w -> allChars (inSet cs) w = true.
Proof. intros (ws & -> & H). apply lang_chars, H. Qed.

Lemma lang_plus_chr cs w :
  lang (Plus (Chr cs)) w -> allChars (inSet cs) w = true /\ w <> EmptyString.
Proof.
  intros (w1 & ws & -> & (a & -> & Ha) & H). simpl. rewrite Ha.
  split; [apply lang_chars, H | discriminate].
Qed.

End RegexFacts.

(* ================================================================== *)
(** ** The scanner: the map of modules *)
(* ================================================================== *)

Module ScannerFacts.
Import JsString Regex vscode.
Import Scanner MatchNotions.

Lemma has_In k m : has k m = true <-> In k (map fst m).
Proof.
  unfold has. rewrite existsb_exists, in_map_iff. split.
  - intros (e & He & Hk). apply String.eqb_eq in Hk. eauto.
  - intros (e & Hk & He). exists e. split; [exact He |]. apply String.eqb_eq. exact Hk.
Qed.

Lemma set_keys k v m :
  map fst (set k v m) = if has k m then map fst m else map fst m ++ [k].
Proof.
  induction m as [| [k' v'] m IH]; simpl; [reflexivity |].
  destruct (String.eqb k' k) eqn:E; simpl.
  - apply String.eqb_eq in E. subst k'. reflexivity.
  - rewrite IH. fold (has k m). destruct (has k m); reflexivity.
Qed.

Lemma set_values k v m :
  ImportNode.modulePath v = k ->
  Forall (fun e => ImportNode.modulePath (snd e) = fst e) m ->
  Forall (fun e => ImportNode.modulePath (snd e) = fst e) (set k v m).
Proof.
  intros Hv. induction 1 as [| [k' v'] m He Hm IH]; simpl.
  - repeat constructor. exact Hv.
  - destruct (String.eqb k' k); constructor; auto.
Qed.

Lemma set_wellKeyed k v m :
  ImportNode.modulePath v = k -> wellKeyed m -> wellKeyed (set k v m).
Proof.
  intros Hv [Hn Hf]. split; [| apply set_values; assumption].
  rewrite set_keys. destruct (has k m) eqn:E; [exact Hn |].
  apply NoDup_app. repeat split; [exact Hn | | apply NoDup_singleton].
  intros x Hx Hx'. apply list_elem_of_In in Hx. apply list_elem_of_singleton in Hx'. subst x.
  apply has_In in Hx. congruence.
Qed.

Lemma set_has k v m : has k (set k v m) = true.
Proof.
  apply has_In. rewrite set_keys. destruct (has k m) eqn:E.
  - apply has_In. exact E.
  - apply in_or_app. right. left. reflexivity.
Qed.

Lemma set_has_other k k' v m : has k m = true -> has k (set k' v m) = true.
Proof.
  intros H. apply has_In. rewrite set_keys. apply has_In in H.
  destruct (has k' m); [exact H | apply in_or_app; left; exact H].
Qed.

Section Steps.
Variable document : TextDocument.t.

Lemma addStandard_wellKeyed m r : wellKeyed m -> wellKeyed (addStandard document m r).
Proof.
  intros H. unfold addStandard. destruct (has _ m); [exact H |].
  apply set_wellKeyed; [reflexivity | exact H].
Qed.

Lemma addNamespace_wellKeyed m r : wellKeyed m -> wellKeyed (addNamespace document m r).
Proof. intros H. apply set_wellKeyed; [reflexivity | exact H]. Qed.

Lemma addType_wellKeyed m r : wellKeyed m -> wellKeyed (addType document m r).
Proof.
  intros H. unfold addType. destruct (has _ m); [exact H |].
  apply set_wellKeyed; [reflexivity | exact H].
Qed.

Lemma addManual_wellKeyed m p : wellKeyed m -> wellKeyed (addManual m p).
Proof.
  intros H. unfold addManual. destruct (has _ m); [exact H |].
  apply set_wellKeyed; [reflexivity | exact H].
Qed.

Lemma fold_wellKeyed {A : Type} (f : ModuleMap -> A -> ModuleMap) (l : list A) m :
  (forall m a, wellKeyed m -> wellKeyed (f m a)) ->
  wellKeyed m -> wellKeyed (fold_left f l m).
Proof.
  intros Hf. revert m. induction l as [| a l IH]; intros m H; simpl; [exact H |].
  apply IH, Hf, H.
Qed.

Lemma scan_wellKeyed manualPackages : wellKeyed (scan document manualPackages).
Proof.
  unfold scan.
  apply fold_wellKeyed; [apply addManual_wellKeyed |].
  apply fold_wellKeyed; [apply addType_wellKeyed |].
  apply fold_wellKeyed; [apply addNamespace_wellKeyed |].
  apply fold_wellKeyed; [apply addStandard_wellKeyed |].
  split; constructor.
Qed.

End Steps.

Lemma wellKeyed_values m :
  wellKeyed m -> map ImportNode.modulePath (values m) = map fst m.
Proof.
  intros [_ Hf]. unfold values. rewrite map_map.
  induction Hf as [| e m He _ IH]; simpl; [reflexivity |].
  rewrite He, IH. reflexivity.
Qed.

End ScannerFacts.

(* ================================================================== *)
(** ** The resolver, case by case *)
(* ================================================================== *)

Module ResolverFacts.
Import JsString Regex vscode Run Resolver Notions RunFacts.

Section Runtime.
Variable regExpOther : string -> option RegExp.
Variable localeCompare : string -> string -> Z.
Variable host : Host.

Lemma silent_newRegExp before s after source :
  silent (newRegExp regExpOther before s after source).
Proof. apply silent_orThrow. Qed.

Lemma silent_getAlreadyImportedNames text modulePath :
  silent (getAlreadyImportedNames regExpOther text modulePath).
Proof.
  unfold getAlreadyImportedNames.
  apply silent_bind; [apply silent_newRegExp | intros importRegex].
  apply silent_bind; [apply silent_newRegExp | intros defaultRegex].
  destruct (exec defaultRegex text); [| apply silent_ret].
  destruct (_ && _); apply silent_ret.
Qed.

Lemma silent_completionTarget importNode document :
  silent (completionTarget regExpOther importNode document).
Proof.
  unfold completionTarget. destruct (ImportNode.isNamespace importNode).
  - apply silent_bind; [apply silent_newRegExp | intros re].
    destruct (exec re _); apply silent_ret.
  - apply silent_bind; [apply silent_newRegExp | intros re].
    destruct (exec re _); apply silent_ret.
Qed.


Lemma strict_ret {A : Type} (a : A) : strict (ret a).
Proof. intros h st a' st' cs E. inversion E. constructor. Qed.

Lemma strict_call {A : Type} req (answer : list HostCall -> Outcome A) :
  strict (call req answer).
Proof.
  intros h st a st' cs E. unfold call in E. inversion E as [[Ho Hst Hcs]].
  rewrite Ho. repeat constructor.
Qed.

Lemma strict_bind {A B : Type} (m : M A) (f : A -> M B) :
  strict m -> (forall a, strict (f a)) -> strict (bind m f).
Proof.
  intros Hm Hf h st b st' cs E. unfold bind in E.
  destruct (m h st) as [[o st1] c1] eqn:Em. destruct o as [a | e]; [| discriminate].
  destruct (f a (h ++ c1) st1) as [[o2 st2] c2] eqn:Ef.
  inversion E; subst. apply Forall_app. split.
  - eapply Hm; eauto.
  - eapply Hf; eauto.
Qed.

Lemma strict_modify f : strict (modify f).
Proof. intros h st a st' cs E. inversion E. constructor. Qed.



Lemma strict_hover u p : strict (hover host u p).
Proof. apply strict_call. Qed.

Lemma symbolMembers_run defUri modulePath symbols h st :
  exists o cs,
    symbolMembers host defUri modulePath symbols h st = (o, st, cs)
    /\ Forall (fun c => isHoverRequest (request c) = true) cs
    /\ match o with
       | Returned ms => length ms = length symbols /\ Forall (fun c => threw c = false) cs
       | Thrown _ => True
       end.
Proof.
  revert h. induction symbols as [| symbol symbols IH]; intros h.
  - exists (Returned []), []. simpl. repeat split; constructor.
  - simpl. unfold bind at 1. unfold hover at 1, call.
    destruct (executeHoverProvider host h defUri _) as [hovers | e] eqn:Eh; simpl.
    + unfold bind at 1.
      destruct (IH (h ++ [{| request := HoverRequest defUri (Range.start (DocumentSymbol.selectionRange symbol)); threw := false |}]))
        as (o & cs & E & Hcs & Ho).
      rewrite E. destruct o as [ms | e]; simpl.
      * eexists _, _. split; [reflexivity |]. rewrite app_nil_r. split.
        -- constructor; [reflexivity | exact Hcs].
        -- destruct Ho as [Hl Hf]. split; [simpl; congruence |].
           constructor; [reflexivity | exact Hf].
      * eexists _, _. split; [reflexivity |]. split; [| exact I].
        constructor; [reflexivity | exact Hcs].
    + eexists _, _. split; [reflexivity |]. split; [| exact I].
      repeat constructor.
Qed.

Lemma getExportsViaDefinition_run importNode document h st :
  exists ms st' b cs,
    getExportsViaDefinition host importNode document h st
    = (Returned ms, st',
       {| request := DefinitionRequest (TextDocument.uri document)
                       (Range.start (Location.range (ImportNode.location importNode)));
          threw := b |} :: cs)
    /\ Forall (fun c => isDefinitionRequest (request c) = false) cs
    /\ ((ms = [] /\ st' = st)
        \/ (exists m ms', ms = m :: ms'
              /\ st' = withCache (ImportNode.modulePath importNode) ms st
              /\ b = false /\ Forall (fun c => threw c = false) cs)).
Proof.
  Local Opaque symbolMembers.
  unfold getExportsViaDefinition, tryCatch. unfold bind at 1. unfold call at 1.
  destruct (executeDefinitionProvider host h _ _) as [definitions | e] eqn:Ed; simpl.
  2: { eexists _, _, _, _. split; [reflexivity |]. split; [constructor | left; auto]. }
  destruct definitions as [[| def defs] |]; simpl.
  1, 3: eexists _, _, _, _; (split; [reflexivity |]); (split; [constructor | left; auto]).
  set (defUri := match def with
                 | DefinitionLink.OfLocation uri => uri
                 | DefinitionLink.OfLink targetUri => targetUri end).
  destruct (Uri.eqb defUri (TextDocument.uri document)); simpl.
  { eexists _, _, _, _. split; [reflexivity |]. split; [constructor | left; auto]. }
  unfold bind at 1. unfold call at 1.
  destruct (executeDocumentSymbolProvider host _ defUri) as [symbols | e] eqn:Es; simpl.
  2: { eexists _, _, _, _. split; [reflexivity |]. split; [repeat constructor | left; auto]. }
  destruct symbols as [[| symbol symbols] |]; simpl.
  1, 3: eexists _, _, _, _; (split; [reflexivity |]); (split; [repeat constructor | left; auto]).
  unfold bind at 1.
  match goal with |- context [symbolMembers host defUri ?mp ?ss ?h' st] =>
    destruct (symbolMembers_run defUri mp ss h' st) as (o & cs & E & Hcs & Ho) end.
  cbv zeta in E. rewrite E. destruct o as [ms | e]; simpl.
  - eexists _, _, _, _. split; [reflexivity |]. rewrite !app_nil_r. split.
    + constructor; [reflexivity |].
      eapply Forall_impl; [exact Hcs |]. intros c Hc. simpl in Hc.
      destruct (request c); simpl in *; congruence.
    + right. destruct Ho as [Hl Hf]. destruct ms as [| m ms']; [simpl in Hl; discriminate |].
      exists m, ms'. repeat split; auto.
  - eexists _, _, _, _. split; [reflexivity |]. rewrite !app_nil_r. split; [| left; auto].
    constructor; [reflexivity |].
    eapply Forall_impl; [exact Hcs |]. intros c Hc. simpl in Hc.
    destruct (request c); simpl in *; congruence.
  Local Transparent symbolMembers.
Qed.



Lemma getDocumentationForImportedName_run name document h st :
  getDocumentationForImportedName regExpOther host name document h st
  = (fst (documentationLookup regExpOther host name document h), st,
     snd (documentationLookup regExpOther host name document h)).
Proof.
  unfold getDocumentationForImportedName, documentationLookup, newRegExp.
  destruct (Fragment.newRegExp _ _ _ _ _) as [re |]; [| reflexivity].
  unfold bind, orThrow, ret. simpl.
  destruct (exec re _) as [m |]; [| reflexivity].
  unfold tryCatch, bind, hover, call. rewrite app_nil_r.
  destruct (executeHoverProvider host h _ _) as [[[| x xs] |] | e]; reflexivity.
Qed.

Lemma documentationLookup_calls name document h :
  Forall (fun c => isHoverRequest (request c) = true)
    (snd (documentationLookup regExpOther host name document h)).
Proof.
  unfold documentationLookup.
  destruct (Fragment.newRegExp _ _ _ _ _) as [re |]; [| constructor].
  destruct (exec re _) as [m |]; repeat constructor.
Qed.

Lemma processCompletionItems_run items modulePath document h st :
  exists o cs,
    processCompletionItems regExpOther host items modulePath document h st = (o, st, cs)
    /\ Forall (fun c => isHoverRequest (request c) = true) cs.
Proof.
  revert h. induction items as [| item items IH]; intros h.
  - exists (Returned []), []. split; [reflexivity | constructor].
  - simpl. destruct (isNonExport _); [apply IH |].
    unfold bind at 1.
    assert (Hdoc : exists o cs,
      match ownDocumentation item with
      | Some d => ret (Some d)
      | None => getDocumentationForImportedName regExpOther host (labelOf item) document
      end h st = (o, st, cs)
      /\ Forall (fun c => isHoverRequest (request c) = true) cs).
    { destruct (ownDocumentation item).
      - eexists _, _. split; [reflexivity | constructor].
      - rewrite getDocumentationForImportedName_run. eexists _, _.
        split; [reflexivity | apply documentationLookup_calls]. }
    destruct Hdoc as (o & cs & E & Hcs). rewrite E.
    destruct o as [doc | e].
    + unfold bind at 1. destruct (IH (h ++ cs)) as (o2 & cs2 & E2 & Hcs2). rewrite E2.
      destruct o2 as [ms | e]; simpl; eexists _, _; (split; [reflexivity |]);
        rewrite ?app_nil_r; apply Forall_app; auto.
    + eexists _, _. split; [reflexivity | exact Hcs].
Qed.

Lemma addAlreadyImported_run names modulePath document members h st :
  exists o cs,
    addAlreadyImported regExpOther host names modulePath document members h st
    = (o, st, cs)
    /\ Forall (fun c => isHoverRequest (request c) = true) cs.
Proof.
  revert members h. induction names as [| name names IH]; intros members h.
  - exists (Returned members), []. split; [reflexivity | constructor].
  - simpl. destruct (existsb _ members); [apply IH |].
    unfold bind at 1. rewrite getDocumentationForImportedName_run.
    destruct (documentationLookup regExpOther host name document h) as [o cs] eqn:E. simpl.
    assert (Hcs : Forall (fun c => isHoverRequest (request c) = true) cs).
    { pose proof (documentationLookup_calls name document h) as H. rewrite E in H. exact H. }
    destruct o as [doc | e].
    + match goal with |- context [addAlreadyImported _ _ names _ _ ?ms ?h' st] =>
        destruct (IH ms h') as (o2 & cs2 & E2 & Hcs2) end.
      rewrite E2. eexists _, _. split; [reflexivity |]. apply Forall_app; auto.
    + eexists _, _. split; [reflexivity | exact Hcs].
Qed.



Lemma fromCompletions_run names items modulePath document h st :
  exists o cs,
    fromCompletions regExpOther host names items modulePath document h st = (o, st, cs)
    /\ Forall (fun c => isHoverRequest (request c) = true) cs.
Proof.
  unfold fromCompletions, bind.
  destruct (processCompletionItems_run items modulePath document h st)
    as (o & cs & E & Hcs).
  rewrite E. destruct o as [ms | e].
  - destruct (addAlreadyImported_run names modulePath document ms (h ++ cs) st)
      as (o2 & cs2 & E2 & Hcs2).
    rewrite E2. eexists _, _. split; [reflexivity | apply Forall_app; auto].
  - eexists _, _. split; [reflexivity | exact Hcs].
Qed.

Lemma getModuleExports_hit editor importNode h st members :
  memberCache st !! ImportNode.modulePath importNode = Some members ->
  getModuleExports regExpOther localeCompare host editor importNode h st
  = (Returned members, st, []).
Proof.
  intros Hc. unfold getModuleExports. rewrite bind_get, Hc. reflexivity.
Qed.

Lemma getModuleExports_no_editor importNode h st :
  memberCache st !! ImportNode.modulePath importNode = None ->
  getModuleExports regExpOther localeCompare host None importNode h st
  = (Returned [], st, []).
Proof.
  intros Hc. unfold getModuleExports. rewrite bind_get, Hc. reflexivity.
Qed.

(** [getModuleExports] when the module path is not in the cache and an
    editor is active, case by case. *)
Lemma getModuleExports_miss document importNode h st :
  memberCache st !! ImportNode.modulePath importNode = None ->
  let modulePath := ImportNode.modulePath importNode in
  let docUri := TextDocument.uri document in
  getModuleExports regExpOther localeCompare host (Some document) importNode h st
  = match result (getAlreadyImportedNames regExpOther
                    (TextDocument.getText document) modulePath h st) with
    | Thrown _ => (Returned [], st, [])
    | Returned alreadyImported =>
        match result (completionTarget regExpOther importNode document h st) with
        | Thrown _ => (Returned [], st, [])
        | Returned None => getExportsViaDefinition host importNode document h st
        | Returned (Some (position, triggerChar)) =>
            let o := executeCompletionItemProvider host h docUri position triggerChar in
            let c := {| request := CompletionItemRequest docUri position triggerChar;
                        threw := isThrown o |} in
            match o with
            | Thrown _ => (Returned [], st, [c])
            | Returned (Some ((_ :: _) as items)) =>
                match fromCompletions regExpOther host alreadyImported items modulePath document
                        (h ++ [c]) st with
                | (Returned members, _, cs) =>
                    (Returned (sortMembers localeCompare members),
                     withCache modulePath (sortMembers localeCompare members) st,
                     c :: cs)
                | (Thrown _, _, cs) => (Returned [], st, c :: cs)
                end
            | Returned _ =>
                after_ c (getExportsViaDefinition host importNode document (h ++ [c]) st)
            end
        end
    end.
Proof.
  Local Opaque processCompletionItems addAlreadyImported.
  intros Hc. cbv zeta.
  unfold getModuleExports. rewrite bind_get.
  rewrite Hc. unfold tryCatch.
  rewrite (bind_silent_run _ _ _ _ (silent_getAlreadyImportedNames _ _)).
  destruct (result (getAlreadyImportedNames _ _ _ _ _)) as [names | e]; [| reflexivity].
  rewrite (bind_silent_run _ _ _ _ (silent_completionTarget _ _)).
  destruct (result (completionTarget _ _ _ _ _)) as [[[position triggerChar] |] | e];
    [| | reflexivity].
  - unfold bind at 1. unfold call at 1.
    set (docUri := TextDocument.uri document).
    set (modulePath := ImportNode.modulePath importNode).
    destruct (executeCompletionItemProvider host h docUri position triggerChar)
      as [[[| item items] |] | e] eqn:Eo; simpl.
    + destruct (getExportsViaDefinition_run importNode document
                  (h ++ [{| request := CompletionItemRequest docUri position triggerChar;
                            threw := false |}]) st)
        as (ms & st' & b & cs & E & _). rewrite E. reflexivity.
    + rewrite <- (bind_assoc
                      (processCompletionItems regExpOther host (item :: items)
                         modulePath document)
                      (fun ms => addAlreadyImported regExpOther host names
                                   modulePath document ms)).
      fold (fromCompletions regExpOther host names (item :: items) modulePath document).
      match goal with |- context [fromCompletions _ _ _ _ _ _ ?h' st] =>
        destruct (fromCompletions_run names (item :: items) modulePath document h' st)
          as (o & cs & E & _) end.
      unfold bind at 1. rewrite E.
      destruct o as [ms | e]; simpl; rewrite ?app_nil_r; reflexivity.
    + destruct (getExportsViaDefinition_run importNode document
                  (h ++ [{| request := CompletionItemRequest docUri position triggerChar;
                            threw := false |}]) st)
        as (ms & st' & b & cs & E & _). rewrite E. reflexivity.
    + reflexivity.
  - destruct (getExportsViaDefinition_run importNode document h st)
      as (ms & st' & b & cs & E & _). rewrite E. reflexivity.
  Local Transparent processCompletionItems addAlreadyImported.
Qed.

End Runtime.
End ResolverFacts.

(* ================================================================== *)
(** ** The documentation page: escaping *)
(* ================================================================== *)

Module ExtensionFacts.
Import JsString.
Import Extension Spec RegexFacts.

Lemma replaceAll_append c r u v :
  replaceAll c r (u +:+ v) = replaceAll c r u +:+ replaceAll c r v.
Proof.
  unfold replaceAll. induction u as [| a u IH]; simpl; [reflexivity |].
  destruct (Ascii.eqb a c); rewrite IH; [| reflexivity].
  rewrite append_assoc. reflexivity.
Qed.

Lemma replaceAll_cons c r a t :
  replaceAll c r (String a t)
  = (if Ascii.eqb a c then r else String a EmptyString) +:+ replaceAll c r t.
Proof. unfold replaceAll. simpl. destruct (Ascii.eqb a c); reflexivity. Qed.

(** The four replacements of [escapeHtml] one after the other give each
    character its entity. *)
Lemma escapeHtml_withEntities s : escapeHtml s = withEntities s.
Proof.
  unfold escapeHtml. induction s as [| a s IH]; [reflexivity |].
  simpl withEntities. rewrite <- IH.
  rewrite (replaceAll_cons "&"). rewrite !replaceAll_append.
  f_equal. unfold entity.
  destruct (Ascii.eqb a "&") eqn:E1; [reflexivity |].
  destruct (Ascii.eqb a "<") eqn:E2;
    [apply Ascii.eqb_eq in E2; subst a; reflexivity |].
  destruct (Ascii.eqb a ">") eqn:E3;
    [apply Ascii.eqb_eq in E3; subst a; reflexivity |].
  destruct (Ascii.eqb a quot) eqn:E4;
    [apply Ascii.eqb_eq in E4; subst a; reflexivity |].
  unfold replaceAll. simpl. rewrite E2. simpl. rewrite E3. simpl. rewrite E4.
  reflexivity.
Qed.

Lemma truthy_withEntities s : truthy (withEntities s) = truthy s.
Proof.
  destruct s as [| a s]; [reflexivity |]. simpl. unfold entity.
  destruct (Ascii.eqb a "&"); [reflexivity |].
  destruct (Ascii.eqb a "<"); [reflexivity |].
  destruct (Ascii.eqb a ">"); [reflexivity |].
  destruct (Ascii.eqb a quot); reflexivity.
Qed.

Lemma jsonChar_plain c : isPlainJson c = true -> jsonChar c = String c EmptyString.
Proof.
  destruct c as [[] [] [] [] [] [] [] []]; vm_compute; intros H;
    first [reflexivity | discriminate H].
Qed.

Lemma jsonChars_plain s : allChars isPlainJson s = true -> jsonChars s = s.
Proof.
  induction s as [| a s IH]; simpl; [reflexivity |].
  intros H. apply andb_true_iff in H as [Ha Hs].
  rewrite (jsonChar_plain a Ha), (IH Hs). reflexivity.
Qed.

(** Reading back what [JSON.stringify] writes for one character. *)
Lemma readJsonChars_jsonChar c rest :
  readJsonChars (jsonChar c +:+ rest)
  = match readJsonChars rest with Some r => Some (String c r) | None => None end.
Proof.
  destruct c as [[] [] [] [] [] [] [] []]; reflexivity.
Qed.

Lemma readJsonChars_jsonChars s :
  readJsonChars (jsonChars s +:+ String quot EmptyString) = Some s.
Proof.
  induction s as [| c s IH]; [reflexivity |].
  simpl jsonChars. rewrite append_assoc, readJsonChars_jsonChar, IH. reflexivity.
Qed.

(** What [JSON.stringify] writes for a string is a JSON string literal
    that stands for the string. *)
Lemma readJsonString_stringify s : readJsonString (JSON_stringify s) = Some s.
Proof.
  unfold JSON_stringify, readJsonString. rewrite Ascii.eqb_refl.
  apply readJsonChars_jsonChars.
Qed.

End ExtensionFacts.

(* ================================================================== *)
(** ** The resolver: what a call leaves and what it asks *)
(* ================================================================== *)

Module ResolverCalls.
Import JsString Regex vscode Run Resolver Notions RunFacts ResolverFacts.

Section Runtime.
Variable regExpOther : string -> option RegExp.
Variable localeCompare : string -> string -> Z.
Variable host : Host.

Abbreviation getModuleExports := (Resolver.getModuleExports regExpOther localeCompare host).

(** What a call of [getModuleExports] leaves in the cache for its module
    path is what it returned; and a list that is not empty is always left
    there. *)
Lemma getModuleExports_cache editor importNode h st :
  let r := getModuleExports editor importNode h st in
  exists members,
    result r = Returned members
    /\ manualPackages (stateAfter r) = manualPackages st
    /\ fired (stateAfter r) = fired st
    /\ ((stateAfter r = st /\ (members = [] \/ memberCache st !! ImportNode.modulePath importNode = Some members))
        \/ stateAfter r = withCache (ImportNode.modulePath importNode) members st).
Proof.
  cbv zeta.
  destruct (memberCache st !! ImportNode.modulePath importNode) as [ms |] eqn:Hc.
  { rewrite (getModuleExports_hit _ _ _ _ _ _ _ ms Hc). exists ms. simpl. auto 10. }
  destruct editor as [document |].
  2: { rewrite (getModuleExports_no_editor _ _ _ _ _ _ Hc). exists []. simpl. auto 10. }
  rewrite (getModuleExports_miss _ _ _ _ _ _ _ Hc).
  assert (Hf : forall h',
    exists members,
      result (getExportsViaDefinition host importNode document h' st) = Returned members
      /\ manualPackages (stateAfter (getExportsViaDefinition host importNode document h' st)) = manualPackages st
      /\ fired (stateAfter (getExportsViaDefinition host importNode document h' st)) = fired st
      /\ ((stateAfter (getExportsViaDefinition host importNode document h' st) = st /\ members = [])
          \/ stateAfter (getExportsViaDefinition host importNode document h' st)
             = withCache (ImportNode.modulePath importNode) members st)).
  { intros h'. destruct (getExportsViaDefinition_run host importNode document h' st)
      as (ms & st' & b & cs & E & _ & [[Hms Hst] | (m & ms' & Hms & Hst & _)]);
      rewrite E, Hst; eexists; simpl; auto 10. }
  destruct (result (getAlreadyImportedNames _ _ _ _ _)) as [names | e].
  2: { exists []. simpl. auto 10. }
  destruct (result (completionTarget _ _ _ _ _)) as [[[position triggerChar] |] | e].
  3: { exists []. simpl. auto 10. }
  2: { destruct (Hf h) as (ms & H1 & H2 & H3 & H4). exists ms.
       repeat split; auto. destruct H4 as [[H4 H5] | H4]; auto. }
  cbv zeta.
  assert (Hg : forall c h',
    let x := after_ c (getExportsViaDefinition host importNode document h' st) in
    exists members,
      result x = Returned members
      /\ manualPackages (stateAfter x) = manualPackages st
      /\ fired (stateAfter x) = fired st
      /\ ((stateAfter x = st
           /\ (members = [] \/ None = Some members))
          \/ stateAfter x = withCache (ImportNode.modulePath importNode) members st)).
  { intros c h'. destruct (Hf h') as (ms & H1 & H2 & H3 & H4).
    simpl. exists ms. repeat split; auto. destruct H4 as [[H4 H5] | H4]; auto. }
  cbv zeta in Hg.
  destruct (executeCompletionItemProvider host h _ position triggerChar)
    as [[[| item items] |] | e] eqn:Eo; cbv beta iota zeta.
  - apply Hg.
  - match goal with |- context [fromCompletions _ _ ?n ?i ?m ?d ?h' st] =>
      destruct (fromCompletions_run regExpOther host n i m d h' st) as (o & cs & E & _) end.
    rewrite E. destruct o as [ms | e]; eexists; simpl; auto 10.
  - apply Hg.
  - exists []. simpl. auto 10.
Qed.


Lemma getExportsViaDefinition_threw importNode document h st c :
  let r := getExportsViaDefinition host importNode document h st in
  In c (calls r) -> threw c = true -> result r = Returned [].
Proof.
  cbv zeta.
  destruct (getExportsViaDefinition_run host importNode document h st)
    as (ms & st' & b & cs & E & _ & [[Hms Hst] | (m & ms' & Hms & Hst & Hb & Hcs)]);
    rewrite E; unfold result, calls; simpl.
  - intros _ _. rewrite Hms. reflexivity.
  - intros [Hc | Hc] Ht.
    + subst c. simpl in Ht. congruence.
    + rewrite Forall_forall in Hcs. apply list_elem_of_In in Hc.
      rewrite (Hcs c Hc) in Ht. discriminate.
Qed.

Lemma hover_calls_no_definition (cs : list HostCall) :
  Forall (fun c => isHoverRequest (request c) = true) cs ->
  existsb (fun d => isDefinitionRequest (request d)) cs = false.
Proof.
  induction 1 as [| c cs Hc _ IH]; simpl; [reflexivity |].
  rewrite IH. destruct (request c); simpl in *; congruence.
Qed.

Lemma getExportsViaDefinition_calls importNode document h st :
  exists b cs,
    calls (getExportsViaDefinition host importNode document h st)
    = {| request := DefinitionRequest (TextDocument.uri document)
                      (Range.start (Location.range (ImportNode.location importNode)));
         threw := b |} :: cs
    /\ (cs = []
        \/ exists defUri b' hovers,
             cs = {| request := DocumentSymbolRequest defUri; threw := b' |} :: hovers
             /\ Forall (fun c => isHoverRequest (request c) = true) hovers).
Proof.
  Local Opaque symbolMembers.
  unfold getExportsViaDefinition, tryCatch. unfold bind at 1. unfold call at 1.
  destruct (executeDefinitionProvider host h _ _) as [definitions | e] eqn:Ed; simpl.
  2: { eexists _, _. split; [reflexivity | left; reflexivity]. }
  destruct definitions as [[| def defs] |]; simpl.
  1, 3: eexists _, _; (split; [reflexivity | left; reflexivity]).
  set (defUri := match def with
                 | DefinitionLink.OfLocation uri => uri
                 | DefinitionLink.OfLink targetUri => targetUri end).
  destruct (Uri.eqb defUri (TextDocument.uri document)); simpl.
  { eexists _, _. split; [reflexivity | left; reflexivity]. }
  unfold bind at 1. unfold call at 1.
  destruct (executeDocumentSymbolProvider host _ defUri) as [symbols | e] eqn:Es; simpl.
  2: { eexists _, _. split; [reflexivity |]. right. eexists _, _, _.
       split; [reflexivity | constructor]. }
  destruct symbols as [[| symbol symbols] |]; simpl.
  1, 3: eexists _, _; (split; [reflexivity |]); right; eexists _, _, _;
        (split; [reflexivity | constructor]).
  unfold bind at 1.
  match goal with |- context [symbolMembers host defUri ?mp ?ss ?h' st] =>
    destruct (symbolMembers_run host defUri mp ss h' st) as (o & cs & E & Hcs & Ho) end.
  cbv zeta in E. rewrite E. destruct o as [ms | e]; simpl;
    eexists _, _; (split; [reflexivity |]); right; eexists _, _, _;
    (split; [reflexivity |]); rewrite ?app_nil_r; exact Hcs.
  Local Transparent symbolMembers.
Qed.

End Runtime.
End ResolverCalls.

(* ================================================================== *)
(** ** The patterns built at run time and the place of the completion *)
(* ================================================================== *)

Module TargetFacts.
Import JsString Regex MatchNotions RegexFacts vscode Run Resolver Notions RunFacts ResolverFacts.

Lemma syntax_sets a : memChar a escapedChars = Fragment.isSyntaxChar a.
Proof. destruct a as [[] [] [] [] [] [] [] []]; reflexivity. Qed.

Lemma syntax_backslash a : Ascii.eqb a backslash = true -> Fragment.isSyntaxChar a = true.
Proof. intros H. apply Ascii.eqb_eq in H. subst a. reflexivity. Qed.

Lemma plain_char a :
  Fragment.isSyntaxChar a = false ->
  Ascii.eqb a backslash = false /\ Ascii.eqb a "." = false
  /\ Ascii.eqb a "^" = false /\ Ascii.eqb a "$" = false.
Proof.
  destruct a as [[] [] [] [] [] [] [] []]; vm_compute; intros H;
    first [discriminate H | repeat split].
Qed.

Lemma parse_plain a t :
  Fragment.isSyntaxChar a = false ->
  Fragment.parse (String a t) = Cat (Chr (Lit a)) <$> Fragment.parse t.
Proof.
  intros H. destruct (plain_char a H) as (H1 & H2 & H3 & H4).
  simpl. rewrite H1, H2, H3, H4, H. reflexivity.
Qed.

Lemma escapeRegex_cons a s :
  escapeRegex (String a s)
  = if Fragment.isSyntaxChar a then String backslash (String a (escapeRegex s))
    else String a (escapeRegex s).
Proof.
  rewrite <- syntax_sets. unfold escapeRegex. cbn [replaceEach].
  destruct (memChar a escapedChars); reflexivity.
Qed.

(** An escaped text is read as the characters of the text. *)
Lemma parse_escapeRegex s : Fragment.parse (escapeRegex s) = Some (lit s).
Proof.
  induction s as [| a s IH]; [reflexivity |].
  rewrite escapeRegex_cons. destruct (Fragment.isSyntaxChar a) eqn:E.
  - simpl. rewrite E, IH. reflexivity.
  - rewrite parse_plain by exact E. rewrite IH. reflexivity.
Qed.

Lemma word_not_syntax a : isWordChar a = true -> Fragment.isSyntaxChar a = false.
Proof.
  destruct a as [[] [] [] [] [] [] [] []]; vm_compute; intros H;
    first [reflexivity | discriminate H].
Qed.

(** A name made of word characters is read as its characters. *)
Lemma parse_word s : allChars isWordChar s = true -> Fragment.parse s = Some (lit s).
Proof.
  induction s as [| a s IH]; [reflexivity |]. simpl allChars.
  intros H. apply andb_true_iff in H as [Ha Hs].
  rewrite parse_plain by (apply word_not_syntax, Ha). rewrite (IH Hs). reflexivity.
Qed.

Lemma get_drop (text : string) : forall i u a t,
  drop i text = u +:+ String a t -> String.get (i + String.length u) text = Some a.
Proof.
  induction text as [| b text IH]; intros i u a t H.
  - destruct i, u; discriminate.
  - destruct i; simpl in H.
    + destruct u as [| c u]; simpl in *.
      * inversion H. reflexivity.
      * inversion H; subst. apply (IH 0 u a t). reflexivity.
    + simpl. apply (IH i u a t H).
Qed.

Lemma indexOfFrom_skip needle (u : string) : forall v i,
  (forall j, j < String.length u -> startsWith needle (drop j (u +:+ v)) = false) ->
  indexOfFrom needle (u +:+ v) i = indexOfFrom needle v (i + String.length u).
Proof.
  induction u as [| a u IH]; intros v i H; simpl.
  - rewrite Nat.add_0_r. reflexivity.
  - pose proof (H 0 ltac:(simpl; lia)) as H0. simpl in H0. 
    destruct needle as [| b needle].
    + discriminate.
    + simpl in H0 |- *. rewrite H0. rewrite IH.
      * f_equal. lia.
      * intros j Hj. apply (H (S j)). simpl. lia.
Qed.

Lemma indexOf_char a (u : string) : forall t text i,
  drop i text = u +:+ String a t ->
  allChars (fun b => negb (Ascii.eqb a b)) u = true ->
  indexOf (String a EmptyString) text i = Z.of_nat (i + String.length u).
Proof.
  intros t text i Hd Hu. unfold indexOf.
  assert (Hi : i <= String.length text).
  { destruct (Nat.le_gt_cases i (String.length text)) as [H | H]; [exact H |].
    exfalso. assert (drop i text = EmptyString).
    { clear -H. revert i H. induction text; intros [] H; simpl in *; try lia; auto.
      apply IHtext. lia. }
    rewrite H0 in Hd. destruct u; discriminate. }
  rewrite Nat.min_l by exact Hi. rewrite Hd.
  rewrite indexOfFrom_skip.
  - simpl. rewrite Ascii.eqb_refl. reflexivity.
  - clear -Hu. induction u as [| b u IH]; intros j Hj; simpl in *; [lia |].
    apply andb_true_iff in Hu as [Hb Hu].
    destruct j; simpl.
    + apply negb_true_iff in Hb. rewrite Hb. reflexivity.
    + apply IH; [exact Hu | lia].
Qed.

Lemma space_not_brace a : isWhiteSpace a = true -> negb (Ascii.eqb "{" a) = true.
Proof.
  destruct a as [[] [] [] [] [] [] [] []]; vm_compute; intros H;
    first [reflexivity | discriminate H].
Qed.

Lemma allChars_impl (p q : ascii -> bool) (s : string) :
  (forall a, p a = true -> q a = true) -> allChars p s = true -> allChars q s = true.
Proof.
  intros Hpq. induction s as [| a s IH]; simpl; [reflexivity |].
  intros H. apply andb_true_iff in H as [Ha Hs]. rewrite (Hpq a Ha), (IH Hs). reflexivity.
Qed.

Lemma lang_chr_lit a w : lang (Chr (Lit a)) w -> w = String a EmptyString.
Proof. intros (b & -> & Hb). apply Ascii.eqb_eq in Hb. subst b. reflexivity. Qed.

Section Target.
Variable regExpOther : string -> option RegExp.

Lemma newRegExp_escaped before s after source h st :
  newRegExp regExpOther before (escapeRegex s) after source h st
  = (Returned (compile (Cat before (Cat (lit s) after))), st, []).
Proof.
  unfold newRegExp, Fragment.newRegExp. rewrite parse_escapeRegex. reflexivity.
Qed.

Lemma bind_newRegExp_escaped {A : Type} before s after source (f : RegExp -> M A) h st :
  bind (newRegExp regExpOther before (escapeRegex s) after source) f h st
  = f (compile (Cat before (Cat (lit s) after))) h st.
Proof.
  rewrite (bind_silent_run _ f h st
             (silent_newRegExp regExpOther before (escapeRegex s) after source)).
  rewrite newRegExp_escaped. reflexivity.
Qed.

Lemma bind_newRegExp {A : Type} before s after source (f : RegExp -> M A) h st :
  bind (newRegExp regExpOther before s after source) f h st
  = match Fragment.newRegExp regExpOther before s after source with
    | Some re => f re h st
    | None => (Thrown "SyntaxError", st, [])
    end.
Proof.
  rewrite (bind_silent_run _ f h st
             (silent_newRegExp regExpOther before s after source)).
  unfold newRegExp. destruct (Fragment.newRegExp _ _ _ _ _); reflexivity.
Qed.

Lemma getAlreadyImportedNames_returns text modulePath h st :
  exists names,
    result (getAlreadyImportedNames regExpOther text modulePath h st) = Returned names.
Proof.
  unfold getAlreadyImportedNames. cbv zeta.
  rewrite !bind_newRegExp_escaped.
  destruct (exec _ text); [destruct (_ && _) |]; eexists; reflexivity.
Qed.

End Target.

End TargetFacts.


(* ================================================================== *)
(** ** Facts: the search for a name as a whole word *)
(* ================================================================== *)

Module WordFacts.
Import JsString Regex vscode Run Resolver Notions MatchNotions WordNotions.
Import RegexFacts TargetFacts.

Lemma startsWith_split name : forall s,
  startsWith name s = true -> s = name +:+ drop (String.length name) s.
Proof.
  induction name as [| a name IH]; intros s H; simpl in *; [reflexivity |].
  destruct s as [| b s]; [discriminate |].
  apply andb_true_iff in H as [Hab Hs]. apply Ascii.eqb_eq in Hab. subst b.
  simpl. f_equal. apply IH, Hs.
Qed.

Lemma lastOr_word p name :
  isWordName name = true -> isWordOpt (lastOr p name) = true.
Proof.
  unfold isWordName. destruct name as [| a name]; [discriminate |]. simpl.
  revert a. induction name as [| b name IH]; intros a H; simpl in *.
  - rewrite andb_true_r in H. exact H.
  - apply andb_true_iff in H as [_ H]. apply IH, H.
Qed.

Lemma matchAt_wholeWord name i p s :
  isWordName name = true ->
  matchAt (Cat WordBoundary (Cat (lit name) WordBoundary)) accept
    {| pos := i; prev := p; rest := s |} []
  = if wholeWordHere name p s
    then Some ({| pos := i + String.length name; prev := lastOr p name;
                  rest := drop (String.length name) s |}, [])
    else None.
Proof.
  intros Hn. unfold wholeWordHere. rewrite matchAt_cat.
  destruct (startsWith name s) eqn:Es.
  - pose proof (startsWith_split name s Es) as Hs.
    assert (Hnext : nextIsWord {| pos := i; prev := p; rest := s |} = true).
    { unfold nextIsWord. simpl. unfold isWordName in Hn.
      destruct name as [| a name]; [discriminate |]. simpl in Hn.
      destruct s as [| b s]; [discriminate |]. simpl in Es.
      apply andb_true_iff in Es as [Hab _]. apply Ascii.eqb_eq in Hab. subst b.
      apply andb_true_iff in Hn as [Ha _]. exact Ha. }
    change (matchAt WordBoundary ?k ?x ?c)
      with (if xorb (prevIsWord x) (nextIsWord x) then k x c else None).
    rewrite Hnext. unfold prevIsWord. simpl prev. fold (isWordOpt p).
    rewrite xorb_true_r. cbn [andb].
    destruct (isWordOpt p); cbn [negb andb]; [reflexivity |].
    rewrite matchAt_cat.
    rewrite (matchAt_lit name (drop (String.length name) s)) by exact Hs.
    unfold after. simpl pos. simpl prev.
    change (matchAt WordBoundary ?k ?x ?c)
      with (if xorb (prevIsWord x) (nextIsWord x) then k x c else None).
    unfold prevIsWord, nextIsWord. simpl prev. simpl rest.
    fold (isWordOpt (lastOr p name)). rewrite (lastOr_word p name Hn).
    fold (startsWithWordChar (drop (String.length name) s)).
    destruct (startsWithWordChar _); reflexivity.
  - simpl andb.
    change (matchAt WordBoundary ?k ?x ?c)
      with (if xorb (prevIsWord x) (nextIsWord x) then k x c else None).
    destruct (xorb _ _); [| reflexivity].
    rewrite matchAt_cat. apply matchAt_lit_fail. exact Es.
Qed.

Lemma searchFrom_unfold r i p s :
  searchFrom r i p s
  = match matchAt r accept {| pos := i; prev := p; rest := s |} [] with
    | Some (y, c) => Some {| index := i; matched := take (pos y - i) s; groups := c |}
    | None =>
        match s with
        | EmptyString => None
        | String a t => searchFrom r (S i) (Some a) t
        end
    end.
Proof. destruct s; reflexivity. Qed.

Lemma searchFrom_wholeWord name : forall s i p,
  isWordName name = true ->
  searchFrom (Cat WordBoundary (Cat (lit name) WordBoundary)) i p s
  = (fun j => {| index := j; matched := name; groups := [] |})
      <$> findWholeWord name i p s.
Proof.
  assert (Hhere : forall s i p, isWordName name = true ->
    wholeWordHere name p s = true ->
    searchFrom (Cat WordBoundary (Cat (lit name) WordBoundary)) i p s
    = Some {| index := i; matched := name; groups := [] |}).
  { intros s i p Hn E. rewrite searchFrom_unfold, (matchAt_wholeWord name i p _ Hn), E.
    cbn [pos]. unfold wholeWordHere in E.
    apply andb_true_iff in E as [E _]. apply andb_true_iff in E as [E _].
    f_equal. f_equal.
    replace (i + String.length name - i) with (String.length name) by lia.
    transitivity (take (String.length name) (name +:+ drop (String.length name) s));
      [f_equal; apply startsWith_split, E | apply take_append]. }
  induction s as [| a s IH]; intros i p Hn.
  - destruct (wholeWordHere name p EmptyString) eqn:E.
    + rewrite (Hhere _ _ _ Hn E). simpl. rewrite E. reflexivity.
    + rewrite searchFrom_unfold, (matchAt_wholeWord name i p _ Hn), E.
      simpl. rewrite E. reflexivity.
  - destruct (wholeWordHere name p (String a s)) eqn:E.
    + rewrite (Hhere _ _ _ Hn E). simpl. rewrite E. reflexivity.
    + rewrite searchFrom_unfold, (matchAt_wholeWord name i p _ Hn), E.
      rewrite (IH (S i) (Some a) Hn). simpl findWholeWord. rewrite E. reflexivity.
Qed.

(** On a name made of word characters the expression [\bname\b] finds the
    first place where the name stands as a whole word. *)
Lemma exec_wholeWord name text :
  isWordName name = true ->
  exec (compile (Cat WordBoundary (Cat (lit name) WordBoundary))) text
  = (fun j => {| index := j; matched := name; groups := [] |})
      <$> firstWholeWord name text.
Proof.
  intros Hn. unfold exec, compile, firstWholeWord. simpl.
  apply searchFrom_wholeWord, Hn.
Qed.

Section Runtime.
Variable regExpOther : string -> option RegExp.
Variable host : Host.

Lemma newRegExp_word name :
  isWordName name = true ->
  Fragment.newRegExp regExpOther WordBoundary name WordBoundary ("\b" +:+ name +:+ "\b")
  = Some (compile (Cat WordBoundary (Cat (lit name) WordBoundary))).
Proof.
  intros Hn. unfold isWordName in Hn. apply andb_true_iff in Hn as [_ Hw].
  unfold Fragment.newRegExp. rewrite (parse_word name Hw). reflexivity.
Qed.

Lemma documentationLookup_word name document h :
  isWordName name = true ->
  fst (documentationLookup regExpOther host name document h)
  = Returned (hoverDocumentation host name document h).
Proof.
  intros Hn. unfold documentationLookup, hoverDocumentation.
  rewrite (newRegExp_word name Hn), (exec_wholeWord name _ Hn).
  destruct (firstWholeWord name _) as [i |]; reflexivity.
Qed.

End Runtime.
End WordFacts.


(* ================================================================== *)
(** ** Facts: the loops of the scanner over the matches *)
(* ================================================================== *)

Module ImportFacts.
Import JsString Regex vscode Scanner MatchNotions WordNotions ImportNotions.
Import RegexFacts ScannerFacts TargetFacts WordFacts.

Lemma drop_all (s : string) : forall i, String.length s <= i -> drop i s = EmptyString.
Proof.
  induction s as [| a s IH]; intros [| i] H; simpl in *; try reflexivity; try lia.
  apply IH. lia.
Qed.

Lemma drop_cons (s : string) : forall i,
  i < String.length s ->
  exists a, String.get i s = Some a /\ drop i s = String a (drop (S i) s).
Proof.
  induction s as [| b s IH]; intros i H; simpl in H; [lia |].
  destruct i as [| i].
  - exists b. split; reflexivity.
  - destruct (IH i ltac:(lia)) as (a & Hg & Hd). exists a. split; [exact Hg |].
    simpl. exact Hd.
Qed.

Lemma compile_unfold r text L :
  L <= String.length text ->
  compile r text L
  = match matchesAt r text L with
    | Some (y, c) =>
        Some {| index := L; matched := take (pos y - L) (drop L text); groups := c |}
    | None => if L <? String.length text then compile r text (S L) else None
    end.
Proof.
  intros HL. unfold compile, matchesAt.
  replace (String.length text <? L) with false by (symmetry; apply Nat.ltb_ge; lia).
  rewrite searchFrom_unfold.
  destruct (matchAt r accept _ []) as [[y c] |]; [reflexivity |].
  destruct (L <? String.length text) eqn:E.
  - apply Nat.ltb_lt in E.
    replace (String.length text <? S L) with false by (symmetry; apply Nat.ltb_ge; lia).
    destruct (drop_cons text L E) as (a & Hg & Hd). rewrite Hd. simpl charBefore.
    rewrite Hg. reflexivity.
  - apply Nat.ltb_ge in E. rewrite drop_all by exact E. reflexivity.
Qed.

(** The search from [L] finds the match at [n], or an earlier one. *)
Lemma compile_first r text n y c :
  n <= String.length text ->
  matchesAt r text n = Some (y, c) ->
  forall d L, n = L + d ->
    exists m, compile r text L = Some m
      /\ L <= index m
      /\ (index m < n \/ (index m = n /\ groups m = c)).
Proof.
  intros Hn Hm. induction d as [| d IH]; intros L HL.
  - rewrite Nat.add_0_r in HL. subst L. rewrite compile_unfold, Hm by exact Hn.
    eexists. split; [reflexivity |]. simpl. split; [lia | right; split; reflexivity].
  - rewrite compile_unfold by lia.
    destruct (matchesAt r text L) as [[y' c'] |].
    + eexists. split; [reflexivity |]. simpl. split; [lia | left; lia].
    + replace (L <? String.length text) with true by (symmetry; apply Nat.ltb_lt; lia).
      destruct (IH (S L) ltac:(lia)) as (m & Hc & Hi & Hor).
      exists m. split; [exact Hc | split; [lia | exact Hor]].
Qed.

(** The loop of [exec] reaches the match at [n] when no earlier match runs
    over index [n]. *)
Lemma execLoop_reaches r text n y c :
  (forall L m, compile r text L = Some m -> index m < endIndex m) ->
  n <= String.length text ->
  matchesAt r text n = Some (y, c) ->
  forall fuel L, L <= n -> n - L < fuel ->
    (forall m, In m (execLoop (compile r) text fuel L) ->
               index m < n -> endIndex m <= n) ->
    exists m, In m (execLoop (compile r) text fuel L) /\ index m = n /\ groups m = c.
Proof.
  intros Hne Hn Hm. induction fuel as [| fuel IH]; intros L HL Hf Hclear; [lia |].
  destruct (compile_first r text n y c Hn Hm (n - L) L ltac:(lia))
    as (m & Hc & Hi & Hor).
  simpl in Hclear |- *. rewrite Hc in Hclear |- *.
  destruct Hor as [Hlt | [Heq Hg]].
  - pose proof (Hclear m (or_introl eq_refl) Hlt) as Hend.
    pose proof (Hne L m Hc) as Hpos.
    destruct (IH (endIndex m) Hend ltac:(lia)) as (m' & Hin & Hm').
    + intros m' Hin. apply Hclear. right. exact Hin.
    + exists m'. split; [right; exact Hin | exact Hm'].
  - exists m. split; [left; reflexivity | split; assumption].
Qed.

Lemma import_nonempty r text L m :
  compile (Cat (lit "import") r) text L = Some m -> index m < endIndex m.
Proof.
  intros H. apply compile_lang in H as (_ & _ & tail & _ & Hl).
  destruct Hl as (w1 & w2 & Hw & H1 & _). apply lang_lit in H1. subst w1.
  unfold endIndex. rewrite Hw. simpl. lia.
Qed.

Lemma execAll_reaches r r' text n y c :
  r = Cat (lit "import") r' ->
  n <= String.length text ->
  matchesAt r text n = Some (y, c) ->
  clearBefore r text n = true ->
  exists m, In m (execAll (compile r) text) /\ index m = n /\ groups m = c.
Proof.
  intros -> Hn Hm Hclear. unfold execAll.
  apply (execLoop_reaches _ text n y c); auto; try lia.
  - intros L m. apply import_nonempty.
  - unfold clearBefore, execAll in Hclear. rewrite forallb_forall in Hclear.
    intros m Hin Hlt. apply Hclear in Hin. apply orb_true_iff in Hin as [H | H].
    + apply Nat.leb_le in H. lia.
    + apply Nat.leb_le in H. exact H.
Qed.

Lemma take_after (w r : string) p : take (p + String.length w - p) (w +:+ r) = w.
Proof. replace (p + String.length w - p) with (String.length w) by lia. apply take_append. Qed.

Lemma getGroup_set n s c : getGroup n (setGroup n s c) = Some s.
Proof. unfold getGroup, setGroup. simpl. rewrite Nat.eqb_refl. reflexivity. Qed.

Lemma quoted_append q m post :
  quoted q m +:+ post = String q (m +:+ String q post).
Proof. unfold quoted. simpl. rewrite append_assoc. reflexivity. Qed.

Lemma quote_not_space q : memChar q [apos; quot] = true -> isWhiteSpace q = false.
Proof.
  destruct q as [[] [] [] [] [] [] [] []]; vm_compute; intros H;
    first [reflexivity | discriminate H].
Qed.

(** The end of the three expressions: a quote, the specifier, a quote. *)
Lemma specifier_match n q b m post i p c :
  memChar q [apos; quot] = true ->
  allChars isSpecifierChar (String b m) = true ->
  matchAt (Cat quote (Cat (specifier n) quote)) accept
    {| pos := i; prev := p; rest := quoted q (String b m) +:+ post |} c
  = Some ({| pos := S (S i + String.length (String b m)); prev := Some q; rest := post |},
          setGroup n (String b m) c).
Proof.
  intros Hq Hm. rewrite quoted_append.
  rewrite matchAt_cat. unfold quote at 1.
  rewrite (matchAt_chr_in _ q (String b m +:+ String q post)); [| reflexivity | exact Hq].
  cbv [advance pos prev rest].
  rewrite matchAt_cat. unfold specifier. rewrite matchAt_group.
  eapply (matchAt_plus_run _ b m (String q post));
    [reflexivity | exact Hm | unfold stops, inSet; rewrite Hq; reflexivity |].
  norm. unfold quote.
  rewrite (matchAt_chr_in _ q post); [| reflexivity | exact Hq].
  cbv [advance pos prev rest]. unfold accept.
  rewrite take_after. reflexivity.
Qed.

Lemma stops_quoted q m post :
  memChar q [apos; quot] = true -> stops Space (quoted q m +:+ post) = true.
Proof. intros Hq. simpl. rewrite (quote_not_space q Hq). reflexivity. Qed.

Lemma default_match a X q b m post i p :
  allChars isWordChar (String a X) = true ->
  memChar q [apos; quot] = true ->
  allChars isSpecifierChar (String b m) = true ->
  exists y c,
    matchAt standardRegex accept
      {| pos := i; prev := p;
         rest := declaration (DefaultImport (String a X)) q (String b m) +:+ post |} []
    = Some (y, c)
    /\ getGroup 3 c = Some (String b m).
Proof.
  intros HX Hq Hm. unfold declaration. rewrite !append_assoc.
  eexists _, _. split.
  - cbv [standardRegex seq].
    rewrite matchAt_cat.
    rewrite (matchAt_lit "import"
               (" " +:+ String a X +:+ " from " +:+ quoted q (String b m) +:+ post));
      [| reflexivity]. norm.
    rewrite matchAt_cat.
    pose proof HX as HX'. simpl in HX'. apply andb_true_iff in HX' as [Ha _].
    eapply (matchAt_plus_run Space " " EmptyString);
      [reflexivity | reflexivity | simpl; rewrite (word_not_space a Ha); reflexivity |].
    norm. rewrite matchAt_cat.
    apply matchAt_opt_take.
    rewrite !matchAt_cat. rewrite matchAt_group.
    eapply (matchAt_plus_run Word a X); [reflexivity | exact HX | reflexivity |]. norm.
    rewrite matchAt_cat.
    eapply (matchAt_star_run Space " "); [reflexivity | reflexivity | reflexivity |]. norm.
    rewrite matchAt_cat.
    rewrite matchAt_opt_skip; [| reflexivity].
    eapply (matchAt_star_run Space EmptyString); [reflexivity | reflexivity | reflexivity |].
    norm. rewrite progress_moved; [| simpl; lia].
    rewrite matchAt_cat.
    rewrite matchAt_opt_skip; [| reflexivity].
    rewrite matchAt_cat.
    eapply (matchAt_star_run Space EmptyString); [reflexivity | reflexivity | reflexivity |].
    norm. rewrite matchAt_cat.
    rewrite (matchAt_lit "from" (" " +:+ quoted q (String b m) +:+ post)); [| reflexivity].
    norm. rewrite matchAt_cat.
    eapply (matchAt_star_run Space " " (quoted q (String b m) +:+ post));
      [reflexivity | reflexivity | apply stops_quoted, Hq |].
    norm. apply specifier_match; assumption.
  - apply getGroup_set.
Qed.

Lemma named_match names q b m post i p :
  allChars (inSet (NoneOf ["}"%char])) names = true ->
  memChar q [apos; quot] = true ->
  allChars isSpecifierChar (String b m) = true ->
  exists y c,
    matchAt standardRegex accept
      {| pos := i; prev := p;
         rest := declaration (NamedImport names) q (String b m) +:+ post |} []
    = Some (y, c)
    /\ getGroup 3 c = Some (String b m).
Proof.
  intros Hl Hq Hm. unfold declaration. rewrite !append_assoc.
  eexists _, _. split.
  - cbv [standardRegex seq].
    rewrite matchAt_cat.
    rewrite (matchAt_lit "import"
               (" {" +:+ names +:+ "} from " +:+ quoted q (String b m) +:+ post));
      [| reflexivity]. norm.
    rewrite matchAt_cat.
    eapply (matchAt_plus_run Space " " EmptyString);
      [reflexivity | reflexivity | reflexivity |].
    norm. rewrite matchAt_cat.
    rewrite matchAt_opt_skip; [| reflexivity].
    rewrite matchAt_cat.
    apply matchAt_opt_take.
    rewrite !matchAt_cat.
    rewrite (matchAt_chr_in _ "{" (names +:+ "} from " +:+ quoted q (String b m) +:+ post));
      [| reflexivity | reflexivity].
    cbv [advance pos prev rest]. rewrite matchAt_cat. rewrite matchAt_group.
    eapply (matchAt_star_run _ names ("} from " +:+ quoted q (String b m) +:+ post));
      [reflexivity | exact Hl | reflexivity |].
    norm.
    rewrite (matchAt_chr_in _ "}" (" from " +:+ quoted q (String b m) +:+ post));
      [| reflexivity | reflexivity].
    cbv [advance pos prev rest].
    rewrite progress_moved; [| simpl; lia].
    rewrite matchAt_cat.
    eapply (matchAt_star_run Space " "); [reflexivity | reflexivity | reflexivity |].
    norm. rewrite matchAt_cat.
    rewrite (matchAt_lit "from" (" " +:+ quoted q (String b m) +:+ post)); [| reflexivity].
    norm. rewrite matchAt_cat.
    eapply (matchAt_star_run Space " " (quoted q (String b m) +:+ post));
      [reflexivity | reflexivity | apply stops_quoted, Hq |].
    norm. apply specifier_match; assumption.
  - apply getGroup_set.
Qed.

Lemma namespace_match a X q b m post i p :
  allChars isWordChar (String a X) = true ->
  memChar q [apos; quot] = true ->
  allChars isSpecifierChar (String b m) = true ->
  exists y c,
    matchAt namespaceRegex accept
      {| pos := i; prev := p;
         rest := declaration (NamespaceImport (String a X)) q (String b m) +:+ post |} []
    = Some (y, c)
    /\ getGroup 2 c = Some (String b m).
Proof.
  intros HX Hq Hm. unfold declaration. rewrite !append_assoc.
  eexists _, _. split.
  - cbv [namespaceRegex seq].
    rewrite matchAt_cat.
    rewrite (matchAt_lit "import"
               (" * as " +:+ String a X +:+ " from " +:+ quoted q (String b m) +:+ post));
      [| reflexivity]. norm.
    rewrite matchAt_cat.
    eapply (matchAt_plus_run Space " " EmptyString);
      [reflexivity | reflexivity | reflexivity |].
    norm. rewrite matchAt_cat.
    rewrite (matchAt_chr_in _ "*"
               (" as " +:+ String a X +:+ " from " +:+ quoted q (String b m) +:+ post));
      [| reflexivity | reflexivity].
    cbv [advance pos prev rest]. rewrite matchAt_cat.
    eapply (matchAt_plus_run Space " " EmptyString);
      [reflexivity | reflexivity | reflexivity |].
    norm. rewrite matchAt_cat.
    rewrite (matchAt_lit "as"
               (" " +:+ String a X +:+ " from " +:+ quoted q (String b m) +:+ post));
      [| reflexivity]. norm.
    rewrite matchAt_cat.
    pose proof HX as HX'. simpl in HX'. apply andb_true_iff in HX' as [Ha _].
    eapply (matchAt_plus_run Space " " EmptyString);
      [reflexivity | reflexivity | simpl; rewrite (word_not_space a Ha); reflexivity |].
    norm. rewrite matchAt_cat. rewrite matchAt_group.
    eapply (matchAt_plus_run Word a X); [reflexivity | exact HX | reflexivity |]. norm.
    rewrite matchAt_cat.
    eapply (matchAt_plus_run Space " " EmptyString);
      [reflexivity | reflexivity | reflexivity |].
    norm. rewrite matchAt_cat.
    rewrite (matchAt_lit "from" (" " +:+ quoted q (String b m) +:+ post)); [| reflexivity].
    norm. rewrite matchAt_cat.
    eapply (matchAt_plus_run Space " " EmptyString (quoted q (String b m) +:+ post));
      [reflexivity | reflexivity | apply stops_quoted, Hq |].
    norm. apply specifier_match; assumption.
  - apply getGroup_set.
Qed.

Lemma type_match names q b m post i p :
  allChars (inSet (NoneOf ["}"%char])) names = true ->
  memChar q [apos; quot] = true ->
  allChars isSpecifierChar (String b m) = true ->
  exists y c,
    matchAt typeRegex accept
      {| pos := i; prev := p;
         rest := declaration (TypeImport names) q (String b m) +:+ post |} []
    = Some (y, c)
    /\ getGroup 2 c = Some (String b m).
Proof.
  intros Hl Hq Hm. unfold declaration. rewrite !append_assoc.
  eexists _, _. split.
  - cbv [typeRegex seq].
    rewrite matchAt_cat.
    rewrite (matchAt_lit "import"
               (" type {" +:+ names +:+ "} from " +:+ quoted q (String b m) +:+ post));
      [| reflexivity]. norm.
    rewrite matchAt_cat.
    eapply (matchAt_plus_run Space " " EmptyString);
      [reflexivity | reflexivity | reflexivity |].
    norm. rewrite matchAt_cat.
    rewrite (matchAt_lit "type"
               (" {" +:+ names +:+ "} from " +:+ quoted q (String b m) +:+ post));
      [| reflexivity]. norm.
    rewrite matchAt_cat.
    eapply (matchAt_plus_run Space " " EmptyString);
      [reflexivity | reflexivity | reflexivity |].
    norm. rewrite matchAt_cat.
    rewrite (matchAt_chr_in _ "{" (names +:+ "} from " +:+ quoted q (String b m) +:+ post));
      [| reflexivity | reflexivity].
    cbv [advance pos prev rest]. rewrite matchAt_cat. rewrite matchAt_group.
    eapply (matchAt_star_run _ names ("} from " +:+ quoted q (String b m) +:+ post));
      [reflexivity | exact Hl | reflexivity |].
    norm. rewrite matchAt_cat.
    rewrite (matchAt_chr_in _ "}" (" from " +:+ quoted q (String b m) +:+ post));
      [| reflexivity | reflexivity].
    cbv [advance pos prev rest]. rewrite matchAt_cat.
    eapply (matchAt_plus_run Space " " EmptyString);
      [reflexivity | reflexivity | reflexivity |].
    norm. rewrite matchAt_cat.
    rewrite (matchAt_lit "from" (" " +:+ quoted q (String b m) +:+ post)); [| reflexivity].
    norm. rewrite matchAt_cat.
    eapply (matchAt_plus_run Space " " EmptyString (quoted q (String b m) +:+ post));
      [reflexivity | reflexivity | apply stops_quoted, Hq |].
    norm. apply specifier_match; assumption.
  - apply getGroup_set.
Qed.

Lemma fold_keeps {A : Type} (f : ModuleMap -> A -> ModuleMap) k (l : list A) :
  (forall m a, has k m = true -> has k (f m a) = true) ->
  forall m, has k m = true -> has k (fold_left f l m) = true.
Proof.
  intros Hf. induction l as [| a l IH]; intros m H; simpl; [exact H |].
  apply IH, Hf, H.
Qed.

Lemma fold_adds {A : Type} (f : ModuleMap -> A -> ModuleMap) k (l : list A) a :
  (forall m a', has k m = true -> has k (f m a') = true) ->
  (forall m, has k (f m a) = true) ->
  In a l ->
  forall m, has k (fold_left f l m) = true.
Proof.
  intros Hkeep Hadd. induction l as [| b l IH]; intros Hin m; [destruct Hin |].
  simpl. destruct Hin as [-> | Hin]; [| apply IH, Hin].
  apply fold_keeps; [exact Hkeep | apply Hadd].
Qed.

Section Steps.
Variable document : TextDocument.t.

Lemma addStandard_keeps k m r :
  has k m = true -> has k (addStandard document m r) = true.
Proof.
  intros H. unfold addStandard. destruct (has (mandatory _) m); [exact H |].
  apply set_has_other, H.
Qed.

Lemma addStandard_adds k m r :
  group 3 r = Some k -> has k (addStandard document m r) = true.
Proof.
  intros H. unfold addStandard. rewrite H. simpl mandatory.
  destruct (has k m) eqn:E; [exact E | apply set_has].
Qed.

Lemma addNamespace_keeps k m r :
  has k m = true -> has k (addNamespace document m r) = true.
Proof. intros H. apply set_has_other, H. Qed.

Lemma addNamespace_adds k m r :
  group 2 r = Some k -> has k (addNamespace document m r) = true.
Proof. intros H. unfold addNamespace. rewrite H. apply set_has. Qed.

Lemma addType_keeps k m r :
  has k m = true -> has k (addType document m r) = true.
Proof.
  intros H. unfold addType. destruct (has (mandatory _) m); [exact H |].
  apply set_has_other, H.
Qed.

Lemma addType_adds k m r :
  group 2 r = Some k -> has k (addType document m r) = true.
Proof.
  intros H. unfold addType. rewrite H. simpl mandatory.
  destruct (has k m) eqn:E; [exact E | apply set_has].
Qed.

Lemma addManual_keeps k m p : has k m = true -> has k (addManual m p) = true.
Proof.
  intros H. unfold addManual. destruct (has (ImportNode.modulePath p) m); [exact H |].
  apply set_has_other, H.
Qed.

(** A module path that one of the three loops meets is a key of the map
    at the end. *)
Lemma scan_has k manualPackages r :
  let text := TextDocument.getText document in
  (In r (execAll (compile standardRegex) text) /\ group 3 r = Some k)
  \/ (In r (execAll (compile namespaceRegex) text) /\ group 2 r = Some k)
  \/ (In r (execAll (compile typeRegex) text) /\ group 2 r = Some k) ->
  has k (scan document manualPackages) = true.
Proof.
  cbv zeta. intros H. unfold scan.
  apply fold_keeps; [intros; apply addManual_keeps; assumption |].
  destruct H as [[Hin Hg] | [[Hin Hg] | [Hin Hg]]].
  - apply fold_keeps; [intros; apply addType_keeps; assumption |].
    apply fold_keeps; [intros; apply addNamespace_keeps; assumption |].
    apply (fold_adds _ k _ r); [intros; apply addStandard_keeps; assumption | | exact Hin].
    intros m. apply addStandard_adds, Hg.
  - apply fold_keeps; [intros; apply addType_keeps; assumption |].
    apply (fold_adds _ k _ r); [intros; apply addNamespace_keeps; assumption | | exact Hin].
    intros m. apply addNamespace_adds, Hg.
  - apply (fold_adds _ k _ r); [intros; apply addType_keeps; assumption | | exact Hin].
    intros m. apply addType_adds, Hg.
Qed.

Lemma scan_node k manualPackages :
  has k (scan document manualPackages) = true ->
  exists node,
    In node (findImportedModules (Some document) manualPackages)
    /\ ImportNode.modulePath node = k.
Proof.
  intros H. apply has_In in H.
  rewrite <- (wellKeyed_values _ (scan_wellKeyed document manualPackages)) in H.
  apply in_map_iff in H as (node & Hk & Hin). exists node. split; assumption.
Qed.

End Steps.

Lemma isSpecifier_cons m :
  isSpecifier m = true ->
  exists b t, m = String b t /\ allChars isSpecifierChar (String b t) = true.
Proof.
  unfold isSpecifier. destruct m as [| b t]; [discriminate |].
  intros H. exists b, t. split; [reflexivity | exact H].
Qed.

Lemma isWordName_cons s :
  isWordName s = true ->
  exists a t, s = String a t /\ allChars isWordChar (String a t) = true.
Proof.
  unfold isWordName. destruct s as [| a t]; [discriminate |].
  intros H. exists a, t. split; [reflexivity | exact H].
Qed.

(** At the start of a declaration the expression of its form matches, with
    the module specifier in its last group. *)
Lemma declaration_match form q m post i p :
  wellFormed form = true ->
  memChar q [apos; quot] = true ->
  isSpecifier m = true ->
  exists y c,
    matchAt (patternOf form) accept
      {| pos := i; prev := p; rest := declaration form q m +:+ post |} []
    = Some (y, c)
    /\ getGroup (match form with
                 | DefaultImport _ | NamedImport _ => 3
                 | _ => 2
                 end) c = Some m.
Proof.
  intros Hf Hq Hm. apply isSpecifier_cons in Hm as (b & t & -> & Hm).
  destruct form as [name | names | name | names]; simpl in Hf.
  - apply isWordName_cons in Hf as (a & X & -> & HX). apply default_match; assumption.
  - apply named_match; assumption.
  - apply isWordName_cons in Hf as (a & X & -> & HX). apply namespace_match; assumption.
  - apply type_match; assumption.
Qed.

End ImportFacts.


(* ================================================================== *)
(** ** Facts: the bounds of the matcher lose no match *)
(* ================================================================== *)

Module FuelFacts.
Import JsString Regex MatchNotions.
Import RegexFacts ImportFacts.

Lemma within_refl x : within x x.
Proof. split; lia. Qed.

Lemma within_trans x y z : within x y -> within y z -> within x z.
Proof. intros [H1 H2] [H3 H4]. split; lia. Qed.

Lemma within_advance x a t : rest x = String a t -> within x (advance a t x).
Proof. intros H. unfold within, advance. rewrite H. simpl. lia. Qed.

Section Repeat.
Variable r1 : Pattern.
Variable reset : Captures -> Captures.
Hypothesis ext : forall k k' x c,
  (forall y c', within x y -> k y c' = k' y c') ->
  matchAt r1 k x c = matchAt r1 k' x c.

Lemma repeatGreedy_ext fuel : forall k k' x c,
  (forall y c', within x y -> k y c' = k' y c') ->
  repeatGreedy (matchAt r1) reset fuel k x c
  = repeatGreedy (matchAt r1) reset fuel k' x c.
Proof.
  induction fuel as [| fuel IH]; intros k k' x c H; simpl.
  - apply H, within_refl.
  - rewrite (H x c (within_refl x)).
    erewrite ext; [reflexivity |].
    intros y c' Hy. simpl. destruct (pos y =? pos x); [reflexivity |].
    apply IH. intros z c'' Hz. apply H. eapply within_trans; eauto.
Qed.

Hypothesis none : forall x c, matchAt r1 (fun _ _ => None) x c = None.

(** Any number of iterations that is at least the number of characters
    left gives the same result. *)
Lemma repeatGreedy_fuel n : forall fuel fuel' k x c,
  String.length (rest x) <= n -> n <= fuel -> n <= fuel' ->
  repeatGreedy (matchAt r1) reset fuel k x c
  = repeatGreedy (matchAt r1) reset fuel' k x c.
Proof.
  assert (Hend : forall fuel k x c,
    String.length (rest x) = 0 ->
    repeatGreedy (matchAt r1) reset fuel k x c = k x c).
  { intros [| fuel] k x c Hx; simpl; [reflexivity |].
    erewrite ext; [rewrite none; reflexivity |].
    intros y c' [Hy1 Hy2]. simpl.
    replace (pos y =? pos x) with true; [reflexivity |].
    symmetry. apply Nat.eqb_eq. lia. }
  induction n as [| n IH]; intros fuel fuel' k x c Hx Hf Hf'.
  - rewrite !Hend by lia. reflexivity.
  - destruct fuel as [| fuel]; [lia |]. destruct fuel' as [| fuel']; [lia |].
    simpl. erewrite ext; [reflexivity |].
    intros y c' [Hy1 Hy2]. simpl.
    destruct (pos y =? pos x) eqn:E; [reflexivity |].
    apply Nat.eqb_neq in E. apply IH; lia.
Qed.

End Repeat.

Lemma matchAt_ext r : forall k k' x c,
  (forall y c', within x y -> k y c' = k' y c') ->
  matchAt r k x c = matchAt r k' x c.
Proof.
  induction r as [| cs | r1 IH1 r2 IH2 | r1 IH1 | r1 IH1 | r1 IH1 | n r1 IH1 | | |];
    intros k k' x c H; simpl.
  - apply H, within_refl.
  - destruct (rest x) as [| a t] eqn:Hx; [reflexivity |].
    destruct (inSet cs a); [| reflexivity]. apply H, within_advance, Hx.
  - apply IH1. intros y c' Hy. apply IH2. intros z c'' Hz. apply H.
    eapply within_trans; eauto.
  - apply repeatGreedy_ext; assumption.
  - apply IH1. intros y c' Hy. apply repeatGreedy_ext; [exact IH1 |].
    intros z c'' Hz. apply H. eapply within_trans; eauto.
  - rewrite (H x c (within_refl x)). erewrite IH1; [reflexivity |].
    intros y c' Hy. simpl. destruct (pos y =? pos x); [reflexivity |]. apply H, Hy.
  - apply IH1. intros y c' Hy. apply H, Hy.
  - destruct (xorb _ _); [apply H, within_refl | reflexivity].
  - destruct (pos x =? 0); [apply H, within_refl | reflexivity].
  - destruct (rest x); [apply H, within_refl | reflexivity].
Qed.

Lemma matchAt_none r : forall x c, matchAt r (fun _ _ => None) x c = None.
Proof.
  induction r as [| cs | r1 IH1 r2 IH2 | r1 IH1 | r1 IH1 | r1 IH1 | n r1 IH1 | | |];
    intros x c; simpl.
  - reflexivity.
  - destruct (rest x) as [| a t]; [reflexivity |]. destruct (inSet cs a); reflexivity.
  - erewrite matchAt_ext; [apply IH1 |]. intros y c' _. apply IH2.
  - generalize (String.length (rest x)). intros fuel. revert x c.
    induction fuel as [| fuel IHf]; intros x c; simpl; [reflexivity |].
    erewrite matchAt_ext; [rewrite IH1; reflexivity |].
    intros y c' _. simpl. destruct (pos y =? pos x); [reflexivity | apply IHf].
  - erewrite matchAt_ext; [apply IH1 |]. intros y c' _. simpl.
    generalize (String.length (rest y)). intros fuel. revert y c'.
    induction fuel as [| fuel IHf]; intros y c'; simpl; [reflexivity |].
    erewrite matchAt_ext; [rewrite IH1; reflexivity |].
    intros z c'' _. simpl. destruct (pos z =? pos y); [reflexivity | apply IHf].
  - erewrite matchAt_ext; [rewrite IH1; reflexivity |].
    intros y c' _. simpl. destruct (pos y =? pos x); reflexivity.
  - erewrite matchAt_ext; [apply IH1 |]. intros y c' _. reflexivity.
  - destruct (xorb _ _); reflexivity.
  - destruct (pos x =? 0); reflexivity.
  - destruct (rest x); reflexivity.
Qed.

(** The bound on the iterations of [r*] in [matchAt] loses no match: a
    larger one gives the same result. *)
Theorem star_fuel_enough r fuel k x c :
  String.length (rest x) <= fuel ->
  repeatGreedy (matchAt r) (clearGroups (groupsOf r)) fuel k x c
  = matchAt (Star r) k x c.
Proof.
  intros H. simpl.
  apply (repeatGreedy_fuel r _ (matchAt_ext r) (matchAt_none r) (String.length (rest x)));
    lia.
Qed.

Lemma compile_end r text L m :
  compile r text L = Some m -> endIndex m <= String.length text.
Proof.
  intros H. apply compile_lang in H as (_ & Hi & tail & Hd & _).
  unfold endIndex. pose proof (length_drop text (index m)) as Hl.
  rewrite Hd, length_append in Hl. lia.
Qed.

(** The bound on the turns of the loop of [exec] loses no match of an
    expression that starts with [import]. *)
Theorem execLoop_fuel_enough r text n : forall fuel fuel' L,
  String.length text - L < n -> n <= fuel -> n <= fuel' ->
  execLoop (compile (Cat (lit "import") r)) text fuel L
  = execLoop (compile (Cat (lit "import") r)) text fuel' L.
Proof.
  induction n as [| n IH]; intros fuel fuel' L Hn Hf Hf'; [lia |].
  destruct fuel as [| fuel]; [lia |]. destruct fuel' as [| fuel']; [lia |].
  simpl. destruct (compile _ text L) as [m |] eqn:E; [| reflexivity].
  f_equal. pose proof (import_nonempty _ _ _ _ E) as Hne.
  pose proof (compile_end _ _ _ _ E) as Hend.
  apply compile_lang in E as (HL & _).
  apply IH; lia.
Qed.

End FuelFacts.

(* ================================================================== *)
(** ** Facts: the place where the completion items are asked for *)
(* ================================================================== *)

Module PlaceFacts.
Import JsString Regex vscode Run Scanner Resolver Notions MatchNotions WordNotions
  ImportNotions PlaceNotions.
Import RunFacts RegexFacts ScannerFacts ResolverFacts ResolverCalls TargetFacts WordFacts
  ImportFacts.


Lemma compile_at r text : forall d L m,
  String.length text = L + d ->
  compile r text L = Some m ->
  exists y,
    matchesAt r text (index m) = Some (y, groups m)
    /\ L <= index m /\ index m <= String.length text
    /\ matched m = take (pos y - index m) (drop (index m) text)
    /\ forall j, L <= j -> j < index m -> matchesAt r text j = None.
Proof.
  induction d as [| d IH]; intros L m Hd H; rewrite compile_unfold in H by lia.
  - destruct (matchesAt r text L) as [[y c] |] eqn:E.
    + inversion H. subst m. simpl. exists y.
      split; [exact E |]. split; [lia |]. split; [lia |]. split; [reflexivity |].
      intros j H1 H2. lia.
    + replace (L <? String.length text) with false in H
        by (symmetry; apply Nat.ltb_ge; lia). discriminate.
  - destruct (matchesAt r text L) as [[y c] |] eqn:E.
    + inversion H. subst m. simpl. exists y.
      split; [exact E |]. split; [lia |]. split; [lia |]. split; [reflexivity |].
      intros j H1 H2. lia.
    + replace (L <? String.length text) with true in H
        by (symmetry; apply Nat.ltb_lt; lia).
      destruct (IH (S L) m ltac:(lia) H) as (y & H1 & H2 & H3 & H4 & H5).
      exists y.
      split; [exact H1 |]. split; [lia |]. split; [lia |]. split; [exact H4 |].
      intros j Hj1 Hj2. destruct (Nat.eq_dec j L) as [-> | Hne]; [exact E |].
      apply H5; lia.
Qed.

Lemma compile_none r text : forall d L,
  String.length text = L + d ->
  compile r text L = None ->
  forall j, L <= j -> j <= String.length text -> matchesAt r text j = None.
Proof.
  induction d as [| d IH]; intros L Hd H j Hj1 Hj2; rewrite compile_unfold in H by lia.
  - destruct (matchesAt r text L) as [[y c] |] eqn:E; [discriminate |].
    replace j with L by lia. exact E.
  - destruct (matchesAt r text L) as [[y c] |] eqn:E; [discriminate |].
    replace (L <? String.length text) with true in H
      by (symmetry; apply Nat.ltb_lt; lia).
    destruct (Nat.eq_dec j L) as [-> | Hne]; [exact E |].
    apply (IH (S L)); auto; lia.
Qed.

(** The first match of an expression is at the first index where the
    expression matches. *)
Lemma exec_first r text m :
  exec (compile r) text = Some m ->
  exists y,
    matchesAt r text (index m) = Some (y, groups m)
    /\ index m <= String.length text
    /\ matched m = take (pos y - index m) (drop (index m) text)
    /\ forall j, j < index m -> matchesAt r text j = None.
Proof.
  intros H. destruct (compile_at r text (String.length text) 0 m eq_refl H)
    as (y & H1 & _ & H3 & H4 & H5).
  exists y. split; [exact H1 |]. split; [exact H3 |]. split; [exact H4 |].
  intros j Hj. apply H5; lia.
Qed.

Lemma exec_none r text :
  exec (compile r) text = None ->
  forall j, j <= String.length text -> matchesAt r text j = None.
Proof.
  intros H j Hj. apply (compile_none r text (String.length text) 0 eq_refl H); lia.
Qed.

Lemma startsWith_append w tail : startsWith w (w +:+ tail) = true.
Proof.
  induction w as [| a w IH]; simpl; [reflexivity |].
  rewrite Ascii.eqb_refl. exact IH.
Qed.

Lemma matchAt_usage name i p s :
  isWordName name = true ->
  matchAt (Cat WordBoundary (Cat (lit name) (Chr (Lit ".")))) accept
    {| pos := i; prev := p; rest := s |} []
  = if usageHere name p s
    then Some ({| pos := S (i + String.length name);
                  prev := Some "."%char;
                  rest := drop (S (String.length name)) s |}, [])
    else None.
Proof.
  intros Hn. unfold usageHere. rewrite matchAt_cat.
  change (matchAt WordBoundary ?k ?x ?c)
    with (if xorb (prevIsWord x) (nextIsWord x) then k x c else None).
  unfold prevIsWord. simpl prev. fold (isWordOpt p).
  destruct (startsWith (name +:+ ".") s) eqn:Es.
  - pose proof (startsWith_split _ s Es) as Hs.
    rewrite length_append in Hs. simpl in Hs. rewrite Nat.add_1_r in Hs.
    rewrite append_assoc in Hs. simpl in Hs.
    assert (Hnext : nextIsWord {| pos := i; prev := p; rest := s |} = true).
    { unfold nextIsWord. simpl. unfold isWordName in Hn.
      destruct name as [| a name]; [discriminate |]. simpl in Hn.
      rewrite Hs. simpl. apply andb_true_iff in Hn as [Ha _]. exact Ha. }
    rewrite Hnext, xorb_true_r. cbn [andb].
    destruct (isWordOpt p); cbn [negb]; [reflexivity |].
    rewrite matchAt_cat.
    rewrite (matchAt_lit name (String "." (drop (S (String.length name)) s)))
      by exact Hs.
    unfold after. simpl pos. simpl prev.
    rewrite (matchAt_chr_in _ "." (drop (S (String.length name)) s));
      [| reflexivity | reflexivity].
    unfold advance, accept. simpl. reflexivity.
  - cbn [andb]. destruct (xorb _ _); [| reflexivity].
    rewrite matchAt_cat.
    destruct (startsWith name s) eqn:En.
    + pose proof (startsWith_split _ s En) as Hs.
      rewrite (matchAt_lit name (drop (String.length name) s)) by exact Hs.
      apply matchAt_chr_out. unfold after. simpl rest.
      destruct (drop (String.length name) s) as [| b t] eqn:Ed; [reflexivity |].
      simpl. destruct (Ascii.eqb b ".") eqn:Eb; [| reflexivity].
      apply Ascii.eqb_eq in Eb. subst b. exfalso.
      rewrite Hs in Es.
      assert (H : startsWith (name +:+ ".") (name +:+ String "." t) = true).
      { clear. induction name as [| a name IH]; simpl.
        - destruct t; reflexivity.
        - rewrite Ascii.eqb_refl. exact IH. }
      congruence.
    + apply matchAt_lit_fail. exact En.
Qed.

Lemma usageAt_here text name i :
  usageAt text name i <-> usageHere name (charBefore text i) (drop i text) = true.
Proof.
  unfold usageAt, usageHere. rewrite andb_true_iff, negb_true_iff. split.
  - intros [(tail & Ht) Hp]. split; [| exact Hp]. rewrite Ht.
    replace (name +:+ String "." tail) with ((name +:+ ".") +:+ tail)
      by (rewrite append_assoc; reflexivity).
    apply startsWith_append.
  - intros [Hs Hp]. split; [| exact Hp].
    apply startsWith_split in Hs. rewrite append_assoc in Hs. simpl in Hs.
    eexists. exact Hs.
Qed.

Lemma usageAt_in_text text name i : usageAt text name i -> i <= String.length text.
Proof.
  intros [(tail & H) _].
  destruct (Nat.le_gt_cases i (String.length text)) as [Hle | Hgt]; [exact Hle |].
  rewrite drop_all in H by lia. destruct name; discriminate.
Qed.

(** On a name made of word characters, the expression [\bname\.] finds
    the first usage of the name. *)
Lemma exec_usage name text :
  isWordName name = true ->
  match exec (compile (Cat WordBoundary (Cat (lit name) (Chr (Lit "."))))) text with
  | Some m =>
      first (usageAt text name) (index m)
      /\ String.length (matched m) = String.length name + 1
  | None => forall i, ~ usageAt text name i
  end.
Proof.
  intros Hn.
  destruct (exec _ text) as [m |] eqn:E.
  - apply exec_first in E as (y & Hm & Hi & Hmt & Hfirst).
    unfold matchesAt in Hm. rewrite (matchAt_usage name _ _ _ Hn) in Hm.
    destruct (usageHere name _ _) eqn:Eh; [| discriminate].
    inversion Hm. subst y. simpl in Hmt. split; [split |].
    + apply usageAt_here, Eh.
    + intros j Hj. destruct (Nat.le_gt_cases (index m) j) as [H | H]; [exact H |].
      exfalso. specialize (Hfirst j H). unfold matchesAt in Hfirst.
      rewrite (matchAt_usage name _ _ _ Hn) in Hfirst.
      apply usageAt_here in Hj. rewrite Hj in Hfirst. discriminate.
    + rewrite Hmt.
      unfold usageHere in Eh. apply andb_true_iff in Eh as [Es _].
      apply startsWith_split in Es. rewrite Es.
      replace (S (index m + String.length name) - index m)
        with (String.length (name +:+ ".")) by (rewrite length_append; simpl; lia).
      rewrite take_append, length_append. reflexivity.
  - intros i Hi. pose proof (usageAt_in_text _ _ _ Hi) as Hle.
    pose proof (exec_none _ _ E i Hle) as Hnone. unfold matchesAt in Hnone.
    rewrite (matchAt_usage name _ _ _ Hn) in Hnone.
    apply usageAt_here in Hi. rewrite Hi in Hnone. discriminate.
Qed.

Lemma namedImportAt_in_text text modulePath i brace :
  namedImportAt text modulePath i brace -> i <= String.length text.
Proof.
  intros (s1 & l & s2 & s3 & q & q' & tail & H & _).
  destruct (Nat.le_gt_cases i (String.length text)) as [Hle | Hgt]; [exact Hle |].
  rewrite drop_all in H by lia. discriminate.
Qed.

(** The expression matches wherever a named import stands. *)
Lemma import_here text modulePath i brace :
  namedImportAt text modulePath i brace ->
  exists y c, matchesAt (importPattern modulePath) text i = Some (y, c).
Proof.
  intros (s1 & l & s2 & s3 & q & q' & tail & Hd & _ & H1 & Hl & H2 & H3 & Hq & Hq').
  unfold matchesAt, importPattern. rewrite Hd.
  eexists _, _.
  rewrite matchAt_cat. cbv [importBefore seq].
  rewrite matchAt_cat.
  erewrite (matchAt_lit "import"); [| reflexivity]. norm.
  rewrite matchAt_cat.
  eapply (matchAt_star_run Space s1); [reflexivity | exact H1 | reflexivity |]. norm.
  rewrite matchAt_cat.
  erewrite (matchAt_chr_in _ "{"); [| reflexivity | reflexivity].
  cbv [advance pos prev rest]. rewrite matchAt_cat. rewrite matchAt_group.
  eapply (matchAt_star_run _ l); [reflexivity | exact Hl | reflexivity |]. norm.
  rewrite matchAt_cat.
  erewrite (matchAt_chr_in _ "}"); [| reflexivity | reflexivity].
  cbv [advance pos prev rest]. rewrite matchAt_cat.
  eapply (matchAt_star_run Space s2 ("from" +:+ s3 +:+ String q (modulePath +:+ String q' tail)));
    [reflexivity | exact H2 | reflexivity |]. norm.
  rewrite matchAt_cat.
  rewrite (matchAt_lit "from" (s3 +:+ String q (modulePath +:+ String q' tail)));
    [| reflexivity]. norm.
  rewrite matchAt_cat.
  eapply (matchAt_star_run Space s3 (String q (modulePath +:+ String q' tail)));
    [reflexivity | exact H3 | simpl; rewrite (quote_not_space q Hq); reflexivity |]. norm.
  unfold Scanner.quote at 1.
  rewrite (matchAt_chr_in _ q (modulePath +:+ String q' tail)); [| reflexivity | exact Hq].
  cbv [advance pos prev rest]. rewrite matchAt_cat.
  rewrite (matchAt_lit modulePath (String q' tail)); [| reflexivity]. norm.
  unfold Scanner.quote.
  rewrite (matchAt_chr_in _ q' tail); [| reflexivity | exact Hq'].
  reflexivity.
Qed.

(** Where the expression matches, a named import stands; its brace is
    where [indexOf] finds the first brace. *)
Lemma import_there text modulePath i y c :
  i <= String.length text ->
  matchesAt (importPattern modulePath) text i = Some (y, c) ->
  exists brace,
    namedImportAt text modulePath i brace
    /\ indexOf "{" text i = Z.of_nat brace.
Proof.
  intros Hi H. unfold matchesAt in H.
  apply matchAt_sound in H as (w & y' & c' & (Hr & _ & _) & Hl & _).
  simpl rest in Hr. remember (rest y') as tail eqn:Et. clear Et.
  unfold importPattern in Hl. cbv [importBefore seq] in Hl.
  destruct Hl as (w0 & w9 & Hw & Hl & H9).
  destruct Hl as (u1 & v1 & -> & H1 & Hl). apply lang_lit in H1. subst u1.
  destruct Hl as (s1 & v2 & -> & H1 & Hl). apply lang_star_chr in H1.
  destruct Hl as (u3 & v3 & -> & Hb & Hl). apply lang_chr_lit in Hb. subst u3.
  destruct Hl as (l & v4 & -> & H2 & Hl). apply lang_star_chr in H2.
  destruct Hl as (u5 & v5 & -> & Hb & Hl). apply lang_chr_lit in Hb. subst u5.
  destruct Hl as (s2 & v6 & -> & H3 & Hl). apply lang_star_chr in H3.
  destruct Hl as (u7 & v7 & -> & Hb & Hl). apply lang_lit in Hb. subst u7.
  destruct Hl as (s3 & v8 & -> & H4 & (q & -> & Hq)). apply lang_star_chr in H4.
  destruct H9 as (u9 & v9 & -> & Hb & (q' & -> & Hq')). apply lang_lit in Hb. subst u9.
  rewrite Hw in Hr. clear Hw.
  repeat rewrite append_assoc in Hr. simpl in Hr. repeat rewrite append_assoc in Hr.
  simpl in Hr.
  exists (i + 6 + String.length s1). split.
  - exists s1, l, s2, s3, q, q', tail. simpl. repeat split; auto.
  - erewrite (indexOf_char "{" ("import" +:+ s1) _ text i).
    + rewrite length_append. simpl. f_equal. lia.
    + rewrite append_assoc. simpl. exact Hr.
    + rewrite allChars_append. simpl.
      apply (allChars_impl _ _ _ space_not_brace H1).
Qed.

Lemma run_unique (p : ascii -> bool) (u : string) : forall v a b r t,
  allChars p u = true -> allChars p v = true ->
  p a = false -> p b = false ->
  u +:+ String a r = v +:+ String b t -> u = v.
Proof.
  induction u as [| x u IH]; intros [| y v] a b r t Hu Hv Ha Hb H; simpl in *.
  - reflexivity.
  - inversion H. subst. apply andb_true_iff in Hv as [Hv _]. congruence.
  - inversion H. subst. apply andb_true_iff in Hu as [Hu _]. congruence.
  - inversion H. subst. f_equal.
    apply andb_true_iff in Hu as [_ Hu]. apply andb_true_iff in Hv as [_ Hv].
    match goal with E : u +:+ _ = v +:+ _ |- _ => exact (IH v a b r t Hu Hv Ha Hb E) end.
Qed.

Lemma namedImportAt_brace text modulePath i b b' :
  namedImportAt text modulePath i b -> namedImportAt text modulePath i b' -> b = b'.
Proof.
  intros (s1 & l & s2 & s3 & q & q' & tail & Hd & -> & H1 & _)
         (t1 & l' & t2 & t3 & p & p' & tail' & Hd' & -> & H1' & _).
  rewrite Hd in Hd'. simpl in Hd'. inversion Hd' as [He].
  apply (run_unique isWhiteSpace) in He; [subst; reflexivity | assumption .. | |];
    reflexivity.
Qed.

Lemma first_unique (P : nat -> Prop) i j : first P i -> first P j -> i = j.
Proof. intros [Hi Hmin] [Hj Hmin']. apply Nat.le_antisymm; auto. Qed.

(** The notion names one place at most. *)
Lemma isPlace_unique importNode document place place' :
  isPlace importNode document place -> isPlace importNode document place' ->
  place' = place.
Proof.
  unfold isPlace. cbv zeta. destruct (ImportNode.isNamespace importNode).
  - destruct place as [[p t] |], place' as [[p' t'] |]; try reflexivity.
    + intros (-> & i & Hi & ->) (-> & j & Hj & ->).
      rewrite (first_unique _ _ _ Hi Hj). reflexivity.
    + intros (_ & i & [Hi _] & _) Hn. destruct (Hn i Hi).
    + intros Hn (_ & i & [Hi _] & _). destruct (Hn i Hi).
  - destruct place as [[p t] |], place' as [[p' t'] |]; try reflexivity.
    + intros (-> & i & b & Hi & Hb & ->) (-> & j & b' & Hj & Hb' & ->).
      pose proof (first_unique _ _ _ Hi Hj) as E. subst j.
      rewrite (namedImportAt_brace _ _ _ _ _ Hb Hb'). reflexivity.
    + intros (_ & i & b & _ & Hb & _) Hn. destruct (Hn i b Hb).
    + intros Hn (_ & i & b & _ & Hb & _). destruct (Hn i b Hb).
Qed.

(** The expression of [getModuleExports] for a named import finds the
    first named import of the module path. *)
Lemma exec_import modulePath text :
  match exec (compile (importPattern modulePath)) text with
  | Some m =>
      exists brace,
        first (fun j => exists b, namedImportAt text modulePath j b) (index m)
        /\ namedImportAt text modulePath (index m) brace
        /\ indexOf "{" text (index m) = Z.of_nat brace
  | None => forall i brace, ~ namedImportAt text modulePath i brace
  end.
Proof.
  destruct (exec _ text) as [m |] eqn:E.
  - apply exec_first in E as (y & Hm & Hi & _ & Hfirst).
    destruct (import_there _ _ _ _ _ Hi Hm) as (brace & Hb & Hx).
    exists brace. split; [split |]; [eauto | | auto].
    intros j (b & Hj). destruct (Nat.le_gt_cases (index m) j) as [H | H]; [exact H |].
    exfalso. apply import_here in Hj as (y' & c' & Hj).
    rewrite (Hfirst j H) in Hj. discriminate.
  - intros i brace Hi. pose proof (namedImportAt_in_text _ _ _ _ Hi) as Hle.
    apply import_here in Hi as (y & c & Hi).
    rewrite (exec_none _ _ E i Hle) in Hi. discriminate.
Qed.

Section Target.
Variable regExpOther : string -> option RegExp.

Lemma usageRegExp_word name :
  isWordName name = true ->
  usageRegExp regExpOther name
  = Some (compile (Cat WordBoundary (Cat (lit name) (Chr (Lit "."))))).
Proof.
  intros Hn. unfold isWordName in Hn. apply andb_true_iff in Hn as [_ Hw].
  unfold usageRegExp, Fragment.newRegExp. rewrite (parse_word name Hw). reflexivity.
Qed.

(** What [completionTarget] gives for a namespace node. *)
Lemma completionTarget_namespace importNode document h st :
  ImportNode.isNamespace importNode = true ->
  completionTarget regExpOther importNode document h st
  = (match usageRegExp regExpOther (ImportNode.name importNode) with
     | Some re => Returned (placeAfter re document)
     | None => Thrown "SyntaxError"
     end, st, []).
Proof.
  intros Hns. unfold completionTarget. rewrite Hns. cbv zeta.
  rewrite bind_newRegExp. fold (usageRegExp regExpOther (ImportNode.name importNode)).
  destruct (usageRegExp _ _) as [re |]; [| reflexivity].
  unfold placeAfter. destruct (exec re _); reflexivity.
Qed.

(** [completionTarget] finds the place of the text, or that there is none. *)
Lemma completionTarget_isPlace importNode document h st :
  ImportNode.isNamespace importNode = false
  \/ isWordName (ImportNode.name importNode) = true ->
  exists place,
    completionTarget regExpOther importNode document h st = (Returned place, st, [])
    /\ isPlace importNode document place.
Proof.
  intros Hnode. unfold isPlace. cbv zeta.
  destruct (ImportNode.isNamespace importNode) eqn:Hns.
  - destruct Hnode as [Hnode | Hn]; [discriminate |].
    rewrite (completionTarget_namespace _ _ _ _ Hns), (usageRegExp_word _ Hn).
    unfold placeAfter.
    pose proof (exec_usage (ImportNode.name importNode)
                  (TextDocument.getText document) Hn) as He.
    destruct (exec _ _) as [m |].
    + destruct He as [Hf Hl]. eexists. split; [reflexivity |].
      split; [reflexivity |]. exists (index m). split; [exact Hf |].
      rewrite Hl. f_equal. f_equal. lia.
    + eexists. split; [reflexivity | exact He].
  - unfold completionTarget. rewrite Hns. cbv zeta.
    rewrite bind_newRegExp_escaped.
    pose proof (exec_import (ImportNode.modulePath importNode)
                  (TextDocument.getText document)) as He.
    unfold importPattern in He.
    destruct (exec _ _) as [m |].
    + destruct He as (brace & Hf & Hb & Hx). eexists. split; [reflexivity |].
      split; [reflexivity |]. exists (index m), brace.
      split; [exact Hf |]. split; [exact Hb |]. rewrite Hx. reflexivity.
    + eexists. split; [reflexivity | exact He].
Qed.

End Target.

Section Runtime.
Variable regExpOther : string -> option RegExp.
Variable localeCompare : string -> string -> Z.
Variable host : Host.

Abbreviation getModuleExports := (Resolver.getModuleExports regExpOther localeCompare host).

(** The rest of [getModuleExports] once the place is known. *)
Lemma getModuleExports_place document importNode h st place :
  memberCache st !! ImportNode.modulePath importNode = None ->
  result (completionTarget regExpOther importNode document h st) = Returned place ->
  completionFirst host place importNode document h st
    (getModuleExports (Some document) importNode h st).
Proof.
  intros Hc Ht. rewrite (getModuleExports_miss _ _ _ _ _ _ _ Hc).
  destruct (getAlreadyImportedNames_returns regExpOther
              (TextDocument.getText document) (ImportNode.modulePath importNode) h st)
    as (names & ->).
  rewrite Ht. unfold completionFirst. destruct place as [[position trigger] |];
    [| reflexivity].
  cbv zeta.
  destruct (executeCompletionItemProvider host h _ position trigger)
    as [[[| item items] |] | e] eqn:Eo; cbv beta iota zeta.
  - split; [eexists; reflexivity | reflexivity].
  - match goal with |- context [fromCompletions ?a ?b ?n ?i ?m ?d ?h' st] =>
      destruct (fromCompletions_run a b n i m d h' st) as (o & cs & E & Hcs) end.
    rewrite E. pose proof (hover_calls_no_definition cs Hcs) as Hnd.
    destruct o as [ms | e]; unfold calls; simpl; (split; [eexists; reflexivity | exact Hnd]).
  - split; [eexists; reflexivity | reflexivity].
  - split; [eexists; reflexivity | reflexivity].
Qed.

End Runtime.
End PlaceFacts.

(* ================================================================== *)
(** ** Facts: the declarations the expressions of the scanner match *)
(* ================================================================== *)

Module LayoutFacts.
Import JsString Regex vscode Scanner MatchNotions WordNotions ImportNotions.
Import RegexFacts ScannerFacts TargetFacts WordFacts ImportFacts.

Lemma space_not_word a : isWhiteSpace a = true -> isWordChar a = false.
Proof.
  destruct a as [[] [] [] [] [] [] [] []]; vm_compute; intros H;
    first [reflexivity | discriminate H].
Qed.

(** A run of blanks before a text that stops the set does so too, when
    no blank is in the set. *)
Lemma stops_blanks cs b r :
  allChars isWhiteSpace b = true ->
  (forall a, isWhiteSpace a = true -> inSet cs a = false) ->
  stops cs r = true -> stops cs (b +:+ r) = true.
Proof.
  intros Hb Hcs Hr. destruct b as [| a b]; [exact Hr |].
  simpl in *. apply andb_true_iff in Hb as [Ha _]. rewrite (Hcs a Ha). reflexivity.
Qed.

Lemma blank_space blanks i :
  forallb (allChars isWhiteSpace) blanks = true ->
  allChars isWhiteSpace (blank i blanks) = true.
Proof.
  unfold blank. revert i. induction blanks as [| b blanks IH]; intros i H.
  - destruct i; reflexivity.
  - simpl in H. apply andb_true_iff in H as [Hb H]. destruct i; simpl; auto.
Qed.

Lemma truthy_cons s : truthy s = true -> exists a t, s = String a t.
Proof. destruct s as [| a t]; [discriminate | eauto]. Qed.

(** The end of the standard expression: blanks, [from], blanks, and the
    specifier between quotes. *)
Lemma from_star b1 b2 q b m post x c :
  rest x = b1 +:+ "from" +:+ b2 +:+ quoted q (String b m) +:+ post ->
  allChars isWhiteSpace b1 = true ->
  allChars isWhiteSpace b2 = true ->
  memChar q [apos; quot] = true ->
  allChars isSpecifierChar (String b m) = true ->
  matchAt (Cat (Star ws) (Cat (lit "from") (Cat (Star ws)
             (Cat quote (Cat (specifier 3) quote))))) accept x c
  = Some ({| pos := S (S (pos x + String.length b1 + 4 + String.length b2
                          + String.length (String b m)));
             prev := Some q; rest := post |},
          setGroup 3 (String b m) c).
Proof.
  intros Hx H1 H2 Hq Hm.
  rewrite matchAt_cat.
  eapply (matchAt_star_run Space b1); [exact Hx | exact H1 | reflexivity |]. norm.
  rewrite matchAt_cat.
  erewrite (matchAt_lit "from"); [| reflexivity]. norm.
  rewrite matchAt_cat.
  eapply (matchAt_star_run Space b2 (quoted q (String b m) +:+ post));
    [reflexivity | exact H2 | apply stops_quoted, Hq |].
  norm. rewrite specifier_match by assumption.
  first [reflexivity | (f_equal; f_equal; f_equal; simpl; lia)].
Qed.

(** The end of the two other expressions: a blank or more, [from], a
    blank or more, and the specifier between quotes. *)
Lemma from_plus a1 w1 a2 w2 q b m post x c :
  rest x = String a1 w1 +:+ "from" +:+ String a2 w2 +:+ quoted q (String b m) +:+ post ->
  allChars isWhiteSpace (String a1 w1) = true ->
  allChars isWhiteSpace (String a2 w2) = true ->
  memChar q [apos; quot] = true ->
  allChars isSpecifierChar (String b m) = true ->
  matchAt (Cat (Plus ws) (Cat (lit "from") (Cat (Plus ws)
             (Cat quote (Cat (specifier 2) quote))))) accept x c
  = Some ({| pos := S (S (pos x + String.length (String a1 w1) + 4
                          + String.length (String a2 w2)
                          + String.length (String b m)));
             prev := Some q; rest := post |},
          setGroup 2 (String b m) c).
Proof.
  intros Hx H1 H2 Hq Hm.
  rewrite matchAt_cat.
  eapply (matchAt_plus_run Space a1 w1); [exact Hx | exact H1 | reflexivity |]. norm.
  rewrite matchAt_cat.
  erewrite (matchAt_lit "from"); [| reflexivity]. norm.
  rewrite matchAt_cat.
  eapply (matchAt_plus_run Space a2 w2 (quoted q (String b m) +:+ post));
    [reflexivity | exact H2 | apply stops_quoted, Hq |].
  norm. rewrite specifier_match by assumption.
  first [reflexivity | (f_equal; f_equal; f_equal; simpl; lia)].
Qed.

Lemma standard_default a0 w0 a X a1 w1 b2 q b m post i p :
  allChars isWhiteSpace (String a0 w0) = true ->
  allChars isWordChar (String a X) = true ->
  allChars isWhiteSpace (String a1 w1) = true ->
  allChars isWhiteSpace b2 = true ->
  memChar q [apos; quot] = true ->
  allChars isSpecifierChar (String b m) = true ->
  exists y c,
    matchAt standardRegex accept
      {| pos := i; prev := p;
         rest := "import" +:+ String a0 w0 +:+ String a X +:+ String a1 w1 +:+ "from"
                 +:+ b2 +:+ quoted q (String b m) +:+ post |} []
    = Some (y, c)
    /\ getGroup 3 c = Some (String b m).
Proof.
  intros H0 HX H1 H2 Hq Hm.
  pose proof HX as HX'. simpl in HX'. apply andb_true_iff in HX' as [Ha _].
  pose proof H1 as H1'. simpl in H1'. apply andb_true_iff in H1' as [Ha1 _].
  cbv [standardRegex seq].
  eexists _, _. split; [| apply getGroup_set].
  rewrite matchAt_cat.
  erewrite (matchAt_lit "import"); [| reflexivity]. norm.
  rewrite matchAt_cat.
  eapply (matchAt_plus_run Space a0 w0);
    [reflexivity | exact H0 | simpl; rewrite (word_not_space a Ha); reflexivity |].
  norm. rewrite matchAt_cat.
  apply matchAt_opt_take.
  rewrite !matchAt_cat. rewrite matchAt_group.
  eapply (matchAt_plus_run Word a X);
    [reflexivity | exact HX | simpl; rewrite (space_not_word a1 Ha1); reflexivity |]. norm.
  rewrite matchAt_cat.
  eapply (matchAt_star_run Space (String a1 w1)); [reflexivity | exact H1 | reflexivity |]. norm.
  rewrite matchAt_cat.
  rewrite matchAt_opt_skip; [| reflexivity].
  eapply (matchAt_star_run Space EmptyString); [reflexivity | reflexivity | reflexivity |].
  norm. rewrite progress_moved; [| simpl; lia].
  rewrite matchAt_cat.
  rewrite matchAt_opt_skip; [| reflexivity].
  rewrite take_after.
  rewrite (from_star EmptyString b2 q b m post); [reflexivity | reflexivity | reflexivity | assumption ..].
Qed.

Lemma standard_named a0 w0 names b1 b2 q b m post i p :
  allChars isWhiteSpace (String a0 w0) = true ->
  allChars (inSet (NoneOf ["}"%char])) names = true ->
  allChars isWhiteSpace b1 = true ->
  allChars isWhiteSpace b2 = true ->
  memChar q [apos; quot] = true ->
  allChars isSpecifierChar (String b m) = true ->
  exists y c,
    matchAt standardRegex accept
      {| pos := i; prev := p;
         rest := "import" +:+ String a0 w0 +:+ "{" +:+ names +:+ "}" +:+ b1 +:+ "from"
                 +:+ b2 +:+ quoted q (String b m) +:+ post |} []
    = Some (y, c)
    /\ getGroup 3 c = Some (String b m).
Proof.
  intros H0 Hl H1 H2 Hq Hm.
  cbv [standardRegex seq].
  eexists _, _. split; [| apply getGroup_set].
  rewrite matchAt_cat.
  erewrite (matchAt_lit "import"); [| reflexivity]. norm.
  rewrite matchAt_cat.
  eapply (matchAt_plus_run Space a0 w0); [reflexivity | exact H0 | reflexivity |].
  norm. rewrite matchAt_cat.
  rewrite matchAt_opt_skip; [| reflexivity].
  rewrite matchAt_cat.
  apply matchAt_opt_take.
  rewrite !matchAt_cat.
  erewrite (matchAt_chr_in _ "{"); [| reflexivity | reflexivity].
  cbv [advance pos prev rest]. rewrite matchAt_cat. rewrite matchAt_group.
  eapply (matchAt_star_run _ names); [reflexivity | exact Hl | reflexivity |].
  norm.
  erewrite (matchAt_chr_in _ "}"); [| reflexivity | reflexivity].
  cbv [advance pos prev rest].
  rewrite progress_moved; [| simpl; lia].
  rewrite (from_star b1 b2 q b m post);
    [reflexivity | reflexivity | assumption ..].
Qed.

Lemma standard_type a0 w0 names b1 b2 b3 q b m post i p :
  allChars isWhiteSpace (String a0 w0) = true ->
  allChars (inSet (NoneOf ["}"%char])) names = true ->
  allChars isWhiteSpace b1 = true ->
  allChars isWhiteSpace b2 = true ->
  allChars isWhiteSpace b3 = true ->
  memChar q [apos; quot] = true ->
  allChars isSpecifierChar (String b m) = true ->
  exists y c,
    matchAt standardRegex accept
      {| pos := i; prev := p;
         rest := "import" +:+ String a0 w0 +:+ "type" +:+ b1 +:+ "{" +:+ names +:+ "}"
                 +:+ b2 +:+ "from" +:+ b3 +:+ quoted q (String b m) +:+ post |} []
    = Some (y, c)
    /\ getGroup 3 c = Some (String b m).
Proof.
  intros H0 Hl H1 H2 H3 Hq Hm.
  cbv [standardRegex seq].
  eexists _, _. split; [| apply getGroup_set].
  rewrite matchAt_cat.
  erewrite (matchAt_lit "import"); [| reflexivity]. norm.
  rewrite matchAt_cat.
  eapply (matchAt_plus_run Space a0 w0); [reflexivity | exact H0 | reflexivity |].
  norm. rewrite matchAt_cat.
  apply matchAt_opt_take.
  rewrite !matchAt_cat. rewrite matchAt_group.
  eapply (matchAt_plus_run Word "t" "ype"); [reflexivity | reflexivity | |].
  { apply stops_blanks; [exact H1 | apply space_not_word | reflexivity]. }
  norm. rewrite matchAt_cat.
  eapply (matchAt_star_run Space b1); [reflexivity | exact H1 | reflexivity |]. norm.
  rewrite matchAt_cat.
  rewrite matchAt_opt_skip; [| reflexivity].
  eapply (matchAt_star_run Space EmptyString); [reflexivity | reflexivity | reflexivity |].
  norm. rewrite progress_moved; [| simpl; lia].
  rewrite matchAt_cat.
  apply matchAt_opt_take.
  rewrite !matchAt_cat.
  erewrite (matchAt_chr_in _ "{"); [| reflexivity | reflexivity].
  cbv [advance pos prev rest]. rewrite matchAt_cat. rewrite matchAt_group.
  eapply (matchAt_star_run _ names); [reflexivity | exact Hl | reflexivity |].
  norm.
  erewrite (matchAt_chr_in _ "}"); [| reflexivity | reflexivity].
  cbv [advance pos prev rest].
  rewrite progress_moved; [| simpl; lia].
  rewrite (from_star b2 b3 q b m post);
    [reflexivity | reflexivity | assumption ..].
Qed.

Lemma namespace_written a0 w0 a1 w1 a2 w2 a X a3 w3 a4 w4 q b m post i p :
  allChars isWhiteSpace (String a0 w0) = true ->
  allChars isWhiteSpace (String a1 w1) = true ->
  allChars isWhiteSpace (String a2 w2) = true ->
  allChars isWordChar (String a X) = true ->
  allChars isWhiteSpace (String a3 w3) = true ->
  allChars isWhiteSpace (String a4 w4) = true ->
  memChar q [apos; quot] = true ->
  allChars isSpecifierChar (String b m) = true ->
  exists y c,
    matchAt namespaceRegex accept
      {| pos := i; prev := p;
         rest := "import" +:+ String a0 w0 +:+ "*" +:+ String a1 w1 +:+ "as"
                 +:+ String a2 w2 +:+ String a X +:+ String a3 w3 +:+ "from"
                 +:+ String a4 w4 +:+ quoted q (String b m) +:+ post |} []
    = Some (y, c)
    /\ getGroup 2 c = Some (String b m).
Proof.
  intros H0 H1 H2 HX H3 H4 Hq Hm.
  pose proof HX as HX'. simpl in HX'. apply andb_true_iff in HX' as [Ha _].
  pose proof H3 as H3'. simpl in H3'. apply andb_true_iff in H3' as [Ha3 _].
  cbv [namespaceRegex seq].
  eexists _, _. split; [| apply getGroup_set].
  rewrite matchAt_cat.
  erewrite (matchAt_lit "import"); [| reflexivity]. norm.
  rewrite matchAt_cat.
  eapply (matchAt_plus_run Space a0 w0); [reflexivity | exact H0 | reflexivity |].
  norm. rewrite matchAt_cat.
  erewrite (matchAt_chr_in _ "*"); [| reflexivity | reflexivity].
  cbv [advance pos prev rest]. rewrite matchAt_cat.
  eapply (matchAt_plus_run Space a1 w1); [reflexivity | exact H1 | reflexivity |].
  norm. rewrite matchAt_cat.
  erewrite (matchAt_lit "as"); [| reflexivity]. norm.
  rewrite matchAt_cat.
  eapply (matchAt_plus_run Space a2 w2);
    [reflexivity | exact H2 | simpl; rewrite (word_not_space a Ha); reflexivity |].
  norm. rewrite matchAt_cat. rewrite matchAt_group.
  eapply (matchAt_plus_run Word a X);
    [reflexivity | exact HX | simpl; rewrite (space_not_word a3 Ha3); reflexivity |]. norm.
  rewrite take_after.
  rewrite (from_plus a3 w3 a4 w4 q b m post);
    [reflexivity | reflexivity | assumption ..].
Qed.

Lemma type_written a0 w0 a1 w1 names a2 w2 a3 w3 q b m post i p :
  allChars isWhiteSpace (String a0 w0) = true ->
  allChars isWhiteSpace (String a1 w1) = true ->
  allChars (inSet (NoneOf ["}"%char])) names = true ->
  allChars isWhiteSpace (String a2 w2) = true ->
  allChars isWhiteSpace (String a3 w3) = true ->
  memChar q [apos; quot] = true ->
  allChars isSpecifierChar (String b m) = true ->
  exists y c,
    matchAt typeRegex accept
      {| pos := i; prev := p;
         rest := "import" +:+ String a0 w0 +:+ "type" +:+ String a1 w1 +:+ "{"
                 +:+ names +:+ "}" +:+ String a2 w2 +:+ "from" +:+ String a3 w3
                 +:+ quoted q (String b m) +:+ post |} []
    = Some (y, c)
    /\ getGroup 2 c = Some (String b m).
Proof.
  intros H0 H1 Hl H2 H3 Hq Hm.
  cbv [typeRegex seq].
  eexists _, _. split; [| apply getGroup_set].
  rewrite matchAt_cat.
  erewrite (matchAt_lit "import"); [| reflexivity]. norm.
  rewrite matchAt_cat.
  eapply (matchAt_plus_run Space a0 w0); [reflexivity | exact H0 | reflexivity |].
  norm. rewrite matchAt_cat.
  erewrite (matchAt_lit "type"); [| reflexivity]. norm.
  rewrite matchAt_cat.
  eapply (matchAt_plus_run Space a1 w1); [reflexivity | exact H1 | reflexivity |].
  norm. rewrite matchAt_cat.
  erewrite (matchAt_chr_in _ "{"); [| reflexivity | reflexivity].
  cbv [advance pos prev rest]. rewrite matchAt_cat. rewrite matchAt_group.
  eapply (matchAt_star_run _ names); [reflexivity | exact Hl | reflexivity |].
  norm. rewrite matchAt_cat.
  erewrite (matchAt_chr_in _ "}"); [| reflexivity | reflexivity].
  cbv [advance pos prev rest].
  rewrite (from_plus a2 w2 a3 w3 q b m post);
    [reflexivity | reflexivity | assumption ..].
Qed.

Lemma needed_blank blanks l i :
  forallb (allChars isWhiteSpace) blanks = true ->
  forallb (fun i => truthy (blank i blanks)) l = true ->
  In i l ->
  exists a w, blank i blanks = String a w /\ allChars isWhiteSpace (String a w) = true.
Proof.
  intros Hs Hl Hi. rewrite forallb_forall in Hl. specialize (Hl i Hi).
  apply truthy_cons in Hl as (a & w & E). exists a, w. split; [exact E |].
  rewrite <- E. apply blank_space, Hs.
Qed.

(** At the start of a declaration an expression that reads it matches,
    with the module specifier in its last group. *)
Lemma written_match e form blanks q m post i p :
  wellFormed form = true ->
  reads e form blanks = true ->
  memChar q [apos; quot] = true ->
  isSpecifier m = true ->
  exists y c,
    matchAt (expressionOf e) accept
      {| pos := i; prev := p; rest := written form blanks q m +:+ post |} []
    = Some (y, c)
    /\ getGroup (specifierGroup e) c = Some m.
Proof.
  intros Hf Hr Hq Hm. apply isSpecifier_cons in Hm as (b & t & -> & Hm).
  unfold reads in Hr. apply andb_true_iff in Hr as [Hs Hn].
  destruct (needed e form) as [l |] eqn:El; [| discriminate].
  pose proof (blank_space blanks 1 Hs) as S1.
  pose proof (blank_space blanks 2 Hs) as S2.
  pose proof (blank_space blanks 3 Hs) as S3.
  assert (Hb : forall i, In i l ->
    exists a w, blank i blanks = String a w
                /\ allChars isWhiteSpace (String a w) = true).
  { intros j Hj. eapply needed_blank; eauto. }
  destruct e, form as [name | names | name | names]; simpl in El, Hf;
    try discriminate; inversion El; subst l; clear El;
    unfold written, expressionOf, specifierGroup; rewrite !append_assoc.
  - apply isWordName_cons in Hf as (a & X & -> & HX).
    destruct (Hb 0 ltac:(simpl; auto)) as (a0 & w0 & E0 & H0).
    destruct (Hb 1 ltac:(simpl; auto)) as (a1 & w1 & E1 & H1).
    rewrite E0, E1. apply standard_default; assumption.
  - destruct (Hb 0 ltac:(simpl; auto)) as (a0 & w0 & E0 & H0).
    rewrite E0. apply standard_named; assumption.
  - destruct (Hb 0 ltac:(simpl; auto)) as (a0 & w0 & E0 & H0).
    rewrite E0. apply standard_type; assumption.
  - apply isWordName_cons in Hf as (a & X & -> & HX).
    destruct (Hb 0 ltac:(simpl; auto)) as (a0 & w0 & E0 & H0).
    destruct (Hb 1 ltac:(simpl; auto)) as (a1 & w1 & E1 & H1).
    destruct (Hb 2 ltac:(simpl; auto)) as (a2 & w2 & E2 & H2).
    destruct (Hb 3 ltac:(simpl; auto 10)) as (a3 & w3 & E3 & H3).
    destruct (Hb 4 ltac:(simpl; auto 10)) as (a4 & w4 & E4 & H4).
    rewrite E0, E1, E2, E3, E4. apply namespace_written; assumption.
  - destruct (Hb 0 ltac:(simpl; auto)) as (a0 & w0 & E0 & H0).
    destruct (Hb 1 ltac:(simpl; auto)) as (a1 & w1 & E1 & H1).
    destruct (Hb 2 ltac:(simpl; auto)) as (a2 & w2 & E2 & H2).
    destruct (Hb 3 ltac:(simpl; auto 10)) as (a3 & w3 & E3 & H3).
    rewrite E0, E1, E2, E3. apply type_written; assumption.
Qed.

Lemma expression_import e : exists r', expressionOf e = Cat (lit "import") r'.
Proof. destruct e; eexists; reflexivity. Qed.

(** The text with one blank everywhere. *)
Lemma written_single form q m : written form singleBlanks q m = declaration form q m.
Proof. destruct form; reflexivity. Qed.

End LayoutFacts.

(* ================================================================== *)
(** ** Facts: what the operations of the provider do to the cache *)
(* ================================================================== *)

Module BetweenFacts.
Import JsString Regex vscode Run Scanner Resolver Notions MatchNotions WordNotions
  ImportNotions PlaceNotions StateNotions.
Import RunFacts RegexFacts ScannerFacts ResolverFacts ResolverCalls TargetFacts WordFacts
  ImportFacts PlaceFacts.

Section Runtime.
Variable regExpOther : string -> option RegExp.
Variable localeCompare : string -> string -> Z.
Variable host : Host.

Abbreviation getModuleExports := (Resolver.getModuleExports regExpOther localeCompare host).
Abbreviation getChildren := (Resolver.getChildren regExpOther localeCompare host).
Abbreviation perform := (StateNotions.perform regExpOther localeCompare host).
Abbreviation performAll := (StateNotions.performAll regExpOther localeCompare host).

(** The state [getChildren] leaves. *)
Lemma perform_getChildren editor element h st :
  stateAfter (perform (GetChildren editor element) h st)
  = match element with
    | Some (Import importNode) => stateAfter (getModuleExports editor importNode h st)
    | _ => st
    end.
Proof.
  unfold StateNotions.perform, Resolver.getChildren.
  destruct element as [[importNode | member] |]; try reflexivity.
  unfold bind.
  destruct (Resolver.getModuleExports regExpOther localeCompare host editor importNode h st)
    as [[[ms | e] st1] cs]; reflexivity.
Qed.

Lemma getModuleExports_keeps editor importNode h st k members :
  memberCache st !! k = Some members ->
  memberCache (stateAfter (getModuleExports editor importNode h st)) !! k = Some members.
Proof.
  intros Hk.
  destruct (getModuleExports_cache regExpOther localeCompare host editor importNode h st)
    as (ms & _ & _ & _ & [[Hst _] | Hst]); [rewrite Hst; exact Hk |].
  destruct (memberCache st !! ImportNode.modulePath importNode) as [ms' |] eqn:Hc.
  - rewrite (getModuleExports_hit _ _ _ _ _ _ _ ms' Hc). exact Hk.
  - rewrite Hst. unfold withCache. simpl. rewrite lookup_insert_ne; [exact Hk |].
    intros E. rewrite E in Hc. congruence.
Qed.

Lemma getModuleExports_other editor importNode h st k :
  ImportNode.modulePath importNode <> k ->
  memberCache (stateAfter (getModuleExports editor importNode h st)) !! k
  = memberCache st !! k.
Proof.
  intros Hne.
  destruct (getModuleExports_cache regExpOther localeCompare host editor importNode h st)
    as (ms & _ & _ & _ & [[Hst _] | Hst]); rewrite Hst; [reflexivity |].
  unfold withCache. simpl. apply lookup_insert_ne. exact Hne.
Qed.

Lemma perform_keeps k op h st members :
  keepsMembersOf k op = true ->
  memberCache st !! k = Some members ->
  memberCache (stateAfter (perform op h st)) !! k = Some members.
Proof.
  intros Hop Hk. destruct op as [| packageName | editor element]; simpl in Hop.
  - discriminate.
  - apply negb_true_iff, String.eqb_neq in Hop.
    unfold StateNotions.perform, addPackage. rewrite bind_get.
    destruct (existsb _ _); simpl; [exact Hk |].
    rewrite lookup_delete_ne; [exact Hk | exact Hop].
  - rewrite perform_getChildren.
    destruct element as [[importNode | member] |]; try exact Hk.
    apply getModuleExports_keeps, Hk.
Qed.

Lemma performAll_keeps k ops : forall h st members,
  forallb (keepsMembersOf k) ops = true ->
  memberCache st !! k = Some members ->
  memberCache (performAll ops h st) !! k = Some members.
Proof.
  induction ops as [| op ops IH]; intros h st members Hops Hk; [exact Hk |].
  simpl in Hops. apply andb_true_iff in Hops as [Hop Hops].
  simpl. apply IH; [exact Hops |]. apply perform_keeps; assumption.
Qed.

Lemma perform_misses k op h st :
  resolves k op = false ->
  memberCache st !! k = None ->
  memberCache (stateAfter (perform op h st)) !! k = None.
Proof.
  intros Hop Hk. destruct op as [| packageName | editor element]; simpl in Hop.
  - simpl. apply lookup_empty.
  - unfold StateNotions.perform, addPackage. rewrite bind_get.
    destruct (existsb _ _); simpl; [exact Hk |].
    apply lookup_delete_None. right. exact Hk.
  - rewrite perform_getChildren.
    destruct element as [[importNode | member] |]; try exact Hk.
    apply String.eqb_neq in Hop.
    rewrite getModuleExports_other; [exact Hk | exact Hop].
Qed.

Lemma performAll_misses k ops : forall h st,
  forallb (fun op => negb (resolves k op)) ops = true ->
  memberCache st !! k = None ->
  memberCache (performAll ops h st) !! k = None.
Proof.
  induction ops as [| op ops IH]; intros h st Hops Hk; [exact Hk |].
  simpl in Hops. apply andb_true_iff in Hops as [Hop Hops].
  apply negb_true_iff in Hop.
  simpl. apply IH; [exact Hops |]. apply perform_misses; assumption.
Qed.

(** The packages added by hand are never taken away. *)
Lemma perform_manual op h st :
  exists added,
    manualPackages (stateAfter (perform op h st)) = manualPackages st ++ added.
Proof.
  destruct op as [| packageName | editor element].
  - exists []. simpl. rewrite app_nil_r. reflexivity.
  - unfold StateNotions.perform, addPackage. rewrite bind_get.
    destruct (existsb _ _); simpl; [exists []; rewrite app_nil_r; reflexivity |].
    eexists. reflexivity.
  - rewrite perform_getChildren. exists []. rewrite app_nil_r.
    destruct element as [[importNode | member] |]; try reflexivity.
    destruct (getModuleExports_cache regExpOther localeCompare host editor importNode h st)
      as (ms & _ & Hm & _). exact Hm.
Qed.

Lemma performAll_manual ops : forall h st,
  exists added, manualPackages (performAll ops h st) = manualPackages st ++ added.
Proof.
  induction ops as [| op ops IH]; intros h st.
  - exists []. simpl. rewrite app_nil_r. reflexivity.
  - simpl. destruct (IH (h ++ calls (perform op h st)) (stateAfter (perform op h st)))
      as (added & Ha).
    destruct (perform_manual op h st) as (added0 & H0).
    exists (added0 ++ added). rewrite Ha, H0, app_assoc. reflexivity.
Qed.

(** Without an entry in the cache, with an editor and a place that can be
    looked for, the first thing the resolver does is to ask the host. *)
Lemma getModuleExports_queries document importNode h st :
  memberCache st !! ImportNode.modulePath importNode = None ->
  (ImportNode.isNamespace importNode = true ->
   usageRegExp regExpOther (ImportNode.name importNode) <> None) ->
  exists c cs,
    calls (getModuleExports (Some document) importNode h st) = c :: cs
    /\ (isCompletionRequest (request c) || isDefinitionRequest (request c)) = true.
Proof.
  intros Hc Hre.
  assert (Hplace : exists place,
    result (completionTarget regExpOther importNode document h st) = Returned place).
  { destruct (ImportNode.isNamespace importNode) eqn:Hns.
    - rewrite (completionTarget_namespace _ _ _ _ _ Hns).
      destruct (usageRegExp _ _) as [re |]; [eexists; reflexivity |].
      exfalso. apply Hre; reflexivity.
    - destruct (completionTarget_isPlace regExpOther importNode document h st
                  (or_introl Hns)) as (place & Ht & _).
      exists place. rewrite Ht. reflexivity. }
  destruct Hplace as (place & Ht).
  rewrite (getModuleExports_miss _ _ _ _ _ _ _ Hc).
  destruct (getAlreadyImportedNames_returns regExpOther
              (TextDocument.getText document) (ImportNode.modulePath importNode) h st)
    as (names & ->).
  rewrite Ht. destruct place as [[position trigger] |].
  - cbv zeta.
    destruct (executeCompletionItemProvider host h _ position trigger)
      as [[[| item items] |] | e]; cbv beta iota zeta.
    + eexists _, _. split; reflexivity.
    + match goal with |- context [fromCompletions ?a ?b ?n ?i ?m ?d ?h' st] =>
        destruct (fromCompletions a b n i m d h' st) as [[[ms | e] st'] cs] end;
        eexists _, _; split; reflexivity.
    + eexists _, _. split; reflexivity.
    + eexists _, _. split; reflexivity.
  - destruct (getExportsViaDefinition_run host importNode document h st)
      as (ms & st' & b & cs & E & _). rewrite E. eexists _, _. split; reflexivity.
Qed.

End Runtime.
End BetweenFacts.

(* ================================================================== *)
(** ** The claims of the specification *)
(* ================================================================== *)

Import JsString Regex vscode Run Resolver Notions MatchNotions WordNotions PlaceNotions
  ImportNotions StateNotions Examples.
Import RunFacts RegexFacts ScannerFacts ResolverFacts ResolverCalls TargetFacts ExtensionFacts
  WordFacts ImportFacts PlaceFacts LayoutFacts BetweenFacts.

Section Claims.
Variable regExpOther : string -> option RegExp.
Variable localeCompare : string -> string -> Z.
Variable host : Host.

Abbreviation getModuleExports := (Resolver.getModuleExports regExpOther localeCompare host).
Abbreviation getChildren := (Resolver.getChildren regExpOther localeCompare host).
Abbreviation performAll := (StateNotions.performAll regExpOther localeCompare host).


(** C2. Whatever the document of the active editor and the packages added
    by hand, no two nodes of the list [findImportedModules] returns have
    the same [modulePath]; a module path imported by several statements, or
    imported and added by hand, gives one node. *)
Theorem C2_scanner_result_has_no_duplicate (editor : option TextDocument.t)
    (manualPackages : list ImportNode.t) :
  NoDup (map ImportNode.modulePath
           (Scanner.findImportedModules editor manualPackages)).
Proof.
  destruct editor as [document |]; simpl; [| constructor].
  rewrite wellKeyed_values by apply scan_wellKeyed.
  apply scan_wellKeyed.
Qed.

(** C3, as amended. When a call of [getModuleExports] leaves a member list
    in the cache under the module path, that list is what the call
    returned; and after any operations of the provider other than
    [refresh] and [addPackage] of that module path (calls of [getChildren]
    for any element, [addPackage] of other names), the next call for the
    same module path, whatever the editor and the answers of the host,
    returns that list, changes nothing and calls no host. A call that
    returned a list that is not empty always left it in the cache. *)
Theorem C3_cached_members_are_returned (editor editor' : option TextDocument.t)
    (importNode importNode' : ImportNode.t) (ops : list Operation)
    (h h1 h' : list HostCall) (st : Provider) :
  ImportNode.modulePath importNode' = ImportNode.modulePath importNode ->
  forallb (keepsMembersOf (ImportNode.modulePath importNode)) ops = true ->
  let r1 := getModuleExports editor importNode h st in
  let st2 := performAll ops h1 (stateAfter r1) in
  let r2 := getModuleExports editor' importNode' h' st2 in
  (forall members,
      memberCache (stateAfter r1) !! ImportNode.modulePath importNode = Some members ->
      result r1 = Returned members /\ r2 = (Returned members, st2, []))
  /\ (forall m members,
        result r1 = Returned (m :: members) ->
        r2 = (Returned (m :: members), st2, [])).
Proof.
  intros Hp Hops. cbv zeta.
  assert (Hcached : forall members,
    memberCache (stateAfter (getModuleExports editor importNode h st))
      !! ImportNode.modulePath importNode = Some members ->
    result (getModuleExports editor importNode h st) = Returned members).
  { intros members Hl.
    destruct (memberCache st !! ImportNode.modulePath importNode) as [ms |] eqn:Hc.
    - rewrite (getModuleExports_hit _ _ _ _ _ _ _ ms Hc) in *.
      unfold stateAfter in Hl. simpl in Hl. rewrite Hc in Hl. inversion Hl. reflexivity.
    - destruct (getModuleExports_cache regExpOther localeCompare host editor importNode h st)
        as (ms & Hr & _ & _ & [[Hst _] | Hst]); rewrite Hst in Hl.
      + congruence.
      + unfold withCache in Hl. simpl in Hl. rewrite lookup_insert_eq in Hl.
        inversion Hl. subst ms. exact Hr. }
  assert (Hlater : forall members,
    memberCache (stateAfter (getModuleExports editor importNode h st))
      !! ImportNode.modulePath importNode = Some members ->
    getModuleExports editor' importNode' h'
      (performAll ops h1 (stateAfter (getModuleExports editor importNode h st)))
    = (Returned members,
       performAll ops h1 (stateAfter (getModuleExports editor importNode h st)), [])).
  { intros members Hl. apply getModuleExports_hit. rewrite Hp.
    apply performAll_keeps; assumption. }
  split.
  - intros members Hl. split; [apply Hcached, Hl | apply Hlater, Hl].
  - intros m members Hr. apply Hlater.
    destruct (getModuleExports_cache regExpOther localeCompare host editor importNode h st)
      as (ms & Hr' & _ & _ & [[Hst [Hms | Hms]] | Hst]).
    + congruence.
    + rewrite Hst. congruence.
    + rewrite Hst. unfold withCache. simpl. rewrite lookup_insert_eq. congruence.
Qed.

(** C4, as amended. [getModuleExports] never throws. It returns the empty
    list whenever a call of the completion, definition or document symbol
    provider threw, and whenever any call threw in a resolution that went
    to the definition provider. (A hover call that throws while the
    completion items are processed is ignored: the member is built without
    documentation.) *)
Theorem C4_thrown_calls_give_no_members (editor : option TextDocument.t)
    (importNode : ImportNode.t) (h : list HostCall) (st : Provider) :
  let r := getModuleExports editor importNode h st in
  (exists members, result r = Returned members)
  /\ (forall c, In c (calls r) -> threw c = true ->
        isHoverRequest (request c) = false -> result r = Returned [])
  /\ (forall c, In c (calls r) -> threw c = true ->
        existsb (fun d => isDefinitionRequest (request d)) (calls r) = true ->
        result r = Returned []).
Proof.
  cbv zeta. split.
  { destruct (getModuleExports_cache regExpOther localeCompare host editor importNode h st)
      as (ms & Hr & _). eauto. }
  destruct (memberCache st !! ImportNode.modulePath importNode) as [ms |] eqn:Hc.
  { rewrite (getModuleExports_hit _ _ _ _ _ _ _ ms Hc). split; intros c []. }
  destruct editor as [document |].
  2: { rewrite (getModuleExports_no_editor _ _ _ _ _ _ Hc). split; intros c []. }
  rewrite (getModuleExports_miss _ _ _ _ _ _ _ Hc).
  destruct (result (getAlreadyImportedNames _ _ _ _ _)) as [names | e];
    [| split; intros c []].
  destruct (result (completionTarget _ _ _ _ _)) as [[[position triggerChar] |] | e];
    [| | split; intros c []].
  2: { split; intros c Hin Ht _; eapply getExportsViaDefinition_threw; eauto. }
  cbv zeta.
  destruct (executeCompletionItemProvider host h _ position triggerChar)
    as [[[| item items] |] | e]; cbv beta iota zeta.
  - split; intros c [Hin | Hin] Ht _;
      try (subst c; simpl in Ht; discriminate);
      eapply getExportsViaDefinition_threw; eauto.
  - match goal with |- context [fromCompletions ?a ?b ?n ?i ?m ?d ?h' st] =>
      destruct (fromCompletions_run a b n i m d h' st) as (o & cs & E & Hcs) end.
    rewrite E. pose proof (hover_calls_no_definition cs Hcs) as Hnd.
    rewrite Forall_forall in Hcs.
    destruct o as [ms | e]; unfold result, calls; simpl; split;
      intros c [Hin | Hin] Ht Hq; try reflexivity;
      try (subst c; simpl in Ht; discriminate);
      try (apply list_elem_of_In in Hin; rewrite (Hcs c Hin) in Hq; discriminate);
      try (rewrite Hnd in Hq; discriminate).
  - split; intros c [Hin | Hin] Ht _;
      try (subst c; simpl in Ht; discriminate);
      eapply getExportsViaDefinition_threw; eauto.
  - split; intros; reflexivity.
Qed.

(** C5. [getChildren] without an element returns the nodes of the import
    scanner as module nodes, changes nothing and calls no host; with a
    module node it runs [getModuleExports] and returns its members as
    member nodes; with a member node it returns the empty list, changes
    nothing and calls no host. *)
Theorem C5_getChildren_control_flow (editor : option TextDocument.t)
    (h : list HostCall) (st : Provider) :
  getChildren editor None h st
  = (Returned (map Import (Scanner.findImportedModules editor (manualPackages st))),
     st, [])
  /\ (forall importNode,
        let r := getModuleExports editor importNode h st in
        exists members,
          result r = Returned members
          /\ getChildren editor (Some (Import importNode)) h st
             = (Returned (map Member members), stateAfter r, calls r))
  /\ (forall member,
        getChildren editor (Some (Member member)) h st = (Returned [], st, [])).
Proof.
  split; [reflexivity | split; [| reflexivity]].
  intros importNode. cbv zeta.
  destruct (getModuleExports_cache regExpOther localeCompare host editor importNode h st)
    as (ms & Hr & _).
  exists ms. split; [exact Hr |]. unfold Resolver.getChildren, bind.
  destruct (getModuleExports editor importNode h st) as [[o st'] cs].
  unfold result, stateAfter, calls in *. simpl in *. subst o.
  rewrite app_nil_r. reflexivity.
Qed.


(** C10, as amended. [refresh] returns without calling the host, leaves
    the member cache empty and leaves the list of the packages added by
    hand as it was, however many times it runs; no operation of the
    provider ever takes a package out of that list. After [refresh], and
    until the exports of a module path are resolved again, a call of
    [getModuleExports] for that module path made with an active editor,
    for a node whose place can be looked for (any node but a namespace
    node whose name makes an expression the [RegExp] constructor
    refuses), is not answered from the cache: its first act is a request
    to the host, for the completion items or for the definition. *)
Theorem C10_refresh_clears_cache_keeps_packages (h : list HostCall) (st : Provider) :
  let r := refresh h st in
  result r = Returned tt
  /\ calls r = []
  /\ memberCache (stateAfter r) = ∅
  /\ manualPackages (stateAfter r) = manualPackages st
  /\ (forall hs : list (list HostCall),
        manualPackages (fold_left (fun s h' => stateAfter (refresh h' s)) hs st)
        = manualPackages st)
  /\ (forall ops h1,
        exists added, manualPackages (performAll ops h1 st) = manualPackages st ++ added)
  /\ (forall ops h1 document importNode h',
        forallb (fun op => negb (resolves (ImportNode.modulePath importNode) op)) ops
        = true ->
        (ImportNode.isNamespace importNode = true ->
         usageRegExp regExpOther (ImportNode.name importNode) <> None) ->
        let r2 := getModuleExports (Some document) importNode h'
                    (performAll ops h1 (stateAfter r)) in
        exists c cs,
          calls r2 = c :: cs
          /\ (isCompletionRequest (request c) || isDefinitionRequest (request c)) = true).
Proof.
  cbv zeta. repeat split.
  - intros hs. revert st. induction hs as [| h1 hs IH]; intros st; simpl; [reflexivity |].
    rewrite IH. reflexivity.
  - intros ops h1. apply performAll_manual.
  - intros ops h1 document importNode h' Hops Hre.
    apply getModuleExports_queries; [| exact Hre].
    apply performAll_misses; [exact Hops |]. simpl. apply lookup_empty.
Qed.

End Claims.

(** C6, as amended. Take a document that holds an import declaration of
    one of the four forms, [import X from 'm'], [import {names} from 'm'],
    [import * as X from 'm'] or [import type {names} from 'm'], written
    with any white space (blanks, tabs, line breaks) between its parts,
    where [X] is made of word characters, the brace list holds no closing
    brace and the specifier [m] is not empty and holds no quote. Take one
    of the three expressions of the scanner that reads the declaration:
    the standard expression, when white space follows [import] and, for a
    default import, [X]; the namespace expression or the type expression,
    for its form, when white space stands between all the parts. If no
    earlier match of that expression runs over the start of the
    declaration, the result of the scanner holds a node whose [modulePath]
    is [m]. *)
Theorem C6_import_is_found (document : TextDocument.t)
    (manualPackages : list ImportNode.t) (e : Expression) (form : ImportForm)
    (blanks : list string) (q : ascii) (m pre post : string) :
  wellFormed form = true ->
  reads e form blanks = true ->
  memChar q [apos; quot] = true ->
  isSpecifier m = true ->
  TextDocument.getText document = pre +:+ written form blanks q m +:+ post ->
  clearBefore (expressionOf e) (TextDocument.getText document) (String.length pre) = true ->
  exists node,
    In node (Scanner.findImportedModules (Some document) manualPackages)
    /\ ImportNode.modulePath node = m.
Proof.
  intros Hf Hr Hq Hm Ht Hclear. apply scan_node.
  destruct (written_match e form blanks q m post (String.length pre)
              (charBefore (TextDocument.getText document) (String.length pre)) Hf Hr Hq Hm)
    as (y & c & Hy & Hg).
  assert (Hat : matchesAt (expressionOf e) (TextDocument.getText document)
                  (String.length pre) = Some (y, c)).
  { unfold matchesAt. rewrite Ht at 2. rewrite drop_append_length. exact Hy. }
  assert (Hn : String.length pre <= String.length (TextDocument.getText document)).
  { rewrite Ht, length_append. lia. }
  destruct (expression_import e) as (r' & Er).
  destruct (execAll_reaches _ r' _ _ y c Er Hn Hat Hclear) as (r & Hin & _ & Hc).
  apply (scan_has document m manualPackages r).
  destruct e; simpl in *; unfold group; rewrite Hc; auto.
Qed.

(** C8. When the list of the packages added by hand already has a node with
    the module path [packageName], [addPackage packageName] changes nothing
    (no field of the provider, no event). Hence a second call with the same
    name changes nothing: the list after two calls is the list after one. *)
Theorem C8_addPackage_idempotent (packageName : string) (h h' : list HostCall)
    (st : Provider) :
  let once := addPackage packageName h st in
  (In packageName (map ImportNode.modulePath (manualPackages st)) ->
   once = (Returned tt, st, []))
  /\ addPackage packageName h' (stateAfter once) = (Returned tt, stateAfter once, [])
  /\ manualPackages (stateAfter (addPackage packageName h' (stateAfter once)))
     = manualPackages (stateAfter once).
Proof.
  cbv zeta.
  assert (Hin : forall st0 h0,
    existsb (fun p => String.eqb (ImportNode.modulePath p) packageName)
      (manualPackages st0) = true ->
    addPackage packageName h0 st0 = (Returned tt, st0, [])).
  { intros st0 h0 H. unfold addPackage. rewrite bind_get, H. reflexivity. }
  assert (Hex : forall l, In packageName (map ImportNode.modulePath l) ->
    existsb (fun p => String.eqb (ImportNode.modulePath p) packageName) l = true).
  { intros l Hl. apply existsb_exists. apply in_map_iff in Hl as (p & Hp & Hl).
    exists p. split; [exact Hl |]. rewrite Hp. apply String.eqb_refl. }
  assert (Hsnd : addPackage packageName h' (stateAfter (addPackage packageName h st))
                 = (Returned tt, stateAfter (addPackage packageName h st), [])).
  { apply Hin.
    destruct (existsb (fun p => String.eqb (ImportNode.modulePath p) packageName)
                (manualPackages st)) eqn:E.
    - rewrite (Hin st h E). exact E.
    - unfold addPackage at 1. rewrite bind_get, E. simpl.
      rewrite existsb_app. simpl. rewrite String.eqb_refl. apply orb_true_r. }
  repeat split.
  - intros Hl. apply Hin, Hex, Hl.
  - exact Hsnd.
  - rewrite Hsnd. reflexivity.
Qed.


(* ------------------------------------------------------------------ *)
(** *** The claims at concrete inputs *)
(* ------------------------------------------------------------------ *)

Import MoreExamples.



(** C3 as stated fails when the first call found nothing: nothing is left
    in the cache, the second call asks the host again, and here it returns
    another list. *)
Lemma C3_counterexample_empty_result_not_cached :
  let r1 := Resolver.getModuleExports noOtherRegExp compareCodeUnits warmingHost
              (Some defaultImportOfM) nodeM [] emptyProvider in
  let r2 := Resolver.getModuleExports noOtherRegExp compareCodeUnits warmingHost
              (Some defaultImportOfM) nodeM (calls r1) (stateAfter r1) in
  result r1 = Returned []
  /\ result r2 = Returned [functionMember "f" None]
  /\ map request (calls r2)
     = [DefinitionRequest (Uri.parse "file:///example.ts")
          {| Position.line := 0; Position.character := 0 |};
        DocumentSymbolRequest (Uri.parse "file:///m.d.ts");
        HoverRequest (Uri.parse "file:///m.d.ts")
          {| Position.line := 0; Position.character := 0 |}].
Proof. vm_compute. repeat split. Qed.

(** C3 at a first call that went through the completion items; before
    the second call, made when no editor is active any more, the tree asks
    for its root and for the members of another module, and a package is
    added by hand. *)
Lemma C3_witness :
  let r1 := Resolver.getModuleExports noOtherRegExp compareCodeUnits hoveringHost
              (Some namedImportOfM) nodeM [] emptyProvider in
  let ops := [GetChildren (Some twoImports) None; AddPackage "lodash";
              GetChildren (Some twoImports) (Some (Import nodeX))] in
  let st2 := StateNotions.performAll noOtherRegExp compareCodeUnits hoveringHost ops
               (calls r1) (stateAfter r1) in
  ImportNode.modulePath nodeM = ImportNode.modulePath nodeM
  /\ forallb (keepsMembersOf (ImportNode.modulePath nodeM)) ops = true
  /\ Resolver.getModuleExports noOtherRegExp compareCodeUnits hoveringHost
       None nodeM [] st2
     = (Returned [functionMember "foo" (Some "x")], st2, []).
Proof.
  cbv zeta. split; [reflexivity |]. split; [reflexivity |].
  apply (proj2 (C3_cached_members_are_returned noOtherRegExp compareCodeUnits
                  hoveringHost (Some namedImportOfM) None nodeM nodeM
                  [GetChildren (Some twoImports) None; AddPackage "lodash";
                   GetChildren (Some twoImports) (Some (Import nodeX))]
                  []
                  (calls (Resolver.getModuleExports noOtherRegExp compareCodeUnits
                            hoveringHost (Some namedImportOfM) nodeM [] emptyProvider))
                  [] emptyProvider eq_refl eq_refl)).
  vm_compute. reflexivity.
Defined.

(** C4 as stated fails when the hover provider throws while the completion
    items are processed: the member is returned, without documentation. *)
Lemma C4_counterexample_hover_error_ignored :
  let r := Resolver.getModuleExports noOtherRegExp compareCodeUnits hoverFailsHost
             (Some namedImportOfM) nodeM [] emptyProvider in
  result r = Returned [functionMember "foo" None]
  /\ calls r
     = [{| request := CompletionItemRequest (Uri.parse "file:///example.ts")
                        {| Position.line := 0; Position.character := 8 |} None;
           threw := false |};
        {| request := HoverRequest (Uri.parse "file:///example.ts")
                        {| Position.line := 0; Position.character := 9 |};
           threw := true |}].
Proof. vm_compute. repeat split. Qed.

(** C4 at a completion provider that throws. *)
Lemma C4_witness :
  let c := {| request := CompletionItemRequest (Uri.parse "file:///example.ts")
                           {| Position.line := 0; Position.character := 8 |} None;
              threw := true |} in
  let r := Resolver.getModuleExports noOtherRegExp compareCodeUnits completionFailsHost
             (Some namedImportOfM) nodeM [] emptyProvider in
  In c (calls r) /\ threw c = true /\ isHoverRequest (request c) = false
  /\ result r = Returned [].
Proof.
  cbv zeta.
  assert (Hin : In {| request := CompletionItemRequest (Uri.parse "file:///example.ts")
                                   {| Position.line := 0; Position.character := 8 |} None;
                      threw := true |}
                  (calls (Resolver.getModuleExports noOtherRegExp compareCodeUnits
                            completionFailsHost (Some namedImportOfM) nodeM []
                            emptyProvider))).
  { vm_compute. left. reflexivity. }
  split; [exact Hin | split; [reflexivity | split; [reflexivity |]]].
  exact (proj1 (proj2 (C4_thrown_calls_give_no_members noOtherRegExp compareCodeUnits
                         completionFailsHost (Some namedImportOfM) nodeM [] emptyProvider))
           _ Hin eq_refl eq_refl).
Defined.

(** C6 as stated fails in three ways. At a document that holds
    [import X from 'm'] after a string that looks like the start of an
    import declaration, the match that starts in the string runs over the
    declaration, and the only node has another module path. A named
    import without a blank after [import], and a default import whose
    name is no word for the expressions, give no node at all. *)
Lemma C6_counterexample_declarations_not_found :
  let text := TextDocument.getText importInString in
  text = "const s = " +:+ String quot ("import z from " +:+ String quot "; ")
         +:+ written (DefaultImport "X") singleBlanks apos "m" +:+ EmptyString
  /\ wellFormed (DefaultImport "X") = true
  /\ reads Standard (DefaultImport "X") singleBlanks = true
  /\ isSpecifier "m" = true
  /\ map ImportNode.modulePath (Scanner.findImportedModules (Some importInString) [])
     = ["; import X from "]
  /\ clearBefore (expressionOf Standard) text 28 = false
  /\ TextDocument.getText importWithoutBlank
     = written (NamedImport "X") [EmptyString; " "; " "] apos "m"
  /\ Scanner.findImportedModules (Some importWithoutBlank) [] = []
  /\ TextDocument.getText importOfDollar
     = written (DefaultImport "$") singleBlanks apos "jquery"
  /\ Scanner.findImportedModules (Some importOfDollar) [] = [].
Proof. vm_compute. repeat split. Qed.

(** C6 at the second declaration of a document, a named import written
    over five lines. *)
Lemma C6_witness :
  let pre := "import a from 'x'" +:+ String lf EmptyString in
  let names := String lf ("  b" +:+ String lf EmptyString) in
  let blanks := ["  "; "  "; String lf EmptyString] in
  wellFormed (NamedImport names) = true
  /\ reads Standard (NamedImport names) blanks = true
  /\ memChar apos [apos; quot] = true
  /\ isSpecifier "m" = true
  /\ TextDocument.getText importOverLines
     = pre +:+ written (NamedImport names) blanks apos "m" +:+ EmptyString
  /\ clearBefore (expressionOf Standard) (TextDocument.getText importOverLines)
       (String.length pre) = true
  /\ exists node,
       In node (Scanner.findImportedModules (Some importOverLines) [])
       /\ ImportNode.modulePath node = "m".
Proof.
  cbv zeta.
  assert (Hclear : clearBefore (expressionOf Standard)
                     (TextDocument.getText importOverLines)
                     (String.length ("import a from 'x'" +:+ String lf EmptyString))
                   = true) by (vm_compute; reflexivity).
  split; [reflexivity | split; [reflexivity | split; [reflexivity |]]].
  split; [reflexivity | split; [reflexivity | split; [exact Hclear |]]].
  exact (C6_import_is_found importOverLines [] Standard
           (NamedImport (String lf ("  b" +:+ String lf EmptyString)))
           ["  "; "  "; String lf EmptyString] apos "m"
           ("import a from 'x'" +:+ String lf EmptyString) EmptyString
           eq_refl eq_refl eq_refl eq_refl eq_refl Hclear).
Defined.



(** C8 at a package that is in the list. *)
Lemma C8_witness :
  let st := stateAfter (addPackage "lodash" [] emptyProvider) in
  In "lodash" (map ImportNode.modulePath (manualPackages st))
  /\ addPackage "lodash" [] st = (Returned tt, st, []).
Proof.
  cbv zeta.
  assert (Hin : In "lodash"
                  (map ImportNode.modulePath
                     (manualPackages (stateAfter (addPackage "lodash" [] emptyProvider))))).
  { vm_compute. left. reflexivity. }
  split; [exact Hin |].
  exact (proj1 (C8_addPackage_idempotent "lodash" [] [] _) Hin).
Defined.


(** C10 as stated fails when no editor is active: before the refresh the
    members come from the cache, after it the resolver returns the empty
    list and asks the host nothing. *)
Lemma C10_counterexample_no_editor_no_request :
  let st := stateAfter (refresh [] cachedProvider) in
  Resolver.getModuleExports noOtherRegExp compareCodeUnits hoveringHost None nodeM []
    cachedProvider
  = (Returned [functionMember "foo" None], cachedProvider, [])
  /\ Resolver.getModuleExports noOtherRegExp compareCodeUnits hoveringHost None nodeM []
       st
     = (Returned [], st, []).
Proof. vm_compute. split; reflexivity. Qed.

(** C10 at a refresh of a provider that has the members of [m] in its
    cache: the next resolution for [m], after the tree asked for its root,
    asks the host first. *)
Lemma C10_witness :
  let st := stateAfter (refresh [] cachedProvider) in
  let ops := [GetChildren (Some namedImportOfM) None] in
  let r2 := Resolver.getModuleExports noOtherRegExp compareCodeUnits hoveringHost
              (Some namedImportOfM) nodeM []
              (StateNotions.performAll noOtherRegExp compareCodeUnits hoveringHost
                 ops [] st) in
  forallb (fun op => negb (resolves (ImportNode.modulePath nodeM) op)) ops = true
  /\ exists c cs,
       calls r2 = c :: cs
       /\ (isCompletionRequest (request c) || isDefinitionRequest (request c)) = true.
Proof.
  cbv zeta. split; [reflexivity |].
  refine (proj2 (proj2 (proj2 (proj2 (proj2 (proj2
            (C10_refresh_clears_cache_keeps_packages noOtherRegExp compareCodeUnits
               hoveringHost [] cachedProvider))))))
            [GetChildren (Some namedImportOfM) None] [] namedImportOfM nodeM []
            eq_refl _).
  intros H. discriminate H.
Defined.

(* ================================================================== *)
(** ** Facts: the members made from completion items *)
(* ================================================================== *)

Module ItemFacts.
Import JsString Regex vscode Run Scanner Resolver Notions MatchNotions WordNotions ImportNotions
  ItemNotions StateNotions ScanNotions PageNotions.
Import RunFacts RegexFacts ScannerFacts ResolverFacts ResolverCalls TargetFacts WordFacts
  ImportFacts ExtensionFacts.

Lemma includes_In x l : includes x l = true <-> In x l.
Proof.
  unfold includes. rewrite existsb_exists. split.
  - intros (y & Hy & E). apply String.eqb_eq in E. subst y. exact Hy.
  - intros H. exists x. split; [exact H | apply String.eqb_refl].
Qed.

Lemma distinctNames_push names x :
  distinctNames names -> truthy x = true -> includes x names = false ->
  distinctNames (names ++ [x]).
Proof.
  intros [Hn Ht] Hx Hi. split.
  - apply NoDup_app. repeat split; [exact Hn | | apply NoDup_singleton].
    intros y Hy Hy'. apply list_elem_of_In in Hy.
    apply list_elem_of_singleton in Hy'. subst y.
    apply includes_In in Hy. congruence.
  - apply Forall_app. split; [exact Ht | repeat constructor; exact Hx].
Qed.

Lemma addNamedPart_distinct namedPart : forall names,
  distinctNames names -> distinctNames (addNamedPart names namedPart).
Proof.
  unfold addNamedPart. induction (split "," namedPart) as [| item items IH];
    intros names H; simpl; [exact H |].
  apply IH. destruct (truthy (trim item)); [| exact H].
  destruct (truthy _ && negb _) eqn:E; [| exact H].
  apply andb_true_iff in E as [E1 E2]. apply negb_true_iff in E2.
  apply distinctNames_push; assumption.
Qed.

Section Runtime.
Variable regExpOther : string -> option RegExp.
Variable localeCompare : string -> string -> Z.
Variable host : Host.

Abbreviation getModuleExports := (Resolver.getModuleExports regExpOther localeCompare host).
Abbreviation getChildren := (Resolver.getChildren regExpOther localeCompare host).

Lemma processCompletionItems_shape items modulePath document h st members :
  result (processCompletionItems regExpOther host items modulePath document h st)
  = Returned members ->
  Forall2 (fun item m => exists d, m = memberOf modulePath item d)
    (keptItems items) members.
Proof.
  revert h members. induction items as [| item items IH]; intros h members Hr.
  - inversion Hr. constructor.
  - simpl in Hr. unfold keptItems. simpl.
    destruct (isNonExport (CompletionItem.kind item)); simpl; [apply (IH h), Hr |].
    unfold bind at 1 in Hr.
    destruct (match ownDocumentation item with
              | Some d => ret (Some d)
              | None => getDocumentationForImportedName regExpOther host (labelOf item) document
              end h st) as [[[doc | e] st1] cs1] eqn:E; [| discriminate].
    assert (Hst : st1 = st).
    { destruct (ownDocumentation item); [inversion E; reflexivity |].
      rewrite getDocumentationForImportedName_run in E. inversion E. reflexivity. }
    subst st1. unfold bind at 1 in Hr.
    destruct (processCompletionItems regExpOther host items modulePath document (h ++ cs1) st)
      as [[[ms | e] st2] cs2] eqn:E2; [| discriminate].
    inversion Hr. subst members. constructor.
    + exists doc. reflexivity.
    + apply (IH (h ++ cs1)). rewrite E2. reflexivity.
Qed.

Lemma documentationLookup_one name document h :
  length (snd (documentationLookup regExpOther host name document h)) <= 1.
Proof.
  unfold documentationLookup.
  destruct (Fragment.newRegExp _ _ _ _ _) as [re |]; [| simpl; lia].
  destruct (exec re _); simpl; lia.
Qed.

Lemma addAlreadyImported_keeps names modulePath document : forall ms h st ms' st' cs,
  addAlreadyImported regExpOther host names modulePath document ms h st
  = (Returned ms', st', cs) ->
  (forall m, In m ms -> In m ms')
  /\ (forall name, In name names -> exists m, In m ms' /\ MemberNode.name m = name).
Proof.
  induction names as [| name names IH]; intros ms h st ms' st' cs H.
  - inversion H. subst. split; [auto | intros name []].
  - simpl in H. destruct (existsb _ ms) eqn:E.
    + apply IH in H as [H1 H2]. split; [exact H1 |].
      intros n [<- | Hn]; [| apply H2, Hn].
      apply existsb_exists in E as (m & Hm & Em). apply String.eqb_eq in Em.
      exists m. split; [apply H1, Hm | exact Em].
    + unfold bind at 1 in H.
      destruct (getDocumentationForImportedName regExpOther host name document h st)
        as [[[doc | e] st1] cs1]; [| discriminate].
      match type of H with context [addAlreadyImported _ _ _ _ _ ?ms2 ?h2 ?st2] =>
        destruct (addAlreadyImported regExpOther host names modulePath document ms2 h2 st2)
          as [[[ms3 | e] st3] cs3] eqn:E3 end; [| discriminate].
      inversion H. subst. apply IH in E3 as [H1 H2]. split.
      * intros m Hm. apply H1, in_or_app. left. exact Hm.
      * intros n [<- | Hn]; [| apply H2, Hn].
        eexists. split; [apply H1, in_or_app; right; left; reflexivity | reflexivity].
Qed.

Lemma processCompletionItems_refused modulePath document item :
  forall pre post h st,
  isNonExport (CompletionItem.kind item) = false ->
  ownDocumentation item = None ->
  refusedName regExpOther (labelOf item) ->
  exists e cs,
    processCompletionItems regExpOther host (pre ++ item :: post) modulePath document h st
    = (Thrown e, st, cs).
Proof.
  intros pre post h st Hk Hown Hbad. revert h.
  induction pre as [| x pre IH]; intros h.
  - simpl. rewrite Hk, Hown. unfold bind at 1.
    rewrite getDocumentationForImportedName_run. unfold documentationLookup.
    unfold refusedName in Hbad. rewrite Hbad. simpl. eauto.
  - simpl. destruct (isNonExport (CompletionItem.kind x)); [apply IH |].
    unfold bind at 1.
    assert (Hdoc : exists o cs,
      match ownDocumentation x with
      | Some d => ret (Some d)
      | None => getDocumentationForImportedName regExpOther host (labelOf x) document
      end h st = (o, st, cs)).
    { destruct (ownDocumentation x).
      - eexists _, _. reflexivity.
      - rewrite getDocumentationForImportedName_run. eexists _, _. reflexivity. }
    destruct Hdoc as (o & cs & E). rewrite E. destruct o as [doc | e]; [| eauto].
    unfold bind at 1. destruct (IH (h ++ cs)) as (e & cs2 & E2). rewrite E2. eauto.
Qed.

End Runtime.
End ItemFacts.

(* ================================================================== *)
(** ** Facts: the sort of the members *)
(* ================================================================== *)

Module SortFacts.
Import JsString Regex vscode Run Scanner Resolver Notions MatchNotions WordNotions ImportNotions
  ItemNotions StateNotions ScanNotions PageNotions.
Import RunFacts RegexFacts ScannerFacts ResolverFacts ResolverCalls TargetFacts WordFacts
  ImportFacts ExtensionFacts.
Import ItemFacts.

Section Sort.
Variable localeCompare : string -> string -> Z.

Abbreviation compareMembers := (Resolver.compareMembers localeCompare).
Abbreviation insertSorted := (Resolver.insertSorted localeCompare).
Abbreviation sortMembers := (Resolver.sortMembers localeCompare).

Lemma compare_le_priority a b : (compareMembers a b <= 0)%Z -> byPriority a b.
Proof.
  unfold Resolver.compareMembers, byPriority. cbv zeta.
  destruct (_ =? _)%Z eqn:E; simpl; intros H.
  - apply Z.eqb_eq in E. lia.
  - lia.
Qed.

Lemma compare_gt_priority a b : (0 < compareMembers a b)%Z -> byPriority b a.
Proof.
  unfold Resolver.compareMembers, byPriority. cbv zeta.
  destruct (_ =? _)%Z eqn:E; simpl; intros H.
  - apply Z.eqb_eq in E. lia.
  - lia.
Qed.

Lemma insertSorted_perm x l : Permutation (insertSorted x l) (x :: l).
Proof.
  induction l as [| y l IH]; simpl; [reflexivity |].
  destruct (_ <=? 0)%Z; [reflexivity |].
  rewrite IH. apply perm_swap.
Qed.

Lemma sortMembers_perm l : Permutation (sortMembers l) l.
Proof.
  induction l as [| x l IH]; simpl; [reflexivity |].
  rewrite insertSorted_perm. constructor. exact IH.
Qed.

Section Order.
Variable R : MemberNode.t -> MemberNode.t -> Prop.
Hypothesis R_trans : forall a b c, R a b -> R b c -> R a c.
Hypothesis R_le : forall a b, (compareMembers a b <= 0)%Z -> R a b.
Hypothesis R_gt : forall a b, (0 < compareMembers a b)%Z -> R b a.

Lemma insertSorted_sorted x l :
  StronglySorted R l -> StronglySorted R (insertSorted x l).
Proof.
  induction 1 as [| y l Hl IH Hy]; simpl.
  - repeat constructor.
  - destruct (compareMembers x y <=? 0)%Z eqn:E.
    + apply Z.leb_le in E. constructor; [constructor; assumption |].
      constructor; [apply R_le, E |].
      eapply Forall_impl; [exact Hy |]. intros z Hz. simpl in Hz.
      eapply R_trans; [apply R_le, E | exact Hz].
    + apply Z.leb_gt in E. constructor; [exact IH |].
      apply (Permutation.Permutation_Forall (Permutation_sym (insertSorted_perm x l))).
      constructor; [apply R_gt, E | exact Hy].
Qed.

Lemma sortMembers_sorted l : StronglySorted R (sortMembers l).
Proof.
  induction l as [| x l IH]; simpl; [constructor |].
  apply insertSorted_sorted, IH.
Qed.

End Order.

Lemma sortMembers_byPriority l : StronglySorted byPriority (sortMembers l).
Proof.
  apply sortMembers_sorted.
  - unfold byPriority. intros a b c. lia.
  - apply compare_le_priority.
  - apply compare_gt_priority.
Qed.

End Sort.

Section Runtime.
Variable regExpOther : string -> option RegExp.
Variable localeCompare : string -> string -> Z.
Variable host : Host.

Abbreviation getModuleExports := (Resolver.getModuleExports regExpOther localeCompare host).
Abbreviation getChildren := (Resolver.getChildren regExpOther localeCompare host).

(** A list computed without the definition provider is a sorted list, or
    the empty list. *)
Lemma getModuleExports_sorted editor importNode h st :
  memberCache st !! ImportNode.modulePath importNode = None ->
  let r := getModuleExports editor importNode h st in
  existsb (fun c => isDefinitionRequest (request c)) (calls r) = false ->
  result r = Returned []
  \/ exists members, result r = Returned (Resolver.sortMembers localeCompare members).
Proof.
  intros Hc. cbv zeta. destruct editor as [document |].
  2: { rewrite (getModuleExports_no_editor _ _ _ _ _ _ Hc). left. reflexivity. }
  rewrite (getModuleExports_miss _ _ _ _ _ _ _ Hc).
  assert (Hdef : forall h', existsb (fun c => isDefinitionRequest (request c))
                   (calls (getExportsViaDefinition host importNode document h' st)) = true).
  { intros h'. destruct (getExportsViaDefinition_run host importNode document h' st)
      as (ms & st' & b & cs & E & _). rewrite E. reflexivity. }
  destruct (result (getAlreadyImportedNames _ _ _ _ _)) as [names | e];
    [| left; reflexivity].
  destruct (result (completionTarget _ _ _ _ _)) as [[[position trigger] |] | e];
    [| | left; reflexivity].
  2: { intros H. rewrite Hdef in H. discriminate. }
  cbv zeta.
  destruct (executeCompletionItemProvider host h _ position trigger)
    as [[[| item items] |] | e]; cbv beta iota zeta.
  - unfold after_, calls at 1. simpl. rewrite Hdef. discriminate.
  - destruct (fromCompletions _ _ _ _ _ _ _ _) as [[[ms | e] st1] cs];
      intros _; [right; exists ms; reflexivity | left; reflexivity].
  - unfold after_, calls at 1. simpl. rewrite Hdef. discriminate.
  - left. reflexivity.
Qed.

End Runtime.
End SortFacts.

(* ================================================================== *)
(** ** Facts: what the provider keeps over its life *)
(* ================================================================== *)

Module StateFacts.
Import JsString Regex vscode Run Scanner Resolver Notions MatchNotions WordNotions ImportNotions
  ItemNotions StateNotions ScanNotions PageNotions.
Import RunFacts RegexFacts ScannerFacts ResolverFacts ResolverCalls TargetFacts WordFacts
  ImportFacts ExtensionFacts.
Import ItemFacts SortFacts.

Section Runtime.
Variable regExpOther : string -> option RegExp.
Variable localeCompare : string -> string -> Z.
Variable host : Host.

Abbreviation getModuleExports := (Resolver.getModuleExports regExpOther localeCompare host).
Abbreviation getChildren := (Resolver.getChildren regExpOther localeCompare host).
Abbreviation perform := (StateNotions.perform regExpOther localeCompare host).
Abbreviation performAll := (StateNotions.performAll regExpOther localeCompare host).

Lemma symbolMembers_shape defUri modulePath symbols : forall h st ms st' cs,
  symbolMembers host defUri modulePath symbols h st = (Returned ms, st', cs) ->
  Forall2 (fun symbol m => exists d, m = symbolMember modulePath symbol d) symbols ms
  /\ map request cs = map (symbolHover defUri) symbols.
Proof.
  induction symbols as [| symbol symbols IH]; intros h st ms st' cs H.
  - inversion H. split; constructor.
  - simpl in H. unfold bind at 1 in H. unfold hover at 1, call in H.
    destruct (executeHoverProvider host h defUri _) as [hovers | e]; [| discriminate].
    simpl in H. unfold bind at 1 in H.
    destruct (symbolMembers host defUri modulePath symbols _ st)
      as [[[ms1 | e] st1] cs1] eqn:E; [| discriminate].
    apply IH in E as [Hf Hc]. unfold ret in H. simpl in H. inversion H. subst.
    split.
    + constructor; [eexists; reflexivity | exact Hf].
    + simpl. rewrite app_nil_r, Hc. reflexivity.
Qed.

Lemma getExportsViaDefinition_members importNode document h st m ms st' cs :
  getExportsViaDefinition host importNode document h st = (Returned (m :: ms), st', cs) ->
  exists defUri symbols,
    Uri.eqb defUri (TextDocument.uri document) = false
    /\ Forall2 (fun symbol m' =>
                  exists d, m' = symbolMember (ImportNode.modulePath importNode) symbol d)
         symbols (m :: ms)
    /\ map request cs
       = DefinitionRequest (TextDocument.uri document)
           (Range.start (Location.range (ImportNode.location importNode)))
         :: DocumentSymbolRequest defUri :: map (symbolHover defUri) symbols
    /\ st' = withCache (ImportNode.modulePath importNode) (m :: ms) st.
Proof.
  Local Opaque symbolMembers.
  unfold getExportsViaDefinition, tryCatch. unfold bind at 1. unfold call at 1.
  destruct (executeDefinitionProvider host h _ _) as [definitions | e]; simpl;
    [| discriminate].
  destruct definitions as [[| def defs] |]; simpl; try discriminate.
  set (defUri := match def with
                 | DefinitionLink.OfLocation uri => uri
                 | DefinitionLink.OfLink targetUri => targetUri end).
  destruct (Uri.eqb defUri (TextDocument.uri document)) eqn:Eu; simpl; [discriminate |].
  unfold bind at 1. unfold call at 1.
  destruct (executeDocumentSymbolProvider host _ defUri) as [symbols | e]; simpl;
    [| discriminate].
  destruct symbols as [[| symbol symbols] |]; simpl; try discriminate.
  unfold bind at 1.
  match goal with |- context [symbolMembers host defUri ?mp ?ss ?h' st] =>
    destruct (symbolMembers_run host defUri mp ss h' st) as (o & cs1 & E & _);
    cbv zeta in E; rewrite E; pose proof E as E' end.
  destruct o as [ms1 | e]; simpl; [| discriminate].
  intros H. inversion H. subst.
  apply symbolMembers_shape in E' as [Hf Hc].
  exists defUri, (symbol :: symbols). split; [exact Eu |]. split; [exact Hf |].
  split; [| reflexivity].
  simpl. rewrite !app_nil_r. simpl in Hc. rewrite Hc. reflexivity.
  Local Transparent symbolMembers.
Qed.

Lemma addAlreadyImported_paths names modulePath document : forall ms h st ms' st' cs,
  Forall (fun m => MemberNode.modulePath m = modulePath) ms ->
  addAlreadyImported regExpOther host names modulePath document ms h st
  = (Returned ms', st', cs) ->
  Forall (fun m => MemberNode.modulePath m = modulePath) ms'.
Proof.
  induction names as [| name names IH]; intros ms h st ms' st' cs Hms H.
  - inversion H. subst. exact Hms.
  - simpl in H. destruct (existsb _ ms); [eapply IH; eauto |].
    unfold bind at 1 in H.
    destruct (getDocumentationForImportedName regExpOther host name document h st)
      as [[[doc | e] st1] cs1]; [| discriminate].
    match type of H with context [addAlreadyImported _ _ _ _ _ ?ms2 ?h2 ?st2] =>
      destruct (addAlreadyImported regExpOther host names modulePath document ms2 h2 st2)
        as [[[ms3 | e] st3] cs3] eqn:E end; [| discriminate].
    inversion H. subst. eapply IH; [| exact E].
    apply Forall_app. split; [exact Hms | repeat constructor].
Qed.

Lemma fromCompletions_paths names items modulePath document h st ms st' cs :
  fromCompletions regExpOther host names items modulePath document h st
  = (Returned ms, st', cs) ->
  Forall (fun m => MemberNode.modulePath m = modulePath) ms.
Proof.
  unfold fromCompletions. unfold bind at 1.
  destruct (processCompletionItems regExpOther host items modulePath document h st)
    as [[[ms1 | e] st1] cs1] eqn:E1; [| discriminate].
  destruct (addAlreadyImported regExpOther host names modulePath document ms1 _ st1)
    as [[[ms2 | e] st2] cs2] eqn:E2; [| discriminate].
  intros H. inversion H. subst.
  eapply addAlreadyImported_paths; [| exact E2].
  pose proof (processCompletionItems_shape regExpOther host items modulePath document h st ms1) as Hs.
  rewrite E1 in Hs. specialize (Hs eq_refl).
  clear -Hs. induction Hs as [| item m items' ms' (d & ->) _ IH]; constructor; auto.
Qed.

Lemma getExportsViaDefinition_paths importNode document h st ms :
  result (getExportsViaDefinition host importNode document h st) = Returned ms ->
  Forall (fun m => MemberNode.modulePath m = ImportNode.modulePath importNode) ms.
Proof.
  destruct ms as [| m ms]; [constructor |]. intros H.
  destruct (getExportsViaDefinition host importNode document h st) as [[o st'] cs] eqn:E.
  unfold result in H. simpl in H. subst o.
  apply getExportsViaDefinition_members in E as (defUri & symbols & _ & Hf & _).
  clear -Hf. remember (m :: ms) as l. clear Heql.
  induction Hf as [| s m' ss ms' (d & ->) _ IH]; constructor; auto.
Qed.

(** The members [getModuleExports] computes have the module path of the
    node. *)
Lemma getModuleExports_paths editor importNode h st ms :
  memberCache st !! ImportNode.modulePath importNode = None ->
  result (getModuleExports editor importNode h st) = Returned ms ->
  Forall (fun m => MemberNode.modulePath m = ImportNode.modulePath importNode) ms.
Proof.
  intros Hc. destruct editor as [document |].
  2: { rewrite (getModuleExports_no_editor _ _ _ _ _ _ Hc). intros H. inversion H. constructor. }
  rewrite (getModuleExports_miss _ _ _ _ _ _ _ Hc).
  destruct (result (getAlreadyImportedNames _ _ _ _ _)) as [names | e].
  2: { intros H. inversion H. constructor. }
  destruct (result (completionTarget _ _ _ _ _)) as [[[position trigger] |] | e].
  3: { intros H. inversion H. constructor. }
  2: { apply getExportsViaDefinition_paths. }
  cbv zeta.
  destruct (executeCompletionItemProvider host h _ position trigger)
    as [[[| item items] |] | e]; cbv beta iota zeta.
  - unfold after_, result at 1. simpl. apply getExportsViaDefinition_paths.
  - destruct (fromCompletions _ _ _ _ _ _ _ _) as [[[ms1 | e] st1] cs] eqn:E.
    + intros H. inversion H. subst.
      apply (Permutation.Permutation_Forall
               (Permutation_sym (sortMembers_perm localeCompare ms1))).
      eapply fromCompletions_paths, E.
    + intros H. inversion H. constructor.
  - unfold after_, result at 1. simpl. apply getExportsViaDefinition_paths.
  - intros H. inversion H. constructor.
Qed.

Lemma getModuleExports_consistent editor importNode h st :
  consistent st -> consistent (stateAfter (getModuleExports editor importNode h st)).
Proof.
  intros (Hn & Hf & Hk).
  destruct (getModuleExports_cache regExpOther localeCompare host editor importNode h st)
    as (ms & Hr & Hm & _ & Hst).
  destruct Hst as [[Hst _] | Hst]; [rewrite Hst; repeat split; assumption |].
  rewrite Hst. unfold withCache. repeat split; simpl; try assumption.
  intros k ms' Hl.
  destruct (decide (k = ImportNode.modulePath importNode)) as [-> | Hne].
  - rewrite lookup_insert_eq in Hl. inversion Hl. subst ms'.
    destruct (memberCache st !! ImportNode.modulePath importNode) as [ms0 |] eqn:Hc.
    + rewrite (getModuleExports_hit _ _ _ _ _ _ _ ms0 Hc) in Hr.
      inversion Hr. subst. eapply Hk, Hc.
    + eapply getModuleExports_paths; eauto.
  - rewrite lookup_insert_ne in Hl by congruence. eapply Hk, Hl.
Qed.

Lemma addPackage_consistent packageName h st :
  consistent st -> consistent (stateAfter (addPackage packageName h st)).
Proof.
  intros (Hn & Hf & Hk). unfold addPackage. rewrite bind_get.
  destruct (existsb _ (manualPackages st)) eqn:E; [repeat split; assumption |].
  unfold modify, stateAfter. simpl. repeat split; simpl.
  - rewrite map_app. simpl. apply NoDup_app. repeat split; [exact Hn | | apply NoDup_singleton].
    intros x Hx Hx'. apply list_elem_of_singleton in Hx'. subst x.
    apply list_elem_of_In, in_map_iff in Hx as (p & Hp & Hin).
    assert (existsb (fun p => String.eqb (ImportNode.modulePath p) packageName)
              (manualPackages st) = true); [| congruence].
    apply existsb_exists. exists p. split; [exact Hin |]. rewrite Hp. apply String.eqb_refl.
  - apply Forall_app. split; [exact Hf | repeat constructor].
  - intros k ms Hl. apply lookup_delete_Some in Hl as [_ Hl]. eapply Hk, Hl.
Qed.

Lemma perform_consistent op h st :
  consistent st -> consistent (stateAfter (perform op h st)).
Proof.
  intros H. destruct op as [| packageName | editor [[importNode | member] |]].
  - destruct H as (Hn & Hf & _). repeat split; simpl; try assumption.
    intros k ms Hl. rewrite lookup_empty in Hl. discriminate.
  - apply addPackage_consistent, H.
  - simpl. unfold bind at 1. unfold Resolver.getChildren. unfold bind at 1.
    pose proof (getModuleExports_consistent editor importNode h st H) as Hc.
    destruct (getModuleExports editor importNode h st) as [[[ms | e] st1] cs]; exact Hc.
  - exact H.
  - simpl. unfold bind at 1. unfold Resolver.getChildren. unfold bind at 1.
    unfold Resolver.findImportedModules. rewrite bind_get. exact H.
Qed.

Lemma performAll_consistent ops : forall h st,
  consistent st -> consistent (performAll ops h st).
Proof.
  induction ops as [| op ops IH]; intros h st H; simpl; [exact H |].
  apply IH, perform_consistent, H.
Qed.

Lemma addPackage_has packageName h st :
  existsb (fun p => String.eqb (ImportNode.modulePath p) packageName)
    (manualPackages (stateAfter (addPackage packageName h st))) = true.
Proof.
  unfold addPackage. rewrite bind_get.
  destruct (existsb _ (manualPackages st)) eqn:E; [exact E |].
  unfold modify, stateAfter. simpl. rewrite existsb_app. simpl.
  rewrite String.eqb_refl. apply orb_true_r.
Qed.

Lemma manual_has : forall manualPackages m p,
  In p manualPackages ->
  has (ImportNode.modulePath p) (fold_left addManual manualPackages m) = true.
Proof.
  intros manualPackages m p Hin.
  apply (fold_adds addManual (ImportNode.modulePath p) manualPackages p);
    [intros; apply addManual_keeps; assumption | | exact Hin].
  intros m'. unfold addManual.
  destruct (has (ImportNode.modulePath p) m') eqn:E; [exact E | apply set_has].
Qed.

End Runtime.
End StateFacts.

(* ================================================================== *)
(** ** Facts: what the groups of a match capture *)
(* ================================================================== *)

Module CaptureFacts.
Import JsString Regex vscode Run Scanner Resolver Notions MatchNotions WordNotions ImportNotions
  ItemNotions StateNotions ScanNotions PageNotions.
Import RunFacts RegexFacts ScannerFacts ResolverFacts ResolverCalls TargetFacts WordFacts
  ImportFacts ExtensionFacts.

Lemma getGroup_set_other n m s c : n <> m -> getGroup n (setGroup m s c) = getGroup n c.
Proof.
  intros H. unfold getGroup, setGroup. simpl.
  replace (m =? n) with false by (symmetry; apply Nat.eqb_neq; congruence).
  f_equal. induction c as [| [k v] c IH]; simpl; [reflexivity |].
  destruct (k =? m) eqn:E; simpl.
  - apply Nat.eqb_eq in E. subst k.
    replace (m =? n) with false by (symmetry; apply Nat.eqb_neq; congruence).
    exact IH.
  - destruct (k =? n); [reflexivity | exact IH].
Qed.

Lemma getGroup_clear n ns c : ~ In n ns -> getGroup n (clearGroups ns c) = getGroup n c.
Proof.
  intros H. unfold getGroup, clearGroups. f_equal.
  induction c as [| [k v] c IH]; simpl; [reflexivity |].
  destruct (existsb (Nat.eqb k) ns) eqn:E; simpl.
  - apply existsb_exists in E as (j & Hj & Ej). apply Nat.eqb_eq in Ej. subst j.
    replace (k =? n) with false; [exact IH |].
    symmetry. apply Nat.eqb_neq. intros ->. contradiction.
  - destruct (k =? n); [reflexivity | exact IH].
Qed.

Lemma sameOutside_refl ns c : sameOutside ns c c.
Proof. intros n _. reflexivity. Qed.

Lemma sameOutside_trans ns c1 c2 c3 :
  sameOutside ns c1 c2 -> sameOutside ns c2 c3 -> sameOutside ns c1 c3.
Proof. intros H1 H2 n Hn. rewrite (H2 n Hn). apply H1, Hn. Qed.

Lemma sameOutside_weaken ns ns' c c' :
  (forall n, In n ns -> In n ns') -> sameOutside ns c c' -> sameOutside ns' c c'.
Proof. intros Hs H n Hn. apply H. intros Hin. apply Hn, Hs, Hin. Qed.

Lemma sameOutside_clear ns c : sameOutside ns c (clearGroups ns c).
Proof. intros n Hn. apply getGroup_clear, Hn. Qed.

Section Repeat.
Variable r1 : Pattern.
Hypothesis IH : forall k x c res, matchAt r1 k x c = Some res ->
  exists y c', sameOutside (groupsOf r1) c c' /\ k y c' = Some res.

Lemma repeatGreedy_frame fuel : forall k x c res,
  repeatGreedy (matchAt r1) (clearGroups (groupsOf r1)) fuel k x c = Some res ->
  exists y c', sameOutside (groupsOf r1) c c' /\ k y c' = Some res.
Proof.
  induction fuel as [| fuel IHf]; intros k x c res H.
  - exists x, c. split; [apply sameOutside_refl | exact H].
  - rewrite repeatGreedy_S in H.
    destruct (matchAt r1 _ x (clearGroups (groupsOf r1) c)) as [z |] eqn:E.
    + inversion H; subst z. apply IH in E as (y & c' & Hs & Hk).
      unfold progress in Hk. destruct (pos y =? pos x); [discriminate |].
      apply IHf in Hk as (y2 & c2 & Hs2 & Hk).
      exists y2, c2. split; [| exact Hk].
      eapply sameOutside_trans; [| exact Hs2].
      eapply sameOutside_trans; [apply sameOutside_clear | exact Hs].
    + exists x, c. split; [apply sameOutside_refl | exact H].
Qed.

End Repeat.

(** A match changes the captures of the groups of the pattern only. *)
Lemma matchAt_frame r : forall k x c res,
  matchAt r k x c = Some res ->
  exists y c', sameOutside (groupsOf r) c c' /\ k y c' = Some res.
Proof.
  induction r as [| cs | r1 IH1 r2 IH2 | r1 IH1 | r1 IH1 | r1 IH1 | n r1 IH1 | | |];
    intros k x c res H.
  - exists x, c. split; [apply sameOutside_refl | exact H].
  - simpl in H. destruct (rest x) as [| a t]; [discriminate |].
    destruct (inSet cs a); [| discriminate].
    eexists _, c. split; [apply sameOutside_refl | exact H].
  - rewrite matchAt_cat in H. apply IH1 in H as (y1 & c1 & Hs1 & H).
    apply IH2 in H as (y2 & c2 & Hs2 & H). exists y2, c2. split; [| exact H].
    simpl. eapply sameOutside_trans.
    + eapply sameOutside_weaken; [| exact Hs1]. intros n Hn. apply in_or_app. auto.
    + eapply sameOutside_weaken; [| exact Hs2]. intros n Hn. apply in_or_app. auto.
  - apply (repeatGreedy_frame r1 IH1) in H. exact H.
  - change (matchAt (Plus r1) k x c)
      with (matchAt r1
              (fun y c' => repeatGreedy (matchAt r1) (clearGroups (groupsOf r1))
                             (String.length (rest y)) k y c')
              x (clearGroups (groupsOf r1) c)) in H.
    apply IH1 in H as (y1 & c1 & Hs1 & H).
    apply (repeatGreedy_frame r1 IH1) in H as (y & c' & Hs & Hk).
    exists y, c'. split; [| exact Hk]. simpl.
    eapply sameOutside_trans; [| exact Hs].
    eapply sameOutside_trans; [apply sameOutside_clear | exact Hs1].
  - simpl in H.
    destruct (matchAt r1 (fun y c' => if pos y =? pos x then None else k y c') x
                (clearGroups (groupsOf r1) c)) as [z |] eqn:E.
    + inversion H; subst z. apply IH1 in E as (y & c' & Hs & Hk).
      destruct (pos y =? pos x); [discriminate |].
      exists y, c'. split; [| exact Hk]. simpl.
      eapply sameOutside_trans; [apply sameOutside_clear | exact Hs].
    + exists x, c. split; [apply sameOutside_refl | exact H].
  - rewrite matchAt_group in H. apply IH1 in H as (y & c' & Hs & Hk).
    eexists y, _. split; [| exact Hk]. simpl.
    intros m Hm. rewrite getGroup_set_other by (intros ->; apply Hm; left; reflexivity).
    apply Hs. intros Hin. apply Hm. right. exact Hin.
  - simpl in H. destruct (xorb _ _); [| discriminate].
    exists x, c. split; [apply sameOutside_refl | exact H].
  - simpl in H. destruct (pos x =? 0); [| discriminate].
    exists x, c. split; [apply sameOutside_refl | exact H].
  - simpl in H. destruct (rest x) eqn:Hx; [| discriminate].
    exists x, c. split; [apply sameOutside_refl | exact H].
Qed.

(** What a group captures is a text its body can consume. *)
Lemma matchAt_group_lang n r k x c res :
  matchAt (Group n r) k x c = Some res ->
  exists w y c', lang r w /\ k y (setGroup n w c') = Some res.
Proof.
  rewrite matchAt_group. intros H.
  apply matchAt_sound in H as (w & y & c' & (Hr & Hp & _) & Hl & Hk).
  exists w, y, c'. split; [exact Hl |].
  rewrite Hr in Hk. replace (pos y - pos x) with (String.length w) in Hk by lia.
  rewrite take_append in Hk. exact Hk.
Qed.

(** The continuation of a match is reached. *)
Lemma matchAt_next r k x c res :
  matchAt r k x c = Some res -> exists y c', k y c' = Some res.
Proof.
  intros H. apply matchAt_frame in H as (y & c' & _ & Hk). eauto.
Qed.

(** After a group that is followed by a part without that group, the
    group holds, at the end, a text its body can consume. *)
Lemma group_then n r rest_ x c y cf :
  ~ In n (groupsOf rest_) ->
  matchAt (Cat (Group n r) rest_) accept x c = Some (y, cf) ->
  exists w, lang r w /\ getGroup n cf = Some w.
Proof.
  intros Hn H. rewrite matchAt_cat in H.
  apply matchAt_group_lang in H as (w & y1 & c1 & Hl & Hk).
  apply matchAt_frame in Hk as (y2 & c2 & Hs & Ha).
  inversion Ha; subst. exists w. split; [exact Hl |].
  rewrite (Hs n Hn). apply getGroup_set.
Qed.

Lemma isSpecifier_lang w :
  lang (Plus (Chr (NoneOf [apos; quot]))) w -> isSpecifier w = true.
Proof.
  intros H. apply lang_plus_chr in H as [Hc Hne]. unfold isSpecifier.
  destruct w; [contradiction | exact Hc].
Qed.

Lemma isWordName_lang w : lang (Plus (Chr Word)) w -> isWordName w = true.
Proof.
  intros H. apply lang_plus_chr in H as [Hc Hne]. unfold isWordName.
  destruct w; [contradiction | exact Hc].
Qed.

Ltac peel H :=
  rewrite matchAt_cat in H; apply matchAt_next in H; destruct H as (? & ? & H).

Lemma standard_groups x y c cf :
  matchAt standardRegex accept x c = Some (y, cf) ->
  exists m, getGroup 3 cf = Some m /\ isSpecifier m = true.
Proof.
  intros H. cbv [standardRegex seq] in H.
  do 8 peel H.
  unfold specifier in H. apply group_then in H as (w & Hl & Hg); [| simpl; tauto].
  exists w. split; [exact Hg | apply isSpecifier_lang, Hl].
Qed.

Lemma type_groups x y c cf :
  matchAt typeRegex accept x c = Some (y, cf) ->
  exists m, getGroup 2 cf = Some m /\ isSpecifier m = true.
Proof.
  intros H. cbv [typeRegex seq] in H.
  do 11 peel H.
  unfold specifier in H. apply group_then in H as (w & Hl & Hg); [| simpl; tauto].
  exists w. split; [exact Hg | apply isSpecifier_lang, Hl].
Qed.

Lemma namespace_groups x y c cf :
  matchAt namespaceRegex accept x c = Some (y, cf) ->
  exists name m,
    getGroup 1 cf = Some name /\ isWordName name = true
    /\ getGroup 2 cf = Some m /\ isSpecifier m = true.
Proof.
  intros H. cbv [namespaceRegex seq] in H.
  do 6 peel H.
  pose proof H as H1.
  apply group_then in H1 as (name & Hl1 & Hg1); [| simpl; intuition discriminate].
  peel H. do 4 peel H.
  unfold specifier in H. apply group_then in H as (w & Hl & Hg); [| simpl; tauto].
  exists name, w. repeat split; auto using isSpecifier_lang, isWordName_lang.
Qed.

Lemma searchFrom_matchAt r : forall s i p m,
  searchFrom r i p s = Some m ->
  exists x y, matchAt r accept x [] = Some (y, groups m).
Proof.
  induction s as [| a s IH]; intros i p m H; rewrite searchFrom_unfold in H;
    destruct (matchAt r accept _ []) as [[y c] |] eqn:E;
    try discriminate.
  - inversion H. subst. eauto.
  - inversion H. subst. eauto.
  - eapply IH, H.
Qed.

Lemma execLoop_matchAt r text fuel : forall L m,
  In m (execLoop (compile r) text fuel L) ->
  exists x y, matchAt r accept x [] = Some (y, groups m).
Proof.
  induction fuel as [| fuel IH]; intros L m H; [destruct H |].
  simpl in H. destruct (compile r text L) as [m0 |] eqn:E; [| destruct H].
  destruct H as [<- | H]; [| eapply IH, H].
  unfold compile in E. destruct (_ <? _); [discriminate |].
  eapply searchFrom_matchAt, E.
Qed.

Lemma execAll_matchAt r text m :
  In m (execAll (compile r) text) ->
  exists x y, matchAt r accept x [] = Some (y, groups m).
Proof. apply execLoop_matchAt. Qed.

End CaptureFacts.

(* ================================================================== *)
(** ** Facts: the nodes of the scanner *)
(* ================================================================== *)

Module ScanFacts.
Import JsString Regex vscode Run Scanner Resolver Notions MatchNotions WordNotions ImportNotions
  ItemNotions StateNotions ScanNotions PageNotions.
Import RunFacts RegexFacts ScannerFacts ResolverFacts ResolverCalls TargetFacts WordFacts
  ImportFacts ExtensionFacts.
Import CaptureFacts StateFacts.

Lemma set_Forall (P : string * ImportNode.t -> Prop) k v m :
  P (k, v) -> Forall P m -> Forall P (set k v m).
Proof.
  intros Hv. induction 1 as [| [k' v'] m He Hm IH]; simpl.
  - repeat constructor. exact Hv.
  - destruct (String.eqb k' k); constructor; auto.
Qed.

Lemma fold_Forall {A : Type} (P : string * ImportNode.t -> Prop)
    (f : ModuleMap -> A -> ModuleMap) (l : list A) :
  (forall m a, In a l -> Forall P m -> Forall P (f m a)) ->
  forall m, Forall P m -> Forall P (fold_left f l m).
Proof.
  induction l as [| a l IH]; intros Hf m H; simpl; [exact H |].
  apply IH.
  - intros m' a' Hin. apply Hf. right. exact Hin.
  - apply Hf; [left; reflexivity | exact H].
Qed.

Lemma jsOr_truthy a b : truthy b = true -> truthy (mandatory (jsOr a (Some b))) = true.
Proof.
  intros Hb. unfold jsOr. destruct (truthyOpt a) eqn:E; [| exact Hb].
  destruct a; [exact E | discriminate].
Qed.

Lemma isSpecifier_truthy m : isSpecifier m = true -> truthy m = true.
Proof. unfold isSpecifier. intros H. apply andb_true_iff in H as [H _]. exact H. Qed.

Lemma isWordName_truthy m : isWordName m = true -> truthy m = true.
Proof. unfold isWordName. intros H. apply andb_true_iff in H as [H _]. exact H. Qed.

Section Steps.
Variable document : TextDocument.t.

Lemma addStandard_scanned m r :
  In r (execAll (compile standardRegex) (TextDocument.getText document)) ->
  Forall (fun e => scannedNode document (snd e)) m ->
  Forall (fun e => scannedNode document (snd e)) (addStandard document m r).
Proof.
  intros Hin H. unfold addStandard. destruct (has _ m); [exact H |].
  apply execAll_matchAt in Hin as (x & y & Hm).
  apply standard_groups in Hm as (w & Hg & Hw).
  apply set_Forall; [| exact H]. unfold scannedNode, group. simpl. rewrite Hg. simpl.
  repeat split; [exact Hw |]. apply jsOr_truthy, isSpecifier_truthy, Hw.
Qed.

Lemma addNamespace_scanned m r :
  In r (execAll (compile namespaceRegex) (TextDocument.getText document)) ->
  Forall (fun e => scannedNode document (snd e)) m ->
  Forall (fun e => scannedNode document (snd e)) (addNamespace document m r).
Proof.
  intros Hin H. unfold addNamespace.
  apply execAll_matchAt in Hin as (x & y & Hm).
  apply namespace_groups in Hm as (name & w & Hg1 & Hn & Hg & Hw).
  apply set_Forall; [| exact H]. unfold scannedNode, group. simpl. rewrite Hg, Hg1. simpl.
  repeat split; [exact Hw | apply isWordName_truthy, Hn].
Qed.

Lemma addType_scanned m r :
  In r (execAll (compile typeRegex) (TextDocument.getText document)) ->
  Forall (fun e => scannedNode document (snd e)) m ->
  Forall (fun e => scannedNode document (snd e)) (addType document m r).
Proof.
  intros Hin H. unfold addType. destruct (has _ m); [exact H |].
  apply execAll_matchAt in Hin as (x & y & Hm).
  apply type_groups in Hm as (w & Hg & Hw).
  apply set_Forall; [| exact H]. unfold scannedNode, group. simpl. rewrite Hg. simpl.
  repeat split; [exact Hw |]. apply jsOr_truthy, isSpecifier_truthy, Hw.
Qed.

Lemma scan_nodes manualPackages :
  Forall (fun e => In (snd e) manualPackages \/ scannedNode document (snd e))
    (scan document manualPackages).
Proof.
  unfold scan. apply fold_Forall.
  - intros m p Hin H. unfold addManual. destruct (has _ m); [exact H |].
    apply set_Forall; [left; exact Hin | exact H].
  - eapply Forall_impl; [| intros e He; right; exact He].
    apply fold_Forall; [intros; apply addType_scanned; assumption |].
    apply fold_Forall; [intros; apply addNamespace_scanned; assumption |].
    apply fold_Forall; [intros; apply addStandard_scanned; assumption |].
    constructor.
Qed.

End Steps.

Lemma set_entry k v m : In (k, v) (set k v m).
Proof.
  induction m as [| [k' v'] m IH]; simpl; [left; reflexivity |].
  destruct (String.eqb k' k); [left; reflexivity | right; exact IH].
Qed.

Lemma set_entry_other k v k' v' m :
  k <> k' -> In (k, v) m -> In (k, v) (set k' v' m).
Proof.
  intros Hne. induction m as [| [k0 v0] m IH]; intros H; [destruct H |].
  simpl. destruct (String.eqb k0 k') eqn:E.
  - apply String.eqb_eq in E. subst k0. destruct H as [H | H].
    + inversion H. congruence.
    + right. exact H.
  - destruct H as [H | H]; [left; exact H | right; apply IH, H].
Qed.

Lemma entry_has k v m : In (k, v) m -> has k m = true.
Proof. intros H. apply has_In. apply in_map_iff. exists (k, v). auto. Qed.

Lemma guarded_set_keeps k k' v' m :
  namespaceEntry k m -> namespaceEntry k (if has k' m then m else set k' v' m).
Proof.
  intros (v & Hin & Hv). destruct (has k' m) eqn:E; [exists v; auto |].
  exists v. split; [| exact Hv]. apply set_entry_other; [| exact Hin].
  intros ->. apply entry_has in Hin. congruence.
Qed.

Section Namespace.
Variable document : TextDocument.t.

Lemma addNamespace_entry k m r :
  namespaceEntry k m -> namespaceEntry k (addNamespace document m r).
Proof.
  intros (v & Hin & Hv). unfold addNamespace.
  destruct (String.eqb_spec k (mandatory (group 2 r))) as [-> | Hne].
  - eexists. split; [apply set_entry | split; reflexivity].
  - exists v. split; [apply set_entry_other; assumption | exact Hv].
Qed.

Lemma addNamespace_makes k m r :
  group 2 r = Some k -> namespaceEntry k (addNamespace document m r).
Proof.
  intros H. unfold addNamespace. rewrite H. simpl.
  eexists. split; [apply set_entry | split; reflexivity].
Qed.

Lemma fold_namespace k l r : forall m,
  In r l -> group 2 r = Some k -> namespaceEntry k (fold_left (addNamespace document) l m).
Proof.
  induction l as [| a l IH]; intros m Hin Hg; [destruct Hin |]. simpl.
  destruct Hin as [-> | Hin]; [| apply IH; assumption].
  generalize (addNamespace_makes k m r Hg). generalize (addNamespace document m r).
  clear. induction l as [| a l IH]; intros m H; simpl; [exact H |].
  apply IH, addNamespace_entry, H.
Qed.

Lemma scan_namespace k manualPackages r :
  In r (execAll (compile namespaceRegex) (TextDocument.getText document)) ->
  group 2 r = Some k ->
  namespaceEntry k (scan document manualPackages).
Proof.
  intros Hin Hg. unfold scan.
  assert (Hkeep : forall {A : Type} (f : ModuleMap -> A -> ModuleMap) (l : list A),
    (forall m a, namespaceEntry k m -> namespaceEntry k (f m a)) ->
    forall m, namespaceEntry k m -> namespaceEntry k (fold_left f l m)).
  { intros A f l Hf. induction l as [| a l IH]; intros m H; simpl; [exact H |].
    apply IH, Hf, H. }
  apply Hkeep; [intros m p; apply guarded_set_keeps |].
  apply Hkeep; [intros m r'; apply guarded_set_keeps |].
  eapply fold_namespace; eauto.
Qed.

End Namespace.
End ScanFacts.

(* ================================================================== *)
(** ** Facts: the page, the installed packages and the panel *)
(* ================================================================== *)

Module PageFacts.
Import JsString Regex vscode Run Scanner Resolver Notions MatchNotions WordNotions ImportNotions
  ItemNotions StateNotions ScanNotions PageNotions.
Import RunFacts RegexFacts ScannerFacts ResolverFacts ResolverCalls TargetFacts WordFacts
  ImportFacts ExtensionFacts.
Import Packages Activation.
Import ItemFacts StateFacts.

Lemma entity_inert a : allChars isInert (Spec.entity a) = true.
Proof. destruct a as [[] [] [] [] [] [] [] []]; reflexivity. Qed.

Lemma readEntities_entity a t :
  readEntities (Spec.entity a +:+ t) = String a (readEntities t).
Proof.
  unfold Spec.entity.
  destruct (Ascii.eqb a "&") eqn:E1; [apply Ascii.eqb_eq in E1; subst a; reflexivity |].
  destruct (Ascii.eqb a "<") eqn:E2; [apply Ascii.eqb_eq in E2; subst a; reflexivity |].
  destruct (Ascii.eqb a ">") eqn:E3; [apply Ascii.eqb_eq in E3; subst a; reflexivity |].
  destruct (Ascii.eqb a quot) eqn:E4; [apply Ascii.eqb_eq in E4; subst a; reflexivity |].
  change (String a EmptyString +:+ t) with (String a t).
  apply Ascii.eqb_neq in E1. simpl.
  destruct a as [[] [] [] [] [] [] [] []]; try reflexivity. contradiction.
Qed.

Lemma leb_lt_or_eq a b :
  String.leb a b = true <-> OrderedTypeEx.String_as_OT.lt a b \/ a = b.
Proof.
  unfold String.leb. split.
  - destruct (String.compare a b) eqn:E; intros H; try discriminate.
    + right. apply String.compare_eq_iff, E.
    + left. apply OrderedTypeEx.String_as_OT.cmp_lt, E.
  - intros [H | ->].
    + apply OrderedTypeEx.String_as_OT.cmp_lt in H.
      unfold OrderedTypeEx.String_as_OT.cmp in H. rewrite H. reflexivity.
    + assert (E : String.compare b b = Eq)
        by (apply OrderedTypeEx.String_as_OT.cmp_eq; reflexivity).
      rewrite E. reflexivity.
Qed.

Lemma leb_trans a b c :
  String.leb a b = true -> String.leb b c = true -> String.leb a c = true.
Proof.
  rewrite !leb_lt_or_eq. intros [H1 | ->] [H2 | ->]; auto.
  left. eapply OrderedTypeEx.String_as_OT.lt_trans; eauto.
Qed.

Lemma leb_false a b : String.leb a b = false -> String.leb b a = true.
Proof.
  intros H. destruct (String.leb_total a b) as [H' | H']; [congruence | exact H'].
Qed.

Lemma ltb_leb_ne a b : String.leb a b = true -> a <> b -> String.ltb a b = true.
Proof.
  unfold String.leb, String.ltb. destruct (String.compare a b) eqn:E; intros H Hne;
    try discriminate; [| reflexivity].
  apply String.compare_eq_iff in E. contradiction.
Qed.

Lemma insertName_perm x l : Permutation (insertName x l) (x :: l).
Proof.
  induction l as [| y l IH]; simpl; [reflexivity |].
  destruct (String.leb x y); [reflexivity |]. rewrite IH. apply perm_swap.
Qed.

Lemma sortNames_perm l : Permutation (sortNames l) l.
Proof.
  induction l as [| x l IH]; simpl; [reflexivity |].
  rewrite insertName_perm. constructor. exact IH.
Qed.

Lemma insertName_sorted x l :
  StronglySorted (fun a b => String.leb a b = true) l ->
  StronglySorted (fun a b => String.leb a b = true) (insertName x l).
Proof.
  induction 1 as [| y l Hl IH Hy]; simpl.
  - repeat constructor.
  - destruct (String.leb x y) eqn:E.
    + constructor; [constructor; assumption |].
      constructor; [exact E |].
      eapply Forall_impl; [exact Hy |]. intros z Hz. simpl in Hz.
      eapply leb_trans; eauto.
    + constructor; [exact IH |].
      apply (Permutation.Permutation_Forall (Permutation_sym (insertName_perm x l))).
      constructor; [apply leb_false, E | exact Hy].
Qed.

Lemma sortNames_sorted l :
  StronglySorted (fun a b => String.leb a b = true) (sortNames l).
Proof.
  induction l as [| x l IH]; simpl; [constructor | apply insertName_sorted, IH].
Qed.

Lemma strictly_sorted l :
  NoDup l ->
  StronglySorted (fun a b => String.leb a b = true) l ->
  StronglySorted (fun a b => String.ltb a b = true) l.
Proof.
  intros Hn Hs. induction Hs as [| x l Hl IH Hx]; [constructor |].
  apply NoDup_cons in Hn as [Hx' Hn]. constructor; [apply IH, Hn |].
  rewrite Forall_forall in Hx |- *. intros y Hy.
  apply ltb_leb_ne; [apply Hx, Hy |]. intros ->. contradiction.
Qed.

Lemma unique_spec packages :
  NoDup (unique packages) /\ forall p, In p (unique packages) <-> In p packages.
Proof.
  unfold unique.
  assert (H : forall seen,
    NoDup seen ->
    NoDup (fold_left (fun seen p => if includes p seen then seen else seen ++ [p])
             packages seen)
    /\ forall p, In p (fold_left (fun seen p => if includes p seen then seen else seen ++ [p])
                         packages seen) <-> In p seen \/ In p packages).
  { induction packages as [| q packages IH]; intros seen Hn; simpl.
    - split; [exact Hn | intros p; tauto].
    - destruct (includes q seen) eqn:E.
      + destruct (IH seen Hn) as [H1 H2]. split; [exact H1 |].
        intros p. rewrite H2. apply includes_In in E.
        split; [tauto |]. intros [H | [<- | H]]; auto.
      + assert (Hn' : NoDup (seen ++ [q])).
        { apply NoDup_app. repeat split; [exact Hn | | apply NoDup_singleton].
          intros y Hy Hy'. apply list_elem_of_In in Hy.
          apply list_elem_of_singleton in Hy'. subst y.
          apply includes_In in Hy. congruence. }
        destruct (IH _ Hn') as [H1 H2]. split; [exact H1 |].
        intros p. rewrite H2, in_app_iff. simpl. tauto. }
  destruct (H [] NoDup_nil_2) as [H1 H2]. split; [exact H1 |].
  intros p. rewrite H2. simpl. tauto.
Qed.

Lemma addTyped_spec answers app :
  exists app', addTyped answers app = (Returned tt, app')
    /\ docPanel app' = docPanel app /\ panels app' = panels app
    /\ created app' = created app /\ reveals app' = reveals app
    /\ (provider app' = provider app
        \/ exists name, typed answers = Some name /\ truthy name = true
             /\ provider app' = stateAfter (addPackage name [] (provider app))).
Proof.
  unfold addTyped. destruct (typed answers) as [name |]; [| eexists; repeat split; auto].
  destruct (truthy name) eqn:E; [| eexists; repeat split; auto].
  unfold onProvider.
  assert (Hr : result (addPackage name [] (provider app)) = Returned tt).
  { unfold addPackage. rewrite bind_get. destruct (existsb _ _); reflexivity. }
  rewrite Hr. eexists. repeat split. right. exists name. auto.
Qed.

Lemma browsePackage_spec answers app :
  exists app', browsePackageCommand answers app = (Returned tt, app')
    /\ docPanel app' = docPanel app /\ panels app' = panels app
    /\ created app' = created app /\ reveals app' = reveals app
    /\ (provider app' = provider app
        \/ exists name,
             ((typed answers = Some name /\ truthy name = true)
              \/ In name (Packages.getInstalledPackages (workspaceFolders answers)))
             /\ provider app' = stateAfter (addPackage name [] (provider app))).
Proof.
  assert (Ht : exists app', addTyped answers app = (Returned tt, app')
    /\ docPanel app' = docPanel app /\ panels app' = panels app
    /\ created app' = created app /\ reveals app' = reveals app
    /\ (provider app' = provider app
        \/ exists name,
             ((typed answers = Some name /\ truthy name = true)
              \/ In name (Packages.getInstalledPackages (workspaceFolders answers)))
             /\ provider app' = stateAfter (addPackage name [] (provider app)))).
  { destruct (addTyped_spec answers app) as (app' & H1 & H2 & H3 & H4 & H5 & H6).
    exists app'. repeat split; auto. destruct H6 as [H6 | (name & Hn & Ht & H6)]; auto.
    right. exists name. auto. }
  unfold browsePackageCommand. cbv zeta.
  destruct (Packages.getInstalledPackages (workspaceFolders answers))
    as [| p0 packages] eqn:Ep; [exact Ht |].
  destruct (picked answers) as [i |]; simpl; [| eexists; repeat split; auto].
  destruct (nth_error (quickPickItems (p0 :: packages)) i) as [selected |] eqn:En;
    [| eexists; repeat split; auto].
  destruct (isCustom selected) eqn:Ec; [exact Ht |].
  unfold onProvider.
  assert (Hr : result (addPackage (label selected) [] (provider app)) = Returned tt).
  { unfold addPackage. rewrite bind_get. destruct (existsb _ _); reflexivity. }
  rewrite Hr. eexists. repeat split. right. exists (label selected). split; [| reflexivity].
  right. apply nth_error_In in En. destruct En as [<- | En]; [discriminate |].
  apply in_map_iff in En as (p & <- & Hp). exact Hp.
Qed.

Lemma showDocumentation_member m app :
  tracked app ->
  exists id,
    showDocumentation (Some (Member m)) app
    = (Returned tt,
       {| provider := provider app;
          docPanel := Some id;
          panels := [(id, {| viewType := "typeExplorerDoc";
                             panelTitle := MemberNode.name m;
                             enableScripts := true;
                             html := Extension.getDocumentationHtml m |})];
          created := match docPanel app with
                     | Some _ => created app
                     | None => S (created app)
                     end;
          reveals := match docPanel app with
                     | Some _ => S (reveals app)
                     | None => reveals app
                     end |}).
Proof.
  unfold tracked, showDocumentation, bind. intros Ht.
  destruct (docPanel app) as [id |] eqn:Hd.
  - destruct Ht as (p & Hp & Hv & He). exists id.
    unfold reveal, setTitle, setHtml, onPanel, isOpen, ret. rewrite Hp. simpl.
    rewrite Nat.eqb_refl. simpl. rewrite Nat.eqb_refl. simpl. rewrite Nat.eqb_refl. simpl.
    rewrite Hd, Hv, He. reflexivity.
  - exists (created app).
    unfold createDocPanel, setTitle, setHtml, onPanel, isOpen. rewrite Ht. simpl.
    rewrite Nat.eqb_refl. simpl. rewrite Nat.eqb_refl. simpl. reflexivity.
Qed.

Lemma disposePanel_tracked id app : tracked app -> tracked (disposePanel id app).
Proof.
  unfold tracked, disposePanel, isOpen. intros Ht.
  destruct (docPanel app) as [id0 |] eqn:Hd.
  - destruct Ht as (p & Hp & Hv). rewrite Hp. simpl.
    destruct (id0 =? id) eqn:E; simpl; [reflexivity |].
    rewrite Hd. exists p. auto.
  - rewrite Ht. simpl. rewrite Hd. exact Ht.
Qed.

Lemma handle_tracked ev app :
  tracked app -> exists app', handle ev app = (Returned tt, app') /\ tracked app'.
Proof.
  intros Ht. destruct ev as [answers command arguments | id |]; simpl.
  - unfold executeCommand.
    destruct (String.eqb command "type-explorer.refresh");
      [eexists; split; [reflexivity | exact Ht] |].
    destruct (String.eqb command "type-explorer.browsePackage").
    { destruct (browsePackage_spec answers app) as (app' & H1 & H2 & H3 & _).
      exists app'. split; [exact H1 |]. unfold tracked. rewrite H2, H3. exact Ht. }
    destruct (String.eqb command "type-explorer.showDocumentation");
      [| eexists; split; [reflexivity | exact Ht]].
    destruct (head arguments) as [[node | m] |];
      try (eexists; split; [reflexivity | exact Ht]).
    destruct (showDocumentation_member m app Ht) as (id & ->).
    eexists. split; [reflexivity |]. unfold tracked. simpl. eexists. auto.
  - eexists. split; [reflexivity | apply disposePanel_tracked, Ht].
  - eexists. split; [reflexivity |]. unfold deactivate.
    destruct (docPanel app); [apply disposePanel_tracked, Ht | exact Ht].
Qed.

Lemma handleAll_tracked evs : forall app,
  tracked app -> fst (handleAll evs app) = false /\ tracked (snd (handleAll evs app)).
Proof.
  induction evs as [| ev evs IH]; intros app Ht; simpl; [split; [reflexivity | exact Ht] |].
  destruct (handle_tracked ev app Ht) as (app' & -> & Ht').
  destruct (IH app' Ht') as [H1 H2].
  destruct (handleAll evs app') as [threw app2]. simpl in *. subst threw. auto.
Qed.

End PageFacts.
(* ================================================================== *)
(** ** Facts: the members made from document symbols *)
(* ================================================================== *)

Module SymbolFacts.
Import JsString Regex vscode Run Scanner Resolver Notions MatchNotions WordNotions ImportNotions
  ItemNotions StateNotions.
Import RunFacts RegexFacts ScannerFacts ResolverFacts ResolverCalls TargetFacts WordFacts.

Section Runtime.
Variable host : Host.

Lemma symbolMembers_exact defUri modulePath symbols : forall h st ms st' cs,
  symbolMembers host defUri modulePath symbols h st = (Returned ms, st', cs) ->
  cs = map (fun symbol => answered (symbolHover defUri symbol)) symbols
  /\ length ms = length symbols
  /\ forall i symbol, symbols !! i = Some symbol ->
       ms !! i
       = Some (symbolMember modulePath symbol
                 (symbolDocumentation
                    (executeHoverProvider host (h ++ firstn i cs) defUri
                       (Range.start (DocumentSymbol.selectionRange symbol))))).
Proof.
  induction symbols as [| symbol symbols IH]; intros h st ms st' cs H.
  - inversion H. repeat split. intros i symbol Hi. destruct i; discriminate.
  - simpl in H. unfold bind at 1 in H. unfold hover at 1, call in H.
    destruct (executeHoverProvider host h defUri _) as [hovers | e] eqn:Eh; [| discriminate].
    simpl in H. unfold bind at 1 in H.
    destruct (symbolMembers host defUri modulePath symbols _ st)
      as [[[ms1 | e] st1] cs1] eqn:E; [| discriminate].
    apply IH in E as (Hc & Hl & Hi). unfold ret in H. simpl in H. inversion H. subst ms st' cs.
    rewrite app_nil_r. split; [| split].
    + simpl. f_equal. exact Hc.
    + simpl. f_equal. exact Hl.
    + intros [| i] s Hs; simpl in Hs.
      * inversion Hs. subst s. simpl. rewrite app_nil_r, Eh.
        unfold symbolMember, symbolDocumentation. destruct hovers as [[| x hs] |]; reflexivity.
      * simpl. rewrite (Hi i s Hs). rewrite <- app_assoc. reflexivity.
Qed.

Lemma getExportsViaDefinition_exact importNode document h st m ms st' cs :
  getExportsViaDefinition host importNode document h st = (Returned (m :: ms), st', cs) ->
  let docUri := TextDocument.uri document in
  let start := Range.start (Location.range (ImportNode.location importNode)) in
  let modulePath := ImportNode.modulePath importNode in
  exists def defs symbols,
    executeDefinitionProvider host h docUri start = Returned (Some (def :: defs))
    /\ Uri.eqb (definitionUri def) docUri = false
    /\ executeDocumentSymbolProvider host (h ++ firstn 1 cs) (definitionUri def)
       = Returned (Some symbols)
    /\ length (m :: ms) = length symbols
    /\ (forall i symbol, symbols !! i = Some symbol ->
          (m :: ms) !! i
          = Some (symbolMember modulePath symbol
                    (symbolDocumentation
                       (executeHoverProvider host (h ++ firstn (2 + i) cs) (definitionUri def)
                          (Range.start (DocumentSymbol.selectionRange symbol))))))
    /\ cs = map answered
              (DefinitionRequest docUri start
               :: DocumentSymbolRequest (definitionUri def)
               :: map (symbolHover (definitionUri def)) symbols)
    /\ st' = withCache modulePath (m :: ms) st.
Proof.
  Local Opaque symbolMembers.
  cbv zeta.
  unfold getExportsViaDefinition, tryCatch. unfold bind at 1. unfold call at 1.
  destruct (executeDefinitionProvider host h _ _) as [definitions | e] eqn:Ed; simpl;
    [| discriminate].
  destruct definitions as [[| def defs] |]; simpl; try discriminate.
  fold (definitionUri def).
  destruct (Uri.eqb (definitionUri def) (TextDocument.uri document)) eqn:Eu; simpl;
    [discriminate |].
  unfold bind at 1. unfold call at 1.
  destruct (executeDocumentSymbolProvider host _ (definitionUri def)) as [symbols | e] eqn:Es;
    simpl; [| discriminate].
  destruct symbols as [[| symbol symbols] |]; simpl; try discriminate.
  unfold bind at 1.
  match goal with |- context [symbolMembers host ?u ?mp ?ss ?h' st] =>
    destruct (symbolMembers_run host u mp ss h' st) as (o & cs1 & E & _);
    cbv zeta in E; rewrite E; pose proof E as E' end.
  destruct o as [ms1 | e]; simpl; [| discriminate].
  intros H. inversion H. subst.
  apply symbolMembers_exact in E' as (Hc & Hl & Hi).
  exists def, defs, (symbol :: symbols). rewrite !app_nil_r.
  split; [reflexivity |]. split; [exact Eu |]. split; [exact Es |].
  split; [exact Hl |]. split; [| split; [| reflexivity]].
  - intros i s Hs. rewrite (Hi i s Hs). simpl firstn. rewrite <- !app_assoc. reflexivity.
  - rewrite Hc. cbn [map]. rewrite map_map. reflexivity.
  Local Transparent symbolMembers.
Qed.

End Runtime.

End SymbolFacts.

(* ================================================================== *)
(** ** Facts: the keys of the dependencies *)
(* ================================================================== *)

Module PackageFacts.
Import JsString vscode Packages PackageNotions.

Lemma property_named name properties value :
  property name (JObject properties) = Some value <-> named name properties value.
Proof.
  unfold property, named. induction properties as [| [k v] properties IH]; simpl.
  - split; [discriminate |]. intros (b & a & H & _). destruct b; discriminate.
  - destruct (String.eqb k name) eqn:E; simpl.
    + apply String.eqb_eq in E. subst k. split.
      * intros H. inversion H. subst v. exists [], properties. split; [reflexivity | intros []].
      * intros ([| [k' v'] b] & a & H & Hn); simpl in *.
        -- inversion H. reflexivity.
        -- inversion H. subst k'. exfalso. apply Hn. left. reflexivity.
    + split.
      * intros H. apply IH in H as (b & a & -> & Hn).
        exists ((k, v) :: b), a. split; [reflexivity |].
        simpl. intros [H | H]; [| contradiction].
        subst k. rewrite String.eqb_refl in E. discriminate.
      * intros ([| [k' v'] b] & a & H & Hn); simpl in *.
        -- inversion H. subst k. rewrite String.eqb_refl in E. discriminate.
        -- inversion H. subst. apply IH. exists b, a. split; [reflexivity |].
           intros Hin. apply Hn. right. exact Hin.
Qed.

Lemma isTruthy_taken value : isTruthy (Some value) = true <-> taken value.
Proof.
  unfold taken. destruct value as [| [] | z | s | |]; simpl.
  - split; [discriminate | intros (H & _); congruence].
  - split; [repeat split; discriminate | reflexivity].
  - split; [discriminate | intros (_ & H & _); congruence].
  - split.
    + intros H. apply negb_true_iff, Z.eqb_neq in H. repeat split; congruence.
    + intros (_ & _ & H & _). apply negb_true_iff, Z.eqb_neq. congruence.
  - destruct s; simpl.
    + split; [discriminate | intros (_ & _ & _ & H); congruence].
    + split; [repeat split; discriminate | reflexivity].
  - split; [repeat split; discriminate | reflexivity].
  - split; [repeat split; discriminate | reflexivity].
Qed.

Lemma indexKeys_numeral n key :
  In key (indexKeys n) <-> exists i, i < n /\ key = numeral i.
Proof.
  unfold indexKeys. rewrite in_map_iff. split.
  - intros (i & <- & Hi). apply in_seq in Hi. exists i. split; [lia | reflexivity].
  - intros (i & Hi & ->). exists i. split; [reflexivity | apply in_seq; lia].
Qed.

Lemma objectKeys_hasKey value key : In key (objectKeys value) <-> hasKey value key.
Proof.
  destruct value as [| b | z | s | items | properties]; simpl;
    try tauto; try apply indexKeys_numeral.
  rewrite in_map_iff. split.
  - intros ([k v] & <- & H). exists v. exact H.
  - intros (v & H). exists (key, v). split; [reflexivity | exact H].
Qed.

Lemma keysIfTruthy_spec o key :
  In key (keysIfTruthy o) <-> exists value, o = Some value /\ taken value /\ hasKey value key.
Proof.
  unfold keysIfTruthy. destruct o as [value |].
  - destruct (isTruthy (Some value)) eqn:E.
    + apply isTruthy_taken in E. simpl default. rewrite objectKeys_hasKey. split.
      * intros H. exists value. auto.
      * intros (v & Hv & _ & H). inversion Hv. subst v. exact H.
    + split; [intros [] |]. intros (v & Hv & Ht & _). inversion Hv. subst v.
      apply isTruthy_taken in Ht. congruence.
  - simpl. split; [intros [] |]. intros (v & Hv & _). discriminate.
Qed.

Lemma folderPackages_spec packageJson p :
  In p (folderPackages packageJson) <-> dependencyOf packageJson p.
Proof.
  unfold dependencyOf. split.
  - intros H. destruct packageJson as [value | e]; [| destruct H].
    assert (Hk : In p (keysIfTruthy (property "dependencies" value)
                       ++ keysIfTruthy (property "devDependencies" value))).
    { destruct value; exact H. }
    destruct value as [| b | z | s | items | properties];
      try (apply in_app_iff in Hk as [Hk | Hk]; destruct Hk).
    apply in_app_iff in Hk as [Hk | Hk];
      apply keysIfTruthy_spec in Hk as (v & Hv & Ht & Hh);
      apply property_named in Hv; eexists properties, _, v; eauto 10.
  - intros (properties & section & v & -> & Hs & Hn & Ht & Hh).
    apply property_named in Hn. simpl. apply in_app_iff.
    destruct Hs as [-> | ->]; [left | right]; apply keysIfTruthy_spec; eauto.
Qed.

End PackageFacts.


(* ================================================================== *)
(** ** More properties of the code *)
(* ================================================================== *)

Import JsString Regex vscode Run Scanner Resolver Notions MatchNotions WordNotions
  ImportNotions ItemNotions StateNotions ScanNotions PageNotions.
Import RunFacts RegexFacts ScannerFacts ResolverFacts ResolverCalls TargetFacts ExtensionFacts
  WordFacts ImportFacts ItemFacts SortFacts StateFacts CaptureFacts ScanFacts PageFacts
  SymbolFacts PackageFacts.
Import PackageNotions.

Section Extras.
Variable regExpOther : string -> option RegExp.
Variable localeCompare : string -> string -> Z.
Variable host : Host.

Abbreviation getModuleExports := (Resolver.getModuleExports regExpOther localeCompare host).
Abbreviation getChildren := (Resolver.getChildren regExpOther localeCompare host).
Abbreviation performAll := (StateNotions.performAll regExpOther localeCompare host).


(** X1. [getAlreadyImportedNames] always returns, calls no host and changes
    nothing; no name is twice in the list it returns, and no name is
    empty. *)
Theorem X1_already_imported_names_are_distinct text modulePath h st :
  exists names,
    getAlreadyImportedNames regExpOther text modulePath h st = (Returned names, st, [])
    /\ NoDup names
    /\ Forall (fun n => truthy n = true) names.
Proof.
  unfold getAlreadyImportedNames. cbv zeta.
  rewrite !bind_newRegExp_escaped.
  match goal with |- context [fold_left ?f ?l []] =>
    assert (Hd : distinctNames (fold_left f l []));
    [| set (names := fold_left f l []) in * ] end.
  { match goal with |- distinctNames (fold_left ?f ?l []) =>
      generalize l; intros l0;
      assert (Hg : forall l1 acc, distinctNames acc -> distinctNames (fold_left f l1 acc)) end.
    { induction l1 as [| m l1 IH]; intros acc Ha; simpl; [exact Ha |].
      apply IH, addNamedPart_distinct, Ha. }
    apply Hg. split; constructor. }
  destruct (exec _ text) as [m |].
  - destruct (truthyOpt _ && negb _) eqn:E.
    + eexists. split; [reflexivity |].
      apply andb_true_iff in E as [E1 E2]. apply negb_true_iff in E2.
      apply distinctNames_push; [exact Hd | | exact E2].
      destruct (group 1 m); [exact E1 | discriminate].
    + eexists. split; [reflexivity | exact Hd].
  - eexists. split; [reflexivity | exact Hd].
Qed.


(** X3. When every item that is kept carries documentation of its own,
    [processCompletionItems] calls no host and changes nothing: each
    member has the documentation of its item. *)
Theorem X3_documented_items_need_no_host items modulePath document h st :
  forallb hasOwnDocumentation (keptItems items) = true ->
  processCompletionItems regExpOther host items modulePath document h st
  = (Returned (map (fun item => memberOf modulePath item (ownDocumentation item))
                 (keptItems items)), st, []).
Proof.
  revert h. induction items as [| item items IH]; intros h H; [reflexivity |].
  unfold keptItems in *. simpl in *.
  destruct (isNonExport (CompletionItem.kind item)); simpl in *; [apply IH, H |].
  apply andb_true_iff in H as [H1 H2]. unfold hasOwnDocumentation in H1.
  destruct (ownDocumentation item) as [d |] eqn:Ed; [| discriminate].
  unfold bind, ret. simpl. rewrite app_nil_r. rewrite (IH h H2). reflexivity.
Qed.

(** X4. [processCompletionItems] makes hover requests only, at most one for
    each kept item that has no documentation of its own, and leaves the
    provider as it was. *)
Theorem X4_one_hover_at_most_for_an_item items modulePath document h st :
  let r := processCompletionItems regExpOther host items modulePath document h st in
  length (calls r)
  <= length (List.filter (fun item => negb (hasOwnDocumentation item)) (keptItems items))
  /\ Forall (fun c => isHoverRequest (request c) = true) (calls r)
  /\ stateAfter r = st.
Proof.
  cbv zeta. split.
  2: { destruct (processCompletionItems_run regExpOther host items modulePath document h st)
         as (o & cs & -> & Hcs). split; [exact Hcs | reflexivity]. }
  revert h. induction items as [| item items IH]; intros h; [simpl; lia |].
  unfold keptItems in *. simpl.
  destruct (isNonExport (CompletionItem.kind item)); simpl; [apply IH |].
  unfold bind at 1. unfold hasOwnDocumentation at 1.
  destruct (ownDocumentation item) as [d |]; simpl.
  - unfold ret at 1. unfold bind at 1. specialize (IH (h ++ [])).
    destruct (processCompletionItems regExpOther host items modulePath document (h ++ []) st)
      as [[[ms | e] st1] cs1]; unfold calls in *; simpl in *; rewrite ?app_nil_r; lia.
  - rewrite getDocumentationForImportedName_run.
    pose proof (documentationLookup_one regExpOther host (labelOf item) document h) as H1.
    destruct (documentationLookup regExpOther host (labelOf item) document h) as [o cs0].
    simpl in *. destruct o as [doc | e]; [| unfold calls; simpl; lia].
    unfold bind at 1. specialize (IH (h ++ cs0)).
    destruct (processCompletionItems regExpOther host items modulePath document (h ++ cs0) st)
      as [[[ms | e] st1] cs1]; unfold calls in *; simpl in *;
      rewrite ?app_nil_r, ?length_app; simpl; lia.
Qed.


(** X6. When [localeCompare] orders the names (it is transitive, and of two
    names one does not come after the other), a list [getModuleExports]
    computes without asking the definition provider is sorted for the
    comparison function of the source: by kind, then by name. *)
Theorem X6_members_are_sorted_for_the_comparison editor importNode h st :
  (forall a b c, (localeCompare a b <= 0)%Z -> (localeCompare b c <= 0)%Z ->
                 (localeCompare a c <= 0)%Z) ->
  (forall a b, (0 < localeCompare a b)%Z -> (localeCompare b a <= 0)%Z) ->
  memberCache st !! ImportNode.modulePath importNode = None ->
  let r := getModuleExports editor importNode h st in
  existsb (fun c => isDefinitionRequest (request c)) (calls r) = false ->
  exists members,
    result r = Returned members /\ StronglySorted (inOrder localeCompare) members.
Proof.
  intros Htrans Htotal Hc r Hd.
  destruct (getModuleExports_sorted regExpOther localeCompare host editor importNode h st Hc Hd)
    as [H | (ms & H)]; subst r; rewrite H.
  - exists []. split; [reflexivity | constructor].
  - eexists. split; [reflexivity |]. apply sortMembers_sorted.
    + unfold inOrder, Resolver.compareMembers. cbv zeta. intros a b c.
      destruct (priority (MemberNode.symbolKind a) =? priority (MemberNode.symbolKind b))%Z eqn:E1;
      destruct (priority (MemberNode.symbolKind b) =? priority (MemberNode.symbolKind c))%Z eqn:E2;
      destruct (priority (MemberNode.symbolKind a) =? priority (MemberNode.symbolKind c))%Z eqn:E3;
        simpl; rewrite ?Z.eqb_eq, ?Z.eqb_neq in *; try lia.
      apply Htrans.
    + unfold inOrder. auto.
    + unfold inOrder, Resolver.compareMembers. cbv zeta. intros a b.
      rewrite (Z.eqb_sym (priority (MemberNode.symbolKind b))).
      destruct (priority (MemberNode.symbolKind a) =? priority (MemberNode.symbolKind b))%Z eqn:E1;
        simpl; rewrite ?Z.eqb_eq, ?Z.eqb_neq in *; [apply Htotal | lia].
Qed.

(** X7. A list that is not empty and that [getModuleExports] computes
    without asking the definition provider has a member for every name
    [getAlreadyImportedNames] finds: the names already imported from the
    module are not lost. *)
Theorem X7_imported_names_are_members (document : TextDocument.t)
    (importNode : ImportNode.t) (h : list HostCall) (st : Provider)
    (m : MemberNode.t) (ms : list MemberNode.t) (names : list string) :
  memberCache st !! ImportNode.modulePath importNode = None ->
  let r := getModuleExports (Some document) importNode h st in
  existsb (fun c => isDefinitionRequest (request c)) (calls r) = false ->
  result r = Returned (m :: ms) ->
  result (getAlreadyImportedNames regExpOther (TextDocument.getText document)
            (ImportNode.modulePath importNode) h st) = Returned names ->
  forall name, In name names ->
    exists m', In m' (m :: ms) /\ MemberNode.name m' = name.
Proof.
  intros Hc. cbv zeta.
  rewrite (getModuleExports_miss _ _ _ _ _ _ _ Hc).
  assert (Hdef : forall h', existsb (fun c => isDefinitionRequest (request c))
                   (calls (getExportsViaDefinition host importNode document h' st)) = true).
  { intros h'. destruct (getExportsViaDefinition_run host importNode document h' st)
      as (ms0 & st' & b & cs & E & _). rewrite E. reflexivity. }
  intros Hd Hr Hn. rewrite Hn in Hd, Hr.
  destruct (result (completionTarget _ _ _ _ _)) as [[[position trigger] |] | e];
    [| rewrite Hdef in Hd; discriminate | discriminate].
  cbv zeta in Hd, Hr.
  destruct (executeCompletionItemProvider host h _ position trigger)
    as [[[| item items] |] | e]; cbv beta iota zeta in Hd, Hr;
    try (unfold after_, calls at 1 in Hd; simpl in Hd; rewrite Hdef in Hd; discriminate);
    try discriminate.
  destruct (fromCompletions _ _ _ _ _ _ _ _) as [[[ms1 | e] st1] cs] eqn:E;
    [| discriminate].
  unfold result in Hr. simpl in Hr.
  assert (Hs : Resolver.sortMembers localeCompare ms1 = m :: ms) by (inversion Hr; reflexivity).
  clear Hr.
  unfold fromCompletions in E. unfold bind at 1 in E.
  destruct (processCompletionItems _ _ _ _ _ _ _) as [[[ms0 | e] st0] cs0];
    [| discriminate].
  destruct (addAlreadyImported _ _ _ _ _ _ _ _) as [[[ms2 | e] st2] cs2] eqn:E2;
    [| discriminate].
  inversion E. subst ms2. apply addAlreadyImported_keeps in E2 as [_ Hkept].
  intros name Hname. destruct (Hkept name Hname) as (m' & Hm' & Hnm).
  exists m'. split; [| exact Hnm]. rewrite <- Hs.
  apply (Permutation_in _ (Permutation_sym (sortMembers_perm localeCompare ms1))). exact Hm'.
Qed.


(** X9. [getModuleExports] never changes the packages added by hand and
    never fires the change event; in the cache it leaves every entry of
    another module path as it was and removes none. *)
Theorem X9_getModuleExports_touches_one_cache_entry editor importNode h st :
  let r := getModuleExports editor importNode h st in
  manualPackages (stateAfter r) = manualPackages st
  /\ fired (stateAfter r) = fired st
  /\ (forall k, k <> ImportNode.modulePath importNode ->
        memberCache (stateAfter r) !! k = memberCache st !! k)
  /\ (forall k members, memberCache st !! k = Some members ->
        memberCache (stateAfter r) !! k = Some members).
Proof.
  cbv zeta.
  destruct (getModuleExports_cache regExpOther localeCompare host editor importNode h st)
    as (ms & Hr & Hm & Hf & Hst).
  split; [exact Hm | split; [exact Hf |]].
  destruct Hst as [[Hst _] | Hst]; rewrite Hst; [split; auto |].
  split.
  - intros k Hk. unfold withCache. simpl. apply lookup_insert_ne. congruence.
  - intros k members Hl. unfold withCache. simpl.
    destruct (decide (k = ImportNode.modulePath importNode)) as [-> | Hne].
    + rewrite (getModuleExports_hit _ _ _ _ _ _ _ members Hl) in Hr.
      inversion Hr. apply lookup_insert_eq.
    + rewrite lookup_insert_ne by congruence. exact Hl.
Qed.

(** X10. Whatever the host asks of a new provider ([refresh],
    [addPackage], [getChildren], in any order and with any answers), the
    packages added by hand have distinct module paths, each is the node
    [addPackage] makes for its name, and every list in the cache holds
    members of the module path it is stored under. *)
Theorem X10_provider_stays_consistent (ops : list Operation) (h : list HostCall) :
  consistent (performAll ops h newProvider).
Proof.
  apply performAll_consistent. repeat split; try constructor.
  intros k ms Hl. simpl in Hl. rewrite lookup_empty in Hl. discriminate.
Qed.

(** X11. In every state a provider can reach, the members
    [getModuleExports] returns for a node, from the cache or from the
    host, have the module path of the node. *)
Theorem X11_members_have_the_path_of_their_node (ops : list Operation)
    (h : list HostCall) (editor : option TextDocument.t)
    (importNode : ImportNode.t) (h' : list HostCall) :
  let st := performAll ops h newProvider in
  exists members,
    result (getModuleExports editor importNode h' st) = Returned members
    /\ Forall (fun m => MemberNode.modulePath m = ImportNode.modulePath importNode) members.
Proof.
  cbv zeta.
  assert (Hc : consistent (performAll ops h newProvider)).
  { apply performAll_consistent. repeat split; try constructor.
    intros k ms Hl. simpl in Hl. rewrite lookup_empty in Hl. discriminate. }
  destruct (getModuleExports_cache regExpOther localeCompare host editor importNode h'
              (performAll ops h newProvider)) as (ms & Hr & _).
  exists ms. split; [exact Hr |].
  destruct (memberCache (performAll ops h newProvider) !! ImportNode.modulePath importNode)
    as [ms0 |] eqn:Hl.
  - rewrite (getModuleExports_hit _ _ _ _ _ _ _ ms0 Hl) in Hr. inversion Hr. subst.
    destruct Hc as (_ & _ & Hk). eapply Hk, Hl.
  - eapply getModuleExports_paths; eauto.
Qed.

(** X12. When the [RegExp] constructor refuses the expression made from
    the label of a kept completion item that has no documentation of its
    own, [getModuleExports] returns the empty list, whatever the other
    items are, and leaves the provider as it was. *)
Theorem X12_refused_label_loses_all_members document importNode h st position trigger pre item post :
  memberCache st !! ImportNode.modulePath importNode = None ->
  result (completionTarget regExpOther importNode document h st)
  = Returned (Some (position, trigger)) ->
  executeCompletionItemProvider host h (TextDocument.uri document) position trigger
  = Returned (Some (pre ++ item :: post)) ->
  isNonExport (CompletionItem.kind item) = false ->
  ownDocumentation item = None ->
  refusedName regExpOther (labelOf item) ->
  let r := getModuleExports (Some document) importNode h st in
  result r = Returned [] /\ stateAfter r = st.
Proof.
  intros Hc Ht Ho Hk Hown Hbad. cbv zeta.
  rewrite (getModuleExports_miss _ _ _ _ _ _ _ Hc).
  destruct (getAlreadyImportedNames_returns regExpOther
              (TextDocument.getText document) (ImportNode.modulePath importNode) h st)
    as (names & ->).
  rewrite Ht. cbv zeta. rewrite Ho. unfold isThrown.
  assert (Hfrom : forall h', exists e cs,
    fromCompletions regExpOther host names (pre ++ item :: post)
      (ImportNode.modulePath importNode) document h' st = (Thrown e, st, cs)).
  { intros h'. unfold fromCompletions, bind.
    destruct (processCompletionItems_refused regExpOther host (ImportNode.modulePath importNode) document
                item pre post h' st Hk Hown Hbad) as (e & cs & E).
    rewrite E. exists e, cs. reflexivity. }
  destruct (pre ++ item :: post) as [| i0 items0] eqn:El; [destruct pre; discriminate |].
  match goal with |- context [fromCompletions _ _ _ _ _ _ ?h' st] =>
    destruct (Hfrom h') as (e & cs & E) end.
  rewrite E. split; reflexivity.
Qed.

(** X13. When the [RegExp] constructor refuses the expression made from
    the name of a namespace node, [getModuleExports] returns the empty
    list without a call to the host and leaves the provider as it was. *)
Theorem X13_refused_namespace_name_asks_no_host document importNode h st :
  memberCache st !! ImportNode.modulePath importNode = None ->
  ImportNode.isNamespace importNode = true ->
  Fragment.newRegExp regExpOther WordBoundary (ImportNode.name importNode)
    (Chr (Lit ".")) ("\b" +:+ ImportNode.name importNode +:+ "\.") = None ->
  getModuleExports (Some document) importNode h st = (Returned [], st, []).
Proof.
  intros Hc Hns Hbad.
  rewrite (getModuleExports_miss _ _ _ _ _ _ _ Hc).
  destruct (getAlreadyImportedNames_returns regExpOther
              (TextDocument.getText document) (ImportNode.modulePath importNode) h st)
    as (names & ->).
  unfold completionTarget. rewrite Hns. cbv zeta.
  rewrite bind_newRegExp, Hbad. reflexivity.
Qed.

(** X16. After [addPackage packageName], the root of the tree lists a node
    with that module path when an editor is active, and lists nothing
    when no editor is active. *)
Theorem X16_added_package_is_listed packageName h st document h' :
  let st' := stateAfter (addPackage packageName h st) in
  (exists node nodes,
     getChildren (Some document) None h' st'
     = (Returned nodes, st', [])
     /\ In (Import node) nodes
     /\ ImportNode.modulePath node = packageName)
  /\ getChildren None None h' st'
     = (Returned [], st', []).
Proof.
  cbv zeta. split; [| reflexivity].
  pose proof (addPackage_has packageName h st) as H.
  apply existsb_exists in H as (p & Hin & Hp). apply String.eqb_eq in Hp.
  destruct (scan_node document packageName
              (manualPackages (stateAfter (addPackage packageName h st))))
    as (node & Hnode & Hpath).
  { unfold scan. rewrite <- Hp at 1. apply manual_has. exact Hin. }
  exists node. eexists. split; [reflexivity |].
  split; [apply in_map, Hnode | exact Hpath].
Qed.

End Extras.

Import Packages Activation.

(** X14. Every node the scanner returns is one of the packages added by
    hand, or a node made from the text: it is not marked as added by hand,
    its location is in the document at column 0, its module path is not
    empty and holds no quote, and its name is not empty. *)
Theorem X14_scanned_nodes_are_well_formed document manualPackages node :
  In node (Scanner.findImportedModules (Some document) manualPackages) ->
  In node manualPackages \/ scannedNode document node.
Proof.
  simpl. unfold values. intros H. apply in_map_iff in H as (e & <- & He).
  pose proof (scan_nodes document manualPackages) as Hf.
  rewrite Forall_forall in Hf. apply Hf. apply list_elem_of_In. exact He.
Qed.


(** X17. What [escapeHtml] returns holds no [<], no [>] and no double
    quote, and reading its entities back gives the text it was given. *)
Theorem X17_escapeHtml_is_inert_and_reversible (s : string) :
  allChars isInert (Extension.escapeHtml s) = true
  /\ readEntities (Extension.escapeHtml s) = s.
Proof.
  rewrite escapeHtml_withEntities. induction s as [| a s [IH1 IH2]]; [split; reflexivity |].
  simpl. split.
  - rewrite allChars_append, entity_inert, IH1. reflexivity.
  - rewrite readEntities_entity, IH2. reflexivity.
Qed.

(** X18. The text [escapeRegex] returns, read as a pattern, consumes the
    text it was given and nothing else. *)
Theorem X18_escaped_text_matches_itself_only (s : string) :
  exists r,
    Fragment.parse (escapeRegex s) = Some r
    /\ forall w, lang r w <-> w = s.
Proof.
  exists (lit s). split; [apply parse_escapeRegex |]. intros w. split; [apply lang_lit |].
  intros ->. induction s as [| a s IH]; [reflexivity |].
  exists (String a EmptyString), s. split; [reflexivity |].
  split; [| exact IH]. exists a. split; [reflexivity | apply Ascii.eqb_refl].
Qed.

(** X19. [getInstalledPackages] returns the names in increasing order of
    their code units, each once. A name is in the list exactly when, for
    one of the workspace folders, [package.json] was read and parsed to an
    object, the value of its property [dependencies] or [devDependencies]
    is taken by [if] (it is not [null], [false], [0] or the empty string),
    and the name is a key of that value. Without workspace folders the
    list is empty. *)
Theorem X19_installed_packages_sorted_and_complete (workspaceFolders : option (list (Outcome Json))) :
  StronglySorted (fun a b => String.ltb a b = true)
    (getInstalledPackages workspaceFolders)
  /\ (forall p,
       In p (getInstalledPackages workspaceFolders)
       <-> exists folders packageJson,
             workspaceFolders = Some folders
             /\ In packageJson folders /\ dependencyOf packageJson p)
  /\ getInstalledPackages None = [].
Proof.
  split; [| split; [| reflexivity]].
  - destruct workspaceFolders as [folders |]; simpl; [| constructor].
    destruct (unique_spec (flat_map folderPackages folders)) as [Hn _].
    apply strictly_sorted; [| apply sortNames_sorted].
    rewrite sortNames_perm. exact Hn.
  - intros p. destruct workspaceFolders as [folders |]; simpl.
    2: { split; [intros [] |]. intros (f & o & H & _). discriminate. }
    destruct (unique_spec (flat_map folderPackages folders)) as [_ Hin]. split.
    + intros H. apply (Permutation_in _ (sortNames_perm _)) in H.
      apply Hin, in_flat_map in H as (o & Ho & Hp).
      exists folders, o. split; [reflexivity |]. split; [exact Ho |].
      apply folderPackages_spec, Hp.
    + intros (f & o & Hf & Ho & Hp). inversion Hf. subst f.
      apply (Permutation_in _ (Permutation_sym (sortNames_perm _))).
      apply Hin, in_flat_map. exists o. split; [exact Ho |].
      apply folderPackages_spec, Hp.
Qed.

(** X20. Whatever commands are run and whatever panels the user closes,
    no handler throws (a disposed panel is never used), and the panels
    that are open are the one [docPanel] names, a documentation panel, or
    none. *)
Theorem X20_panel_is_tracked (evs : list Event) :
  fst (handleAll evs Activation.activate) = false
  /\ tracked (snd (handleAll evs Activation.activate)).
Proof. apply handleAll_tracked. unfold tracked. reflexivity. Qed.

(** X21. At any time, running the command of the tree item of a member
    leaves one open panel with the name of the member as its title and the
    documentation page of the member as its content, and leaves the
    provider as it was. *)
Theorem X21_member_row_opens_its_page (evs : list Event)
    (answers : Activation.Answers) (m : MemberNode.t) :
  let app := snd (handleAll evs Activation.activate) in
  exists c id app',
    Tree.itemCommand (Tree.getTreeItem (Member m)) = Some c
    /\ Activation.executeCommand answers (Tree.command c) (Tree.arguments c) app
       = (Returned tt, app')
    /\ Activation.docPanel app' = Some id
    /\ Activation.panels app'
       = [(id, {| Activation.viewType := "typeExplorerDoc";
                  Activation.panelTitle := MemberNode.name m;
                  Activation.enableScripts := true;
                  Activation.html := Extension.getDocumentationHtml m |})]
    /\ Activation.provider app' = Activation.provider app.
Proof.
  cbv zeta.
  destruct (handleAll_tracked evs Activation.activate) as [_ Ht];
    [unfold tracked; reflexivity |].
  destruct (showDocumentation_member m _ Ht) as (id & H).
  eexists _, id, _. split; [reflexivity |]. split; [exact H |]. repeat split.
Qed.

(** X22. The command [browsePackage] returns, leaves the panels alone,
    and either leaves the provider as it was or has the effect of one call
    of [addPackage], with a name that was typed and is not empty or with
    the name of an installed package; when the user dismisses the pick and
    the input box, nothing changes. *)
Theorem X22_browsePackage_adds_one_package_at_most
    (answers : Activation.Answers) (app : Activation.App) :
  exists app',
    browsePackageCommand answers app = (Returned tt, app')
    /\ docPanel app' = docPanel app /\ panels app' = panels app
    /\ (provider app' = provider app
        \/ exists name,
             ((typed answers = Some name /\ truthy name = true)
              \/ In name (Packages.getInstalledPackages (workspaceFolders answers)))
             /\ provider app' = stateAfter (addPackage name [] (provider app)))
    /\ (picked answers = None -> typed answers = None -> app' = app).
Proof.
  destruct (browsePackage_spec answers app) as (app' & H1 & H2 & H3 & H4 & H5 & H6).
  exists app'. repeat split; auto.
  intros Hp Ht. unfold browsePackageCommand, addTyped in H1. cbv zeta in H1.
  rewrite Hp, Ht in H1. simpl in H1.
  destruct (Packages.getInstalledPackages _); inversion H1; reflexivity.
Qed.
(* ================================================================== *)
(** ** Examples of the further properties *)
(* ================================================================== *)

Import Examples MoreExamples.

(* ------------------------------------------------------------------ *)
(** *** The order of the examples *)
(* ------------------------------------------------------------------ *)

Module OrderFacts.
Import Examples PageFacts.

Lemma compareCodeUnits_leb (a b : string) :
  (compareCodeUnits a b <= 0)%Z <-> String.leb a b = true.
Proof.
  unfold compareCodeUnits, String.leb.
  destruct (String.compare a b); split; intros H; try reflexivity; try lia; discriminate.
Qed.

(** The comparison by code units is transitive. *)
Lemma compareCodeUnits_trans (a b c : string) :
  (compareCodeUnits a b <= 0)%Z -> (compareCodeUnits b c <= 0)%Z ->
  (compareCodeUnits a c <= 0)%Z.
Proof.
  rewrite !compareCodeUnits_leb. apply leb_trans.
Qed.

(** Of two names, one does not come after the other. *)
Lemma compareCodeUnits_total (a b : string) :
  (0 < compareCodeUnits a b)%Z -> (compareCodeUnits b a <= 0)%Z.
Proof.
  unfold compareCodeUnits. rewrite (String.compare_antisym a b).
  destruct (String.compare b a); simpl; lia.
Qed.

End OrderFacts.

(* ------------------------------------------------------------------ *)
(** *** The further properties at concrete inputs *)
(* ------------------------------------------------------------------ *)


(** X3 at a function, a keyword and a class, with a host that throws at
    every hover: it is not asked. *)
Lemma X3_witness :
  forallb hasOwnDocumentation (keptItems documentedItems) = true
  /\ processCompletionItems noOtherRegExp hoverFailsHost documentedItems "m"
       namedImportOfM [] emptyProvider
     = (Returned
          (map (fun item => memberOf "m" item (ownDocumentation item))
             (keptItems documentedItems)),
        emptyProvider, []).
Proof.
  assert (H : forallb hasOwnDocumentation (keptItems documentedItems) = true)
    by reflexivity.
  split; [exact H |].
  exact (X3_documented_items_need_no_host noOtherRegExp hoverFailsHost documentedItems
           "m" namedImportOfM [] emptyProvider H).
Defined.


(** X6 at the same import, for the comparison by code units. *)
Lemma X6_witness :
  let r := Resolver.getModuleExports noOtherRegExp compareCodeUnits documentingHost
             (Some namedImportOfM) nodeM [] emptyProvider in
  memberCache emptyProvider !! ImportNode.modulePath nodeM = None
  /\ existsb (fun c => isDefinitionRequest (request c)) (calls r) = false
  /\ exists members,
       result r = Returned members
       /\ StronglySorted (inOrder compareCodeUnits) members.
Proof.
  cbv zeta.
  assert (Hc : memberCache emptyProvider !! ImportNode.modulePath nodeM = None)
    by reflexivity.
  assert (Hd : existsb (fun c => isDefinitionRequest (request c))
                 (calls (Resolver.getModuleExports noOtherRegExp compareCodeUnits
                           documentingHost (Some namedImportOfM) nodeM [] emptyProvider))
               = false)
    by (vm_compute; reflexivity).
  split; [exact Hc | split; [exact Hd |]].
  exact (X6_members_are_sorted_for_the_comparison noOtherRegExp compareCodeUnits
           documentingHost (Some namedImportOfM) nodeM [] emptyProvider
           OrderFacts.compareCodeUnits_trans OrderFacts.compareCodeUnits_total Hc Hd).
Defined.

(** X7 at the same import: [foo], which the declaration names and the
    completion does not give, is a member. *)
Lemma X7_witness :
  let r := Resolver.getModuleExports noOtherRegExp compareCodeUnits documentingHost
             (Some namedImportOfM) nodeM [] emptyProvider in
  let members :=
    [memberOf "m" (documentedItem CompletionItemKind.Class "A" "the class A")
       (Some "the class A");
     memberOf "m" (documentedItem CompletionItemKind.Function "b" "the function b")
       (Some "the function b");
     {| MemberNode.name := "foo";
        MemberNode.detail := EmptyString;
        MemberNode.symbolKind := SymbolKind.Variable_;
        MemberNode.modulePath := "m";
        MemberNode.documentation := None |}] in
  memberCache emptyProvider !! ImportNode.modulePath nodeM = None
  /\ existsb (fun c => isDefinitionRequest (request c)) (calls r) = false
  /\ result r = Returned members
  /\ result (getAlreadyImportedNames noOtherRegExp (TextDocument.getText namedImportOfM)
               (ImportNode.modulePath nodeM) [] emptyProvider)
     = Returned ["foo"]
  /\ In "foo" ["foo"]
  /\ exists m', In m' members /\ MemberNode.name m' = "foo".
Proof.
  cbv zeta.
  assert (Hc : memberCache emptyProvider !! ImportNode.modulePath nodeM = None)
    by reflexivity.
  assert (Hd : existsb (fun c => isDefinitionRequest (request c))
                 (calls (Resolver.getModuleExports noOtherRegExp compareCodeUnits
                           documentingHost (Some namedImportOfM) nodeM [] emptyProvider))
               = false)
    by (vm_compute; reflexivity).
  assert (Hr : result (Resolver.getModuleExports noOtherRegExp compareCodeUnits
                         documentingHost (Some namedImportOfM) nodeM [] emptyProvider)
               = Returned
                   [memberOf "m"
                      (documentedItem CompletionItemKind.Class "A" "the class A")
                      (Some "the class A");
                    memberOf "m"
                      (documentedItem CompletionItemKind.Function "b" "the function b")
                      (Some "the function b");
                    {| MemberNode.name := "foo";
                       MemberNode.detail := EmptyString;
                       MemberNode.symbolKind := SymbolKind.Variable_;
                       MemberNode.modulePath := "m";
                       MemberNode.documentation := None |}])
    by (vm_compute; reflexivity).
  assert (Hn : result (getAlreadyImportedNames noOtherRegExp
                         (TextDocument.getText namedImportOfM)
                         (ImportNode.modulePath nodeM) [] emptyProvider)
               = Returned ["foo"])
    by (vm_compute; reflexivity).
  assert (Hin : In "foo" ["foo"]) by (left; reflexivity).
  split; [exact Hc | split; [exact Hd | split; [exact Hr | split; [exact Hn |]]]].
  split; [exact Hin |].
  exact (X7_imported_names_are_members noOtherRegExp compareCodeUnits documentingHost
           namedImportOfM nodeM [] emptyProvider _ _ ["foo"] Hc Hd Hr Hn "foo" Hin).
Defined.


(** X12 at a completion that gives a class and then a function whose
    label holds an open parenthesis: the class is lost too. *)
Lemma X12_witness :
  let r := Resolver.getModuleExports noOtherRegExp compareCodeUnits oddLabelHost
             (Some namedImportOfM) nodeM [] emptyProvider in
  let position := {| Position.line := 0; Position.character := 8 |} in
  memberCache emptyProvider !! ImportNode.modulePath nodeM = None
  /\ result (completionTarget noOtherRegExp nodeM namedImportOfM [] emptyProvider)
     = Returned (Some (position, None))
  /\ executeCompletionItemProvider oddLabelHost [] (TextDocument.uri namedImportOfM)
       position None
     = Returned (Some ([documentedItem CompletionItemKind.Class "A" "the class A"]
                       ++ functionItem "a(" :: []))
  /\ isNonExport (CompletionItem.kind (functionItem "a(")) = false
  /\ ownDocumentation (functionItem "a(") = None
  /\ refusedName noOtherRegExp (labelOf (functionItem "a("))
  /\ result r = Returned [] /\ stateAfter r = emptyProvider.
Proof.
  cbv zeta.
  assert (Hc : memberCache emptyProvider !! ImportNode.modulePath nodeM = None)
    by reflexivity.
  assert (Ht : result (completionTarget noOtherRegExp nodeM namedImportOfM []
                         emptyProvider)
               = Returned (Some ({| Position.line := 0; Position.character := 8 |}, None)))
    by (vm_compute; reflexivity).
  assert (Ho : executeCompletionItemProvider oddLabelHost []
                 (TextDocument.uri namedImportOfM)
                 {| Position.line := 0; Position.character := 8 |} None
               = Returned (Some ([documentedItem CompletionItemKind.Class "A"
                                    "the class A"]
                                 ++ functionItem "a(" :: [])))
    by reflexivity.
  assert (Hk : isNonExport (CompletionItem.kind (functionItem "a(")) = false)
    by reflexivity.
  assert (Hown : ownDocumentation (functionItem "a(") = None) by reflexivity.
  assert (Hbad : refusedName noOtherRegExp (labelOf (functionItem "a(")))
    by (vm_compute; reflexivity).
  split; [exact Hc | split; [exact Ht | split; [exact Ho | split; [exact Hk |]]]].
  split; [exact Hown | split; [exact Hbad |]].
  exact (X12_refused_label_loses_all_members noOtherRegExp compareCodeUnits oddLabelHost
           namedImportOfM nodeM [] emptyProvider _ _ _ _ _ Hc Ht Ho Hk Hown Hbad).
Defined.

(** X13 at the node of a package added by hand whose name holds an open
    parenthesis. *)
Lemma X13_witness :
  memberCache emptyProvider !! ImportNode.modulePath oddNamespaceNode = None
  /\ ImportNode.isNamespace oddNamespaceNode = true
  /\ Fragment.newRegExp noOtherRegExp WordBoundary (ImportNode.name oddNamespaceNode)
       (Chr (Lit ".")) ("\b" +:+ ImportNode.name oddNamespaceNode +:+ "\.") = None
  /\ Resolver.getModuleExports noOtherRegExp compareCodeUnits oddLabelHost
       (Some namedImportOfM) oddNamespaceNode [] emptyProvider
     = (Returned [], emptyProvider, []).
Proof.
  assert (Hc : memberCache emptyProvider !! ImportNode.modulePath oddNamespaceNode = None)
    by reflexivity.
  assert (Hns : ImportNode.isNamespace oddNamespaceNode = true) by reflexivity.
  assert (Hbad : Fragment.newRegExp noOtherRegExp WordBoundary
                   (ImportNode.name oddNamespaceNode) (Chr (Lit "."))
                   ("\b" +:+ ImportNode.name oddNamespaceNode +:+ "\.") = None)
    by (vm_compute; reflexivity).
  split; [exact Hc | split; [exact Hns | split; [exact Hbad |]]].
  exact (X13_refused_namespace_name_asks_no_host noOtherRegExp compareCodeUnits
           oddLabelHost namedImportOfM oddNamespaceNode [] emptyProvider Hc Hns Hbad).
Defined.

(** X14 at the node of the named import of [m] in a document with two
    imports and one package added by hand. *)
Lemma X14_witness :
  let node :=
    {| ImportNode.name := "b";
       ImportNode.modulePath := "m";
       ImportNode.isNamespace := false;
       ImportNode.location :=
         Location.at_ (Uri.parse "file:///example.ts")
           {| Position.line := 1; Position.character := 0 |};
       ImportNode.isManuallyAdded := None |} in
  In node (Scanner.findImportedModules (Some twoImports) [oddNamespaceNode])
  /\ (In node [oddNamespaceNode] \/ scannedNode twoImports node).
Proof.
  cbv zeta.
  assert (Hin : In {| ImportNode.name := "b";
                      ImportNode.modulePath := "m";
                      ImportNode.isNamespace := false;
                      ImportNode.location :=
                        Location.at_ (Uri.parse "file:///example.ts")
                          {| Position.line := 1; Position.character := 0 |};
                      ImportNode.isManuallyAdded := None |}
                  (Scanner.findImportedModules (Some twoImports) [oddNamespaceNode])).
  { vm_compute. right. left. reflexivity. }
  split; [exact Hin |].
  exact (X14_scanned_nodes_are_well_formed twoImports [oddNamespaceNode] _ Hin).
Defined.

